(** * Exam-question extraction pipeline: a shallow embedding and its properties

    The Python sources embedded here are
      - [src/question_parser.py]        (class [QuestionParser]),
      - [src/pdf_processor.py]          (class [PDFProcessor]),
      - [src/robust_question_parser.py] (class [RobustQuestionParser]).

    Character model.  A Python [str] is a list of Unicode code points
    ([N]).  Whitespace ([str.strip], [str.split()], [\s]) follows
    CPython's table exactly.  Case-insensitive matching follows the
    [re] module on the Basic Latin letters, including the four
    non-ASCII letters that fold onto them (U+0130, U+0131, U+017F,
    U+212A).  [\d], [\w], [str.lower] and [str.upper] are the Basic
    Latin ones: code points above U+007F are neither digits nor word
    characters and have no case here.

    Numbers.  [page_number] and the question counter are Python
    integers ([Z]); [int] of a run of digits is its value.  The
    confidence score is a binary64 float, computed with the same
    additions as the source.  The similarity of two descriptions, a
    quotient of two set sizes, is kept as the exact rational.

    State.  A [QuestionParser] instance carries a counter and the list
    of comments collected so far; functions that change them take and
    return that state. *)

From Stdlib Require Import List NArith ZArith Bool Lia Ascii String QArith Floats.
From stdpp Require Import gmap.

Set Warnings "-inexact-float".

Local Open Scope N_scope.

(** ** Python strings *)

Abbreviation char := N (only parsing).
Abbreviation text := (list N) (only parsing).

Definition str (s : string) : text :=
  List.map N_of_ascii (list_ascii_of_string s).

Definition NL : char := 10.
Definition SP : char := 32.
Definition DQUOTE : char := 34.

Definition between (lo hi c : char) : bool := (lo <=? c) && (c <=? hi).

(** [str.isspace] on one code point (CPython's [_PyUnicode_IsWhitespace]). *)
Definition is_space (c : char) : bool :=
  between 9 13 c || between 28 32 c || (c =? 0x85) || (c =? 0xA0)
  || (c =? 0x1680) || between 0x2000 0x200A c || (c =? 0x2028)
  || (c =? 0x2029) || (c =? 0x202F) || (c =? 0x205F) || (c =? 0x3000).

Definition is_upper_ascii (c : char) : bool := between 65 90 c.
Definition is_lower_ascii (c : char) : bool := between 97 122 c.
Definition is_digit (c : char) : bool := between 48 57 c.
Definition is_word (c : char) : bool :=
  is_upper_ascii c || is_lower_ascii c || is_digit c || (c =? 95).

Definition lower_char (c : char) : char := if is_upper_ascii c then c + 32 else c.
Definition upper_char (c : char) : char := if is_lower_ascii c then c - 32 else c.

Definition lower (s : text) : text := List.map lower_char s.
Definition upper (s : text) : text := List.map upper_char s.

Fixpoint lstrip (s : text) : text :=
  match s with
  | c :: s' => if is_space c then lstrip s' else s
  | [] => []
  end.

Definition rstrip (s : text) : text := rev (lstrip (rev s)).
Definition strip (s : text) : text := rstrip (lstrip s).

(** [s.split(sep)] for a one-character separator: never an empty list. *)
Fixpoint split_on (sep : char) (s : text) : list text :=
  match s with
  | [] => [[]]
  | c :: s' =>
      if c =? sep then [] :: split_on sep s'
      else match split_on sep s' with
           | w :: ws => (c :: w) :: ws
           | [] => [[c]]
           end
  end.

(** [s.split()]: maximal runs of non-whitespace. *)
Fixpoint split_ws_aux (cur : text) (s : text) : list text :=
  match s with
  | [] => match cur with [] => [] | _ => [rev cur] end
  | c :: s' =>
      if is_space c
      then match cur with [] => split_ws_aux [] s' | _ => rev cur :: split_ws_aux [] s' end
      else split_ws_aux (c :: cur) s'
  end.
Definition split_ws (s : text) : list text := split_ws_aux [] s.

(** [sep.join(parts)] *)
Fixpoint join (sep : text) (parts : list text) : text :=
  match parts with
  | [] => []
  | [p] => p
  | p :: ps => p ++ sep ++ join sep ps
  end.

Fixpoint text_eqb (a b : text) : bool :=
  match a, b with
  | [], [] => true
  | x :: a', y :: b' => (x =? y) && text_eqb a' b'
  | _, _ => false
  end.

Fixpoint starts_with (p s : text) : bool :=
  match p, s with
  | [], _ => true
  | x :: p', y :: s' => (x =? y) && starts_with p' s'
  | _ :: _, [] => false
  end.

(** [needle in hay] *)
Fixpoint contains (needle hay : text) : bool :=
  starts_with needle hay ||
  match hay with
  | [] => false
  | _ :: hay' => contains needle hay'
  end.

(** [s.replace(old, new)] for a non-empty [old]. *)
Fixpoint replace_fuel (fuel : nat) (old new s : text) : text :=
  match fuel with
  | O => s
  | S fuel' =>
      match s with
      | [] => []
      | c :: s' =>
          if starts_with old s
          then new ++ replace_fuel fuel' old new (skipn (length old) s)
          else c :: replace_fuel fuel' old new s'
      end
  end.
Definition replace (old new s : text) : text :=
  match old with
  | [] => s
  | _ => replace_fuel (length s) old new s
  end.

(** [str(n)] and [int(s)] for decimal digit strings. *)
Fixpoint text_of_uint (d : Decimal.uint) : text :=
  match d with
  | Decimal.Nil => []
  | Decimal.D0 d' => 48 :: text_of_uint d'
  | Decimal.D1 d' => 49 :: text_of_uint d'
  | Decimal.D2 d' => 50 :: text_of_uint d'
  | Decimal.D3 d' => 51 :: text_of_uint d'
  | Decimal.D4 d' => 52 :: text_of_uint d'
  | Decimal.D5 d' => 53 :: text_of_uint d'
  | Decimal.D6 d' => 54 :: text_of_uint d'
  | Decimal.D7 d' => 55 :: text_of_uint d'
  | Decimal.D8 d' => 56 :: text_of_uint d'
  | Decimal.D9 d' => 57 :: text_of_uint d'
  end.

Definition str_of_N (n : N) : text := text_of_uint (N.to_uint n).
Definition str_of_Z (z : Z) : text :=
  match z with
  | Zneg p => 45 :: str_of_N (Npos p)
  | _ => str_of_N (Z.to_N z)
  end.

Definition int_of_digits (s : text) : Z :=
  fold_left (fun acc c => (10 * acc + Z.of_N (c - 48))%Z) s 0%Z.


(** ** The fragment of Python's [re] used by the sources

    Patterns are written as syntax trees; each pattern below carries
    its source text in a comment.  Matching is backtracking with
    Python's priorities: alternatives left to right, greedy
    repetitions longest first, lazy ones shortest first. *)

Record flags := { ignorecase : bool; multiline : bool; dotall : bool }.

Definition NOFLAGS := {| ignorecase := false; multiline := false; dotall := false |}.
Definition IGNORECASE := {| ignorecase := true; multiline := false; dotall := false |}.
Definition MULTILINE := {| ignorecase := false; multiline := true; dotall := false |}.
(** Members of a bracketed set. *)
Inductive item :=
| IChr (c : char)
| IRng (lo hi : char)
| ISpace
| IDigit
| IWord.

Inductive regex :=
| Eps
| Chr (c : char)
| Dot
| In_ (its : list item)
| NotIn (its : list item)
| Seq (r1 r2 : regex)
| Alt (r1 r2 : regex)
| Rep (r : regex) (lo : nat) (hi : option nat) (greedy : bool)
| Grp (n : nat) (r : regex)
| Bol
| Eol
| Wordb
| Ahead (r : regex).

(** [sre]'s one-character lowering, and the letters it treats as
    equivalent although their lowerings differ. *)
Definition sre_lower (c : char) : char :=
  if is_upper_ascii c then c + 32
  else if c =? 0x130 then 105
  else if c =? 0x212A then 107
  else c.

Definition sre_fixes (c : char) : list char :=
  if c =? 105 then [0x131] else if c =? 115 then [0x17F] else [].

(** Characters whose lowering is [x]. *)
Definition lower_preimages (x : char) : list char :=
  (if is_upper_ascii x then [] else [x])
  ++ (if is_lower_ascii x then [x - 32] else [])
  ++ (if x =? 105 then [0x130] else [])
  ++ (if x =? 107 then [0x212A] else []).

(** Is [x] the lowering of, or a fixed equivalent of the lowering of,
    some character accepted by [p]? *)
Definition lowered_member (p : char -> bool) (x : char) : bool :=
  existsb p (lower_preimages x)
  || ((x =? 0x131) && existsb p (lower_preimages 105))
  || ((x =? 0x17F) && existsb p (lower_preimages 115)).

Definition item_match (fl : flags) (it : item) (d : char) : bool :=
  match it with
  | IChr c => if ignorecase fl then lowered_member (N.eqb c) (sre_lower d) else d =? c
  | IRng lo hi => if ignorecase fl then lowered_member (between lo hi) (sre_lower d) else between lo hi d
  | ISpace => is_space (if ignorecase fl then sre_lower d else d)
  | IDigit => is_digit (if ignorecase fl then sre_lower d else d)
  | IWord => is_word (if ignorecase fl then sre_lower d else d)
  end.

Definition set_match (fl : flags) (its : list item) (d : char) : bool :=
  existsb (fun it => item_match fl it d) its.

Definition chr_match (fl : flags) (c d : char) : bool := item_match fl (IChr c) d.

Definition dot_match (fl : flags) (d : char) : bool := dotall fl || negb (d =? NL).

(** A position in the subject: the consumed prefix (reversed), the
    remainder, and the groups captured so far (latest first). *)
Record mstate := { before : text; rest : text; caps : list (nat * text) }.

Definition advance (st : mstate) (d : char) (tl : text) : mstate :=
  {| before := d :: before st; rest := tl; caps := caps st |}.

Definition set_cap (n : nat) (st0 st1 : mstate) : mstate :=
  {| before := before st1; rest := rest st1;
     caps := (n, firstn (length (rest st0) - length (rest st1)) (rest st0)) :: caps st1 |}.

Definition at_bol (fl : flags) (st : mstate) : bool :=
  match before st with
  | [] => true
  | c :: _ => multiline fl && (c =? NL)
  end.

Definition at_eol (fl : flags) (st : mstate) : bool :=
  match rest st with
  | [] => true
  | c :: tl => (c =? NL) && (multiline fl || match tl with [] => true | _ => false end)
  end.

Definition at_wordb (st : mstate) : bool :=
  xorb (match before st with c :: _ => is_word c | [] => false end)
       (match rest st with c :: _ => is_word c | [] => false end).

Definition cont := mstate -> option mstate.

Definition one_char (p : char -> bool) (st : mstate) (k : cont) : option mstate :=
  match rest st with
  | d :: tl => if p d then k (advance st d tl) else None
  | [] => None
  end.

Definition below (hi : option nat) (count : nat) : bool :=
  match hi with
  | None => true
  | Some h => (count <? h)%nat
  end.

(** Repetition.  Every iteration must consume input (all repeated
    bodies in the sources are non-empty), so [length (rest st)]
    iterations of fuel are never exhausted early. *)
Fixpoint rep_loop (body : mstate -> cont -> option mstate)
    (lo : nat) (hi : option nat) (greedy : bool)
    (fuel count : nat) (st : mstate) (k : cont) : option mstate :=
  match fuel with
  | O => if (lo <=? count)%nat then k st else None
  | S fuel' =>
      let again (_ : unit) :=
        if below hi count
        then body st (fun st' =>
               if (length (rest st') <? length (rest st))%nat
               then rep_loop body lo hi greedy fuel' (S count) st' k
               else None)
        else None in
      let stop (_ : unit) := if (lo <=? count)%nat then k st else None in
      if greedy
      then match again tt with Some r => Some r | None => stop tt end
      else match stop tt with Some r => Some r | None => again tt end
  end.

(** A successful match: where it starts, and where it ends (with its
    groups). *)
Record rmatch_result := { m_from : mstate; m_to : mstate }.

Section Matcher.
Variable fl : flags.

Fixpoint rmatch (r : regex) (st : mstate) (k : cont) : option mstate :=
  match r with
  | Eps => k st
  | Chr c => one_char (chr_match fl c) st k
  | Dot => one_char (dot_match fl) st k
  | In_ its => one_char (set_match fl its) st k
  | NotIn its => one_char (fun d => negb (set_match fl its d)) st k
  | Seq r1 r2 => rmatch r1 st (fun st' => rmatch r2 st' k)
  | Alt r1 r2 =>
      match rmatch r1 st k with
      | Some res => Some res
      | None => rmatch r2 st k
      end
  | Rep r' lo hi greedy =>
      rep_loop (rmatch r') lo hi greedy (length (rest st)) 0 st k
  | Grp n r' => rmatch r' st (fun st' => k (set_cap n st st'))
  | Bol => if at_bol fl st then k st else None
  | Eol => if at_eol fl st then k st else None
  | Wordb => if at_wordb st then k st else None
  | Ahead r' =>
      match rmatch r' st Some with
      | Some _ => k st
      | None => None
      end
  end.

Definition try_at (r : regex) (bef rst : text) : option rmatch_result :=
  let st := {| before := bef; rest := rst; caps := [] |} in
  match rmatch r st Some with
  | Some st' => Some {| m_from := st; m_to := st' |}
  | None => None
  end.

(** [re.search] continued from a position: leftmost start first. *)
Fixpoint search_from (r : regex) (bef rst : text) : option rmatch_result :=
  match try_at r bef rst with
  | Some m => Some m
  | None =>
      match rst with
      | [] => None
      | c :: tl => search_from r (c :: bef) tl
      end
  end.

Definition re_search (r : regex) (s : text) : option rmatch_result := search_from r [] s.
Definition re_match (r : regex) (s : text) : option rmatch_result := try_at r [] s.
Definition found (r : regex) (s : text) : bool :=
  match re_search r s with Some _ => true | None => false end.

End Matcher.

Definition m_start (m : rmatch_result) : nat := length (before (m_from m)).

(** [m.group(0)] *)
Definition group0 (m : rmatch_result) : text :=
  firstn (length (rest (m_from m)) - length (rest (m_to m))) (rest (m_from m)).

Fixpoint assoc_nat (n : nat) (l : list (nat * text)) : option text :=
  match l with
  | [] => None
  | (i, v) :: l' => if (i =? n)%nat then Some v else assoc_nat n l'
  end.

(** [m.group(n)]; a group that did not take part reads as empty. *)
Definition group (n : nat) (m : rmatch_result) : text :=
  match assoc_nat n (caps (m_to m)) with
  | Some v => v
  | None => []
  end.

(** [re.sub(pattern, repl, s)]; [repl] computes the replacement from
    the match. *)
Fixpoint sub_from (fl : flags) (fuel : nat) (r : regex)
    (repl : rmatch_result -> text) (bef rst : text) : text :=
  match fuel with
  | O => rst
  | S fuel' =>
      match search_from fl r bef rst with
      | None => rst
      | Some m =>
          let skipped := firstn (m_start m - length bef) rst in
          let e := m_to m in
          if (length (rest e) <? length (rest (m_from m)))%nat
          then skipped ++ repl m ++ sub_from fl fuel' r repl (before e) (rest e)
          else match rest e with
               | [] => skipped ++ repl m
               | c :: tl => skipped ++ repl m ++ c :: sub_from fl fuel' r repl (c :: before e) tl
               end
      end
  end.

Definition re_sub (fl : flags) (r : regex) (repl : text) (s : text) : text :=
  sub_from fl (S (length s)) r (fun _ => repl) [] s.

Definition re_sub_with (fl : flags) (r : regex) (repl : rmatch_result -> text) (s : text) : text :=
  sub_from fl (S (length s)) r repl [] s.

(** [re.finditer(pattern, s)]: the matches from left to right, each
    search starting where the previous match ended (one character
    further on after an empty match). *)
Fixpoint finditer_from (fl : flags) (fuel : nat) (r : regex) (bef rst : text)
  : list rmatch_result :=
  match fuel with
  | O => []
  | S fuel' =>
      match search_from fl r bef rst with
      | None => []
      | Some m =>
          let e := m_to m in
          if (length (rest e) <? length (rest (m_from m)))%nat
          then m :: finditer_from fl fuel' r (before e) (rest e)
          else match rest e with
               | [] => [m]
               | c :: tl => m :: finditer_from fl fuel' r (c :: before e) tl
               end
      end
  end.

Definition finditer (fl : flags) (r : regex) (s : text) : list rmatch_result :=
  finditer_from fl (S (length s)) r [] s.

(** [m.end()] *)
Definition m_end (m : rmatch_result) : nat := length (before (m_to m)).

(** [re.DOTALL], and [a | b] on flags. *)
Definition DOTALL := {| ignorecase := false; multiline := false; dotall := true |}.

Definition flag_or (a b : flags) : flags :=
  {| ignorecase := ignorecase a || ignorecase b;
     multiline := multiline a || multiline b;
     dotall := dotall a || dotall b |}.

(** [re.split(pattern, s)] for a pattern with one capturing group: the
    text before each match followed by the match's group 1, then the
    text after the last match. *)
Fixpoint split_at (s : text) (pos : nat) (matches : list rmatch_result) : list text :=
  match matches with
  | [] => [skipn pos s]
  | m :: matches' =>
      skipn pos (firstn (m_start m) s) :: group 1 m :: split_at s (m_end m) matches'
  end.

Definition re_split (fl : flags) (r : regex) (s : text) : list text :=
  split_at s 0 (finditer fl r s).

(** [s.split(sep)[0]]: the text before the first occurrence of [sep],
    the whole text when there is none. *)
Fixpoint before_first (sep s : text) : text :=
  match s with
  | [] => []
  | c :: s' => if starts_with sep s then [] else c :: before_first sep s'
  end.

(** [[\s\S]]: any character. *)
Definition AnyChar : regex := NotIn [].

(** [pat source r] is [r]; [source] records the pattern as the Python
    source spells it. *)
Definition pat (source : string) (r : regex) : regex := r.

(** Pattern-building shorthands. *)
Definition Star (r : regex) : regex := Rep r 0 None true.
Definition Plus (r : regex) : regex := Rep r 1 None true.
Definition Opt (r : regex) : regex := Rep r 0 (Some 1%nat) true.
Definition AtLeast (n : nat) (r : regex) : regex := Rep r n None true.
Definition Between (lo hi : nat) (r : regex) : regex := Rep r lo (Some hi) true.
Definition SpaceC : regex := In_ [ISpace].
Definition DigitC : regex := In_ [IDigit].
Definition WordC : regex := In_ [IWord].

Fixpoint seqs (rs : list regex) : regex :=
  match rs with
  | [] => Eps
  | [r] => r
  | r :: rs' => Seq r (seqs rs')
  end.

Fixpoint alts (rs : list regex) : regex :=
  match rs with
  | [] => NotIn [IRng 0 0x10FFFF]
  | [r] => r
  | r :: rs' => Alt r (alts rs')
  end.

(** A literal run of characters. *)
Definition lit_text (s : text) : regex := seqs (List.map Chr s).
Definition lit (s : string) : regex := lit_text (str s).

Definition show (s : text) : string :=
  string_of_list_ascii (List.map ascii_of_N s).

(** ** Question boundaries

    The dictionaries [identify_question_boundaries] builds and
    [parse_questions_from_pages] reads. *)

Record boundary := {
  start_page : Z;
  start_line : nat;
  question_header : text;
  content_lines : list text;
  source_file : text;
  full_content : option text
}.

(** Python truthiness of a string. *)
Definition is_empty (s : text) : bool := match s with [] => true | _ => false end.
Definition nonempty (s : text) : bool := negb (is_empty s).

(** ** [question_parser.py] *)

Module QuestionParser.

(** *** Data classes *)

Record CommunityComment := {
  question_id : text;
  username : text;
  content : text;
  timestamp : text;
  vote_count : Z;
  vote_type : text;
  cc_page_number : Z;
  cc_source : text
}.

Record Question := {
  unique_id : text;
  original_number : text;
  description : text;
  options : gmap (list N) (list N);
  community_answer : text;
  highly_voted_answer : text;
  most_recent_answer : text;
  claude_answer : text;
  claude_reasoning : text;
  latest_date : text;
  topic : text;
  page_number : Z;
  confidence_score : float;
  source : text;
  raw_content : text;
  source_pdf_path : text;
  introductory_info : text;
  has_claude_answer : bool
}.

(** The two configuration entries the parser reads. *)
Record config := {
  minimum_question_length : nat;
  minimum_confidence_score : float
}.

(** [_get_default_config]; the confidence threshold is absent from it,
    so [parse_questions_from_pages] falls back to [0.3]. *)
Definition _get_default_config : config :=
  {| minimum_question_length := 50; minimum_confidence_score := 0.3 |}.

(** The mutable fields of a [QuestionParser] instance. *)
Record parser_state := {
  question_counter : Z;
  community_comments : list CommunityComment
}.

(** [__init__] *)
Definition init_state : parser_state :=
  {| question_counter := 0; community_comments := [] |}.

(** *** Patterns *)

Definition letter_set : list item := [IRng 65 90; IRng 97 122].
Definition ident_set : list item := [IRng 65 90; IRng 97 122; IRng 48 57; IChr 95].
Definition opt_s (w : string) : regex := Seq (lit w) (Opt (Chr 115)).

(** The unit alternatives, with and without years. *)
Definition units4 : regex := alts [opt_s "year"; opt_s "month"; opt_s "week"; opt_s "day"].
Definition units3 : regex := alts [opt_s "month"; opt_s "week"; opt_s "day"].

Definition known_usernames : list string :=
  ["Ahmed_Safwat"; "SAMBIT"; "kopper2019"; "ChinaSailor"; "AzureDP900";
   "minmin2020"; "megumin"; "Mahmoud_E"; "holerina"; "BiddlyBdoyng";
   "nagibator163"; "Ausias18"; "lynx256"; "practicioner"; "gcparchitect007";
   "Kabiliravi"; "ry9280087"; "mlantonis"; "roastc"; "hems4all";
   "AdityaGupta"; "zzaric"; "Rightsaidfred"; "bnlcnd"; "joe2211"; "PeppaPig";
   "sjmsummer"; "vincy2202"; "AniketD"; "mifrah"; "JC0926"; "belly265"]%string.

(** [setup_community_patterns]: [self.community_indicators], in order. *)
Definition community_indicators : list regex :=
  [ pat "\uf147\s*\uf007"
      (seqs [Chr 0xf147; Star SpaceC; Chr 0xf007]);
    pat "^(\s*)[A-Za-z][A-Za-z0-9_]{2,}\s+\d+\s+(years?|months?|weeks?|days?),?\s*(\d+\s+(months?|weeks?|days?))?\s+ago"
      (seqs [Bol; Grp 1 (Star SpaceC); In_ letter_set; AtLeast 2 (In_ ident_set);
             Plus SpaceC; Plus DigitC; Plus SpaceC; Grp 2 units4; Opt (Chr 44);
             Star SpaceC; Opt (Grp 3 (seqs [Plus DigitC; Plus SpaceC; Grp 4 units3]));
             Plus SpaceC; lit "ago"]);
    pat "(Selected Answer|Highly Voted|Most Recent|Community Answer):\s*"
      (seqs [Grp 1 (alts [lit "Selected Answer"; lit "Highly Voted"; lit "Most Recent";
                          lit "Community Answer"]); Chr 58; Star SpaceC]);
    pat "Highly\s+Voted"
      (seqs [lit "Highly"; Plus SpaceC; lit "Voted"]);
    pat "Most\s+Recent"
      (seqs [lit "Most"; Plus SpaceC; lit "Recent"]);
    (* the set holds twelve arrow, box and camera glyphs *)
    pat "^(\s*)[U+25B6 U+25BC U+25BA U+25C4 U+2B05 U+27A1 U+1F518 U+25A1 U+25A0 U+1F4F7 U+1F5BC U+1F4F8]"
      (seqs [Bol; Grp 1 (Star SpaceC);
             In_ [IChr 0x25b6; IChr 0x25bc; IChr 0x25ba; IChr 0x25c4; IChr 0x2b05;
                  IChr 0x27a1; IChr 0x1f518; IChr 0x25a1; IChr 0x25a0; IChr 0x1f4f7;
                  IChr 0x1f5bc; IChr 0x1f4f8]]);
    pat "^(\s*)(Ahmed_Safwat|SAMBIT|...|belly265)"
      (seqs [Bol; Grp 1 (Star SpaceC); Grp 2 (alts (List.map lit known_usernames))]);
    pat "https?://[^\s]+"
      (seqs [lit "http"; Opt (Chr 115); lit "://"; Plus (NotIn [ISpace])]);
    pat "^(\s*)[>|\\-]\s*"
      (seqs [Bol; Grp 1 (Star SpaceC); In_ [IChr 62; IChr 124; IChr 92; IChr 45]; Star SpaceC]);
    pat "upvoted\s+\d+\s+times?"
      (seqs [lit "upvoted"; Plus SpaceC; Plus DigitC; Plus SpaceC; opt_s "time"]);
    pat "upvoted\s+\d+"
      (seqs [lit "upvoted"; Plus SpaceC; Plus DigitC]);
    pat "^(\s*)[A-Za-z][A-Za-z0-9_]{2,}\s+(Highly\s+Voted|Most\s+Recent)\s+"
      (seqs [Bol; Grp 1 (Star SpaceC); In_ letter_set; AtLeast 2 (In_ ident_set); Plus SpaceC;
             Grp 2 (Alt (seqs [lit "Highly"; Plus SpaceC; lit "Voted"])
                        (seqs [lit "Most"; Plus SpaceC; lit "Recent"]));
             Plus SpaceC]);
    pat "^(\s*)[A-Za-z][A-Za-z0-9_]{2,}\s+\d+\s+(years?|months?|weeks?|days?)\s+ago"
      (seqs [Bol; Grp 1 (Star SpaceC); In_ letter_set; AtLeast 2 (In_ ident_set);
             Plus SpaceC; Plus DigitC; Plus SpaceC; Grp 2 units4; Plus SpaceC; lit "ago"]) ].

(** [_is_community_comment] *)
Definition _is_community_comment (line : text) : bool :=
  let line := strip line in
  if is_empty line then false
  else if contains [0xf147] line || contains [0xf007] line then true
  else existsb (fun pattern => found IGNORECASE pattern line) community_indicators.

(** [_extract_question_number]: [None] when no pattern matches. *)
Definition question_number_patterns : list regex :=
  [ pat "Question\s*#(\d+)"
      (seqs [lit "Question"; Star SpaceC; Chr 35; Grp 1 (Plus DigitC)]);
    pat "Question\s+(\d+)"
      (seqs [lit "Question"; Plus SpaceC; Grp 1 (Plus DigitC)]);
    pat "(\d+)\.\s"
      (seqs [Grp 1 (Plus DigitC); Chr 46; SpaceC]) ].

Fixpoint first_group1 (fl : flags) (patterns : list regex) (s : text) : option text :=
  match patterns with
  | [] => None
  | pattern :: ps =>
      match re_search fl pattern s with
      | Some m => Some (group 1 m)
      | None => first_group1 fl ps s
      end
  end.

Definition _extract_question_number (txt : text) : option text :=
  first_group1 IGNORECASE question_number_patterns txt.

Definition gcp_services : list string :=
  ["Compute Engine"; "Cloud Storage"; "BigQuery"; "Cloud SQL"; "Kubernetes"; "GKE";
   "Cloud Functions"; "App Engine"; "Cloud Run"; "Dataflow"; "Pub/Sub"; "Firestore"]%string.

(** [_extract_topic] *)
Definition _extract_topic (txt : text) : text :=
  match re_search IGNORECASE
          (pat "Topic\s+(\d+)" (seqs [lit "Topic"; Plus SpaceC; Grp 1 (Plus DigitC)])) txt with
  | Some topic_match => str "Topic " ++ group 1 topic_match
  | None =>
      match List.find (fun service => contains (lower (str service)) (lower txt)) gcp_services with
      | Some service => str service
      | None => str "General"
      end
  end.

(** [_extract_question_description] *)

Definition header_footer : regex :=
  pat "ExamTopics|Profess.*onal|^\d+\s*$|Page \d+"
    (alts [lit "ExamTopics";
           seqs [lit "Profess"; Star Dot; lit "onal"];
           seqs [Bol; Plus DigitC; Star SpaceC; Eol];
           seqs [lit "Page "; Plus DigitC]]).

Definition question_marker : regex :=
  pat "Question\s*#\s*\d+"
    (seqs [lit "Question"; Star SpaceC; Chr 35; Star SpaceC; Plus DigitC]).

Definition option_start : regex :=
  pat "^[A-F][\.\)]\s"
    (seqs [Bol; In_ [IRng 65 70]; In_ [IChr 46; IChr 41]; SpaceC]).

Definition topic_header : regex :=
  pat "^Topic\s+\d+" (seqs [Bol; lit "Topic"; Plus SpaceC; Plus DigitC]).

Definition user_timestamp : regex :=
  pat "^\w+\s+\d+\s+(months?|weeks?|days?)\s+ago"
    (seqs [Bol; Plus WordC; Plus SpaceC; Plus DigitC; Plus SpaceC; Grp 1 units3;
           Plus SpaceC; lit "ago"]).

Definition case_study_indicators : list regex :=
  [ pat "\b\w+\s+is\s+a\s+(web-based\s+)?(company|organization|platform)"
      (seqs [Wordb; Plus WordC; Plus SpaceC; lit "is"; Plus SpaceC; lit "a"; Plus SpaceC;
             Opt (Grp 1 (seqs [lit "web-based"; Plus SpaceC]));
             Grp 2 (alts [lit "company"; lit "organization"; lit "platform"])]);
    pat "For\s+this\s+question,\s+refer\s+to\s+the\s+\w+\s+case\s+study"
      (seqs [lit "For"; Plus SpaceC; lit "this"; Plus SpaceC; lit "question,"; Plus SpaceC;
             lit "refer"; Plus SpaceC; lit "to"; Plus SpaceC; lit "the"; Plus SpaceC;
             Plus WordC; Plus SpaceC; lit "case"; Plus SpaceC; lit "study"]);
    pat "\w+\s+(provides|offers|operates|runs)"
      (seqs [Plus WordC; Plus SpaceC;
             Grp 1 (alts [lit "provides"; lit "offers"; lit "operates"; lit "runs"])]);
    pat "case\s+study" (seqs [lit "case"; Plus SpaceC; lit "study"]);
    pat "scenario" (lit "scenario");
    pat "company\s+background" (seqs [lit "company"; Plus SpaceC; lit "background"]) ].

Definition intro_noise : regex :=
  pat "Question Set|Topic \d+"
    (Alt (lit "Question Set") (seqs [lit "Topic "; Plus DigitC])).

(** A literal with one double-quote character (code 34) between [a] and [b]. *)
Definition lit_q (a b : string) : regex := lit_text (str a ++ [DQUOTE] ++ str b).

(** The [ocr_fixes] dictionary of the description, in insertion order. *)
Definition description_ocr_fixes : list (regex * text) :=
  [ (lit "ConKgure", str "Configure");
    (lit "ReconKgure", str "Reconfigure");
    (lit "traOc", str "traffic");
    (lit_q "Profess" "onal", str "Professional");
    (lit_q "solu" "on", str "solution");
    (lit_q "applica" "on", str "application");
    (lit_q "ques" "on", str "question");
    (lit_q "computa" "on", str "computation");
    (lit_q "authen" "cation", str "authentication");
    (lit_q "informa" "on", str "information");
    (lit_q "migra" "on", str "migration");
    (lit_q "opera" "ons", str "operations");
    (pat "Data\^ow" (lit "Data^ow"), str "Dataflow");
    (lit_q "Data" "ow", str "Dataflow");
    (pat "\^at\s+Kles" (seqs [lit "^at"; Plus SpaceC; lit "Kles"]), str "flat files");
    (lit "modiKed", str "modified");
    (lit "deKne", str "define");
    (lit "Knd", str "find");
    (lit "KreVox", str "Firefox");
    (pat "ll\s+months?\s+ago"
       (seqs [lit "ll"; Plus SpaceC; opt_s "month"; Plus SpaceC; lit "ago"]), []);
    (pat "^\s*\w+\s+\d+\s+(months?|weeks?|days?),?\s*\d*\s*(weeks?|days?)?\s+ago\s*"
       (seqs [Bol; Star SpaceC; Plus WordC; Plus SpaceC; Plus DigitC; Plus SpaceC;
              Grp 1 units3; Opt (Chr 44); Star SpaceC; Star DigitC; Star SpaceC;
              Opt (Grp 2 (Alt (opt_s "week") (opt_s "day"))); Plus SpaceC; lit "ago";
              Star SpaceC]), []) ].

Definition apply_fixes (fixes : list (regex * text)) (s : text) : text :=
  fold_left (fun acc fix_ => re_sub IGNORECASE (fst fix_) (snd fix_) acc) fixes s.

(** The [for line in lines] loop: returns [(question_lines, intro_lines)].
    [found] is [found_question_marker]; the [break] ends the recursion. *)
Fixpoint description_loop (lines : list text) (found_question_marker : bool)
    (question_lines intro_lines : list text) : list text * list text :=
  match lines with
  | [] => (question_lines, intro_lines)
  | raw :: lines' =>
      let line := strip raw in
      if is_empty line then
        description_loop lines' found_question_marker question_lines intro_lines
      else if _is_community_comment line then
        description_loop lines' found_question_marker question_lines intro_lines
      else if found IGNORECASE header_footer line then
        description_loop lines' found_question_marker question_lines intro_lines
      else if found IGNORECASE question_marker line then
        description_loop lines' true question_lines intro_lines
      else if found_question_marker then
        match re_match NOFLAGS option_start line with
        | Some _ => (question_lines, intro_lines)
        | None =>
            if _is_community_comment line then
              description_loop lines' found_question_marker question_lines intro_lines
            else
              description_loop lines' found_question_marker (question_lines ++ [line]) intro_lines
        end
      else
        if negb (found IGNORECASE topic_header line)
           && negb (found IGNORECASE user_timestamp line)
           && (20 <? length line)%nat
        then
          let is_case_study_content :=
            existsb (fun pattern => found IGNORECASE pattern line) case_study_indicators in
          if is_case_study_content || (30 <? length line)%nat
          then description_loop lines' found_question_marker question_lines (intro_lines ++ [line])
          else description_loop lines' found_question_marker question_lines intro_lines
        else description_loop lines' found_question_marker question_lines intro_lines
  end.

(** [l[-n:]] *)
Definition last_n {A} (n : nat) (l : list A) : list A := skipn (length l - n) l.

Definition _extract_question_description (txt : text) : text :=
  let processed_text := replace (str "\n") [NL] txt in
  let lines := split_on NL processed_text in
  let '(question_lines, intro_lines) := description_loop lines false [] [] in
  let meaningful_intro :=
    List.filter (fun intro_line =>
                   (20 <? length intro_line)%nat && negb (found NOFLAGS intro_noise intro_line))
                (last_n 5 intro_lines) in
  let all_content := meaningful_intro ++ question_lines in
  let description := strip (join [SP] all_content) in
  let description := re_sub NOFLAGS (Plus SpaceC) [SP] description in
  apply_fixes description_ocr_fixes description.

(** [_extract_answer_options] *)

Definition option_line : regex :=
  pat "^([A-F])[\.\)]\s*(.+)"
    (seqs [Bol; Grp 1 (In_ [IRng 65 70]); In_ [IChr 46; IChr 41]; Star SpaceC;
           Grp 2 (Plus Dot)]).

Definition vote_phrases : regex :=
  pat "(is the answer|upvoted|months ago|weeks ago|days ago|Selected Answer)"
    (Grp 1 (alts [lit "is the answer"; lit "upvoted"; lit "months ago"; lit "weeks ago";
                  lit "days ago"; lit "Selected Answer"])).

Definition path_chars : regex :=
  pat "[~/\\.]" (In_ [IChr 126; IChr 47; IChr 92; IChr 46]).

Definition option_ocr_fixes : list (regex * text) :=
  [ (lit "ConKgure", str "Configure");
    (lit "ReconKgure", str "Reconfigure");
    (lit "traOc", str "traffic");
    (lit_q "solu" "on", str "solution");
    (lit_q "applica" "on", str "application");
    (lit_q "ques" "on", str "question") ].

(** One iteration of [for line in lines]. *)
Definition options_step (options : gmap (list N) (list N)) (raw : text)
  : gmap (list N) (list N) :=
  let line := strip raw in
  if is_empty line then options
  else
    match re_match IGNORECASE option_line line with
    | None => options
    | Some m =>
        let option_letter := upper (group 1 m) in
        let option_text := strip (group 2 m) in
        if found IGNORECASE vote_phrases option_text then options
        else if (length option_text <? 2)%nat
                || ((length option_text <? 5)%nat && negb (found NOFLAGS path_chars option_text))
        then options
        else
          let option_text := apply_fixes option_ocr_fixes option_text in
          match options !! option_letter with
          | None => <[option_letter := option_text]> options
          | Some current =>
              if (length current <? length option_text)%nat
              then <[option_letter := option_text]> options
              else options
          end
    end.

Definition _extract_answer_options (txt : text) : gmap (list N) (list N) :=
  fold_left options_step (split_on NL txt) ∅.

(** [_parse_community_responses] *)

Record community_data := {
  cd_community_answer : text;
  cd_highly_voted : text;
  cd_most_recent : text;
  cd_latest_date : text
}.

Definition answer_letter : regex :=
  pat "[A-F](?=\s|$|\.)"
    (Seq (In_ [IRng 65 70]) (Ahead (alts [SpaceC; Eol; Chr 46]))).

Definition answer_letter_at_start : regex :=
  pat "^[A-F](?=\s|$|\.)"
    (seqs [Bol; In_ [IRng 65 70]; Ahead (alts [SpaceC; Eol; Chr 46])]).

Definition date_patterns : list regex :=
  [ pat "(\d{1,2}\s+(?:days?|weeks?|months?|years?)\s+ago)"
      (Grp 1 (seqs [Between 1 2 DigitC; Plus SpaceC;
                    alts [opt_s "day"; opt_s "week"; opt_s "month"; opt_s "year"];
                    Plus SpaceC; lit "ago"]));
    pat "(\d{1,2}/\d{1,2}/\d{2,4})"
      (Grp 1 (seqs [Between 1 2 DigitC; Chr 47; Between 1 2 DigitC; Chr 47;
                    Between 2 4 DigitC]));
    pat "(\d{4}-\d{2}-\d{2})"
      (Grp 1 (seqs [Between 4 4 DigitC; Chr 45; Between 2 2 DigitC; Chr 45;
                    Between 2 2 DigitC])) ].

(** The answer letter on the (lowered) line itself or, failing that, at
    the start of the following line when there is one. *)
Definition find_answer (line : text) (next : option text) : option text :=
  match re_search NOFLAGS answer_letter (upper line) with
  | Some answer_match => Some (group0 answer_match)
  | None =>
      match next with
      | Some next_raw =>
          let next_line := strip next_raw in
          match re_search NOFLAGS answer_letter_at_start (upper next_line) with
          | Some answer_match => Some (group0 answer_match)
          | None => None
          end
      | None => None
      end
  end.

Definition responses_step (cd : community_data) (raw : text) (next : option text)
  : community_data :=
  let line := lower (strip raw) in
  let cd :=
    if contains (str "selected answer") line || contains (str "correct answer") line then
      match find_answer line next with
      | Some a => {| cd_community_answer := a; cd_highly_voted := cd_highly_voted cd;
                     cd_most_recent := cd_most_recent cd; cd_latest_date := cd_latest_date cd |}
      | None => cd
      end
    else if contains (str "highly voted") line then
      match find_answer line next with
      | Some a => {| cd_community_answer := cd_community_answer cd; cd_highly_voted := a;
                     cd_most_recent := cd_most_recent cd; cd_latest_date := cd_latest_date cd |}
      | None => cd
      end
    else if contains (str "most recent") line then
      match find_answer line next with
      | Some a => {| cd_community_answer := cd_community_answer cd;
                     cd_highly_voted := cd_highly_voted cd;
                     cd_most_recent := a; cd_latest_date := cd_latest_date cd |}
      | None => cd
      end
    else cd in
  match first_group1 NOFLAGS date_patterns line with
  | Some d => {| cd_community_answer := cd_community_answer cd;
                 cd_highly_voted := cd_highly_voted cd;
                 cd_most_recent := cd_most_recent cd; cd_latest_date := d |}
  | None => cd
  end.

(** [for i, line in enumerate(lines)], with [lines[i + 1]] at hand. *)
Fixpoint responses_loop (cd : community_data) (lines : list text) : community_data :=
  match lines with
  | [] => cd
  | raw :: lines' => responses_loop (responses_step cd raw (head lines')) lines'
  end.

Definition _parse_community_responses (txt : text) : community_data :=
  responses_loop
    {| cd_community_answer := []; cd_highly_voted := []; cd_most_recent := [];
       cd_latest_date := [] |}
    (split_on NL txt).

(** [question.confidence_score = c] *)
Definition set_confidence (q : Question) (c : float) : Question :=
  {| unique_id := unique_id q;
     original_number := original_number q;
     description := description q;
     options := options q;
     community_answer := community_answer q;
     highly_voted_answer := highly_voted_answer q;
     most_recent_answer := most_recent_answer q;
     claude_answer := claude_answer q;
     claude_reasoning := claude_reasoning q;
     latest_date := latest_date q;
     topic := topic q;
     page_number := page_number q;
     confidence_score := c;
     source := source q;
     raw_content := raw_content q;
     source_pdf_path := source_pdf_path q;
     introductory_info := introductory_info q;
     has_claude_answer := has_claude_answer q |}.

(** [question.options = opts] *)
Definition set_options (q : Question) (opts : gmap (list N) (list N)) : Question :=
  {| unique_id := unique_id q;
     original_number := original_number q;
     description := description q;
     options := opts;
     community_answer := community_answer q;
     highly_voted_answer := highly_voted_answer q;
     most_recent_answer := most_recent_answer q;
     claude_answer := claude_answer q;
     claude_reasoning := claude_reasoning q;
     latest_date := latest_date q;
     topic := topic q;
     page_number := page_number q;
     confidence_score := confidence_score q;
     source := source q;
     raw_content := raw_content q;
     source_pdf_path := source_pdf_path q;
     introductory_info := introductory_info q;
     has_claude_answer := has_claude_answer q |}.

(** [_calculate_confidence]: binary64 arithmetic, as Python's [float]. *)
Definition _calculate_confidence (question : Question) : float :=
  let score := 0.0%float in
  let score :=
    if nonempty (description question) then
      if (50 <=? length (description question))%nat then (score + 0.4)%float
      else if (20 <=? length (description question))%nat then (score + 0.2)%float
      else score
    else score in
  let score :=
    if (4 <=? size (options question))%nat then (score + 0.3)%float
    else if (2 <=? size (options question))%nat then (score + 0.15)%float
    else score in
  let community_answers :=
    [community_answer question; highly_voted_answer question; most_recent_answer question] in
  let valid_answers :=
    List.filter (fun ans => nonempty ans && contains ans (str "ABCDEF")) community_answers in
  let score :=
    if (2 <=? length valid_answers)%nat then (score + 0.2)%float
    else if (1 <=? length valid_answers)%nat then (score + 0.1)%float
    else score in
  let score :=
    if nonempty (original_number question) && nonempty (topic question)
    then (score + 0.1)%float
    else if nonempty (original_number question) || nonempty (topic question)
    then (score + 0.05)%float
    else score in
  (* min(score, 1.0) *)
  if (1.0 <? score)%float then 1.0%float else score.

(** [_extract_community_comment].  Nothing in the body can raise here
    ([int] is applied to a run of digits), so the result is always
    [Some]; the [except] branch would give [None]. *)

Definition username_timestamp : regex :=
  pat "^(\s*)([A-Za-z][A-Za-z0-9_]{2,})\s+(\d+\s+(?:years?|months?|weeks?|days?),?\s*(?:\d+\s+(?:months?|weeks?|days?))?\s+ago)"
    (seqs [Bol; Grp 1 (Star SpaceC);
           Grp 2 (Seq (In_ letter_set) (AtLeast 2 (In_ ident_set)));
           Plus SpaceC;
           Grp 3 (seqs [Plus DigitC; Plus SpaceC; units4; Opt (Chr 44); Star SpaceC;
                        Opt (seqs [Plus DigitC; Plus SpaceC; units3]);
                        Plus SpaceC; lit "ago"])]).

Definition upvoted_times : regex :=
  pat "upvoted\s+(\d+)\s+times?"
    (seqs [lit "upvoted"; Plus SpaceC; Grp 1 (Plus DigitC); Plus SpaceC; opt_s "time"]).

Definition _extract_community_comment (line question_id : text) (page_number : Z)
    (source_file : text) : option CommunityComment :=
  let username_match := re_search NOFLAGS username_timestamp line in
  let vote_match := re_search IGNORECASE upvoted_times line in
  Some {|
    question_id := question_id;
    username := match username_match with Some m => group 2 m | None => [] end;
    content := strip line;
    timestamp := match username_match with Some m => group 3 m | None => [] end;
    vote_count := match vote_match with Some m => int_of_digits (group 1 m) | None => 0%Z end;
    vote_type :=
      if found IGNORECASE (lit "highly voted") line then str "Highly Voted"
      else if found IGNORECASE (lit "most recent") line then str "Most Recent"
      else if found IGNORECASE (lit "selected answer") line then str "Selected Answer"
      else [];
    cc_page_number := page_number;
    cc_source := source_file
  |}.

(** [_separate_community_comments]: one iteration on the pair
    [(clean_lines, comments)], then the whole loop. *)
Definition separate_step (question_id : text) (page_number : Z) (source_file : text)
    (acc : list text * list CommunityComment) (line : text)
  : list text * list CommunityComment :=
  let '(clean_lines, comments) := acc in
  if _is_community_comment line then
    match _extract_community_comment line question_id page_number source_file with
    | Some comment => (clean_lines, comments ++ [comment])
    | None => (clean_lines, comments)
    end
  else (clean_lines ++ [line], comments).

Definition _separate_community_comments (txt question_id : text) (page_number : Z)
    (source_file : text) : text * list CommunityComment :=
  let lines := split_on NL txt in
  let '(clean_lines, comments) :=
    fold_left (separate_step question_id page_number source_file) lines ([], []) in
  (join [NL] clean_lines, comments).

(** [parse_question_structure]: the result and the parser's state after
    the call. *)
Definition parse_question_structure (cfg : config) (st : parser_state)
    (text_block : text) (page_number : Z) (source_file source_pdf_path : text)
  : option Question * parser_state :=
  if is_empty text_block
     || (length (strip text_block) <? minimum_question_length cfg)%nat
  then (None, st)
  else
    let question_number := _extract_question_number text_block in
    let '(original_number, unique_id, counter) :=
      match question_number with
      | Some number =>
          if nonempty number
          then (number, str "Q" ++ str_of_Z page_number ++ str "_" ++ number,
                question_counter st)
          else ([], str "Q" ++ str_of_Z page_number ++ str "_"
                      ++ str_of_Z (question_counter st + 1),
                (question_counter st + 1)%Z)
      | None => ([], str "Q" ++ str_of_Z page_number ++ str "_"
                       ++ str_of_Z (question_counter st + 1),
                 (question_counter st + 1)%Z)
      end in
    let community := _parse_community_responses text_block in
    let '(question_text, extracted_comments) :=
      _separate_community_comments text_block unique_id page_number source_file in
    let question :=
      {| unique_id := unique_id;
         original_number := original_number;
         description := _extract_question_description text_block;
         options := _extract_answer_options text_block;
         community_answer := cd_community_answer community;
         highly_voted_answer := cd_highly_voted community;
         most_recent_answer := cd_most_recent community;
         claude_answer := [];
         claude_reasoning := [];
         latest_date := cd_latest_date community;
         topic := _extract_topic text_block;
         page_number := page_number;
         confidence_score := 0.0%float;
         source := source_file;
         raw_content := text_block;
         source_pdf_path := source_pdf_path;
         introductory_info := [];
         has_claude_answer := false |} in
    let question := set_confidence question (_calculate_confidence question) in
    (Some question,
     {| question_counter := counter;
        community_comments := community_comments st ++ extracted_comments |}).

(** [parse_questions_from_pages] *)
Definition pages_step (cfg : config) (acc : list Question * parser_state) (b : boundary)
  : list Question * parser_state :=
  let '(questions, st) := acc in
  let question_text :=
    match full_content b with
    | Some t => t
    | None => join [NL] (content_lines b)
    end in
  match parse_question_structure cfg st question_text (start_page b) (source_file b) [] with
  | (Some question, st') =>
      if (minimum_confidence_score cfg <=? confidence_score question)%float
      then (questions ++ [question], st')
      else (questions, st')
  | (None, st') => (questions, st')
  end.

Definition parse_questions_from_pages (cfg : config) (st : parser_state)
    (question_boundaries : list boundary) : list Question * parser_state :=
  fold_left (pages_step cfg) question_boundaries ([], st).

(** [_calculate_similarity].  The quotient of the two set sizes is kept
    as an exact rational; Python rounds it to the nearest [float]. *)
Definition _calculate_similarity (text1 text2 : text) : Q :=
  if is_empty text1 || is_empty text2 then 0%Q
  else
    let words1 : gset (list N) := list_to_set (split_ws (lower text1)) in
    let words2 : gset (list N) := list_to_set (split_ws (lower text2)) in
    if bool_decide (words1 = ∅) || bool_decide (words2 = ∅) then 0%Q
    else
      let intersection := size (words1 ∩ words2) in
      let union := size (words1 ∪ words2) in
      if (0 <? union)%nat then (Z.of_nat intersection # Pos.of_nat union)%Q else 0%Q.

(** [identify_duplicates]: pairs [i < j] whose similarity exceeds 0.8. *)
Fixpoint identify_duplicates (questions : list Question) : list (text * text * Q) :=
  match questions with
  | [] => []
  | q1 :: later =>
      List.flat_map
        (fun q2 =>
           let similarity := _calculate_similarity (description q1) (description q2) in
           if Qle_bool similarity (8 # 10) then [] else [(unique_id q1, unique_id q2, similarity)])
        later
      ++ identify_duplicates later
  end.

End QuestionParser.

(** ** [pdf_processor.py] *)

Module PDFProcessor.

Record PageContent := {
  pc_page_number : Z;
  pc_text : text;
  pc_source_file : text;
  raw_text : text
}.

(** [clean_pdf_artifacts]: the nine substitutions, in order, then
    [strip]. *)
Definition clean_pdf_artifacts (txt : text) : text :=
  if is_empty txt then []
  else
    let txt := re_sub NOFLAGS
      (pat "https://www\.examtopics\.com[^\s]*"
         (seqs [lit "https://www.examtopics.com"; Star (NotIn [ISpace])])) [] txt in
    let txt := re_sub MULTILINE
      (pat "^\d+\s*$" (seqs [Bol; Plus DigitC; Star SpaceC; Eol])) [] txt in
    let txt := re_sub IGNORECASE
      (pat "Page \d+" (seqs [lit "Page "; Plus DigitC])) [] txt in
    let txt := re_sub NOFLAGS
      (pat "\n\s*\n\s*\n+" (seqs [Chr NL; Star SpaceC; Chr NL; Star SpaceC; Plus (Chr NL)]))
      [NL; NL] txt in
    let txt := re_sub NOFLAGS (pat " {3,}" (AtLeast 3 (Chr SP))) [SP; SP] txt in
    let txt := re_sub_with NOFLAGS
      (pat "(\w+)-\s*\n\s*(\w+)"
         (seqs [Grp 1 (Plus WordC); Chr 45; Star SpaceC; Chr NL; Star SpaceC; Grp 2 (Plus WordC)]))
      (fun m => group 1 m ++ group 2 m) txt in
    let txt := re_sub NOFLAGS (pat "\r\n" (Seq (Chr 13) (Chr NL))) [NL] txt in
    let txt := re_sub NOFLAGS (pat "\r" (Chr 13)) [NL] txt in
    let txt := re_sub NOFLAGS
      (pat "\n[a-zA-Z]\n" (seqs [Chr NL; In_ [IRng 97 122; IRng 65 90]; Chr NL])) [NL] txt in
    strip txt.

Definition question_marker : regex :=
  pat "Question\s*#\s*\d+"
    (seqs [lit "Question"; Star SpaceC; Chr 35; Star SpaceC; Plus DigitC]).

Definition context_noise : regex :=
  pat "ExamTopics|Profess.*onal|Selected Answer:|^\d+\s*$|Page \d+"
    (alts [lit "ExamTopics";
           seqs [lit "Profess"; Star Dot; lit "onal"];
           lit "Selected Answer:";
           seqs [Bol; Plus DigitC; Star SpaceC; Eol];
           seqs [lit "Page "; Plus DigitC]]).

Definition user_timestamp : regex :=
  pat "^\w+\s+\d+\s+(months?|weeks?|days?)\s+ago"
    (seqs [Bol; Plus WordC; Plus SpaceC; Plus DigitC; Plus SpaceC;
           Grp 1 (alts [Seq (lit "month") (Opt (Chr 115)); Seq (lit "week") (Opt (Chr 115));
                        Seq (lit "day") (Opt (Chr 115))]);
           Plus SpaceC; lit "ago"]).

Definition is_marker (line : text) : bool := found IGNORECASE question_marker line.

(** The look-back condition on one stripped context line. *)
Definition keep_context (ctx_line : text) : bool :=
  nonempty ctx_line
  && (15 <? length ctx_line)%nat
  && negb (found IGNORECASE context_noise ctx_line)
  && negb (found IGNORECASE user_timestamp ctx_line).

(** [text_lines[max(0, i - 20):i]], stripped and filtered. *)
Definition look_back (text_lines : list text) (i : nat) : list text :=
  List.filter keep_context (List.map strip (skipn (i - 20) (firstn i text_lines))).

(** The look-ahead loop over the lines that follow, up to its [break]. *)
Fixpoint collect_following (following : list text) : list text :=
  match following with
  | [] => []
  | raw :: following' =>
      let next_line := strip raw in
      if nonempty next_line then
        if is_marker next_line then []
        else next_line :: collect_following following'
      else collect_following following'
  end.

(** [text_lines[i + 1:min(len(text_lines), i + 50)]] *)
Definition look_ahead (text_lines : list text) (i : nat) : list text :=
  collect_following (firstn 49 (skipn (S i) text_lines)).

(** The loop over the lines of one page: [todo] are the lines from
    index [i] on; the state is [(current_question, questions)]. *)
Fixpoint lines_loop (page : PageContent) (text_lines : list text) (i : nat)
    (todo : list text) (acc : option boundary * list boundary)
  : option boundary * list boundary :=
  match todo with
  | [] => acc
  | line :: todo' =>
      let line_stripped := strip line in
      if is_marker line_stripped then
        let questions :=
          match fst acc with
          | Some current_question => snd acc ++ [current_question]
          | None => snd acc
          end in
        let context_lines :=
          look_back text_lines i ++ [line_stripped] ++ look_ahead text_lines i in
        let current_question :=
          {| start_page := pc_page_number page;
             start_line := i;
             question_header := line_stripped;
             content_lines := context_lines;
             source_file := pc_source_file page;
             full_content := Some (join [NL] context_lines) |} in
        lines_loop page text_lines (S i) todo' (Some current_question, questions)
      else lines_loop page text_lines (S i) todo' acc
  end.

Definition page_step (acc : option boundary * list boundary) (page : PageContent)
  : option boundary * list boundary :=
  let text_lines := split_on NL (pc_text page) in
  lines_loop page text_lines 0 text_lines acc.

(** [identify_question_boundaries] *)
Definition identify_question_boundaries (pages : list PageContent) : list boundary :=
  let '(current_question, questions) := fold_left page_step pages (None, []) in
  match current_question with
  | Some q => questions ++ [q]
  | None => questions
  end.

End PDFProcessor.

(** ** [robust_question_parser.py] *)

Module RobustQuestionParser.

(** [_clean_unicode_artifacts] *)
Definition _clean_unicode_artifacts (txt : text) : text :=
  if is_empty txt then txt
  else
    let txt := replace [0xf0c9] [] (replace [0xf007] [] (replace [0xf147] [] txt)) in
    let txt := replace [0x2591] [] (replace [0x2590] [] (replace [0x2588] [] txt)) in
    let txt := re_sub NOFLAGS (pat "[U+F000-U+F8FF]" (In_ [IRng 0xf000 0xf8ff])) [] txt in
    let txt := re_sub NOFLAGS (pat "\s+" (Plus SpaceC)) [SP] txt in
    strip txt.

(** [CleanQuestion] *)
Record CleanQuestion := {
  id : text;
  number : text;
  description : text;
  options : gmap (list N) (list N);
  case_study_info : text;
  page_number : Z;
  source_file : text;
  confidence_score : float;
  community_answer : text;
  highly_voted_answer : text;
  most_recent_answer : text;
  all_community_comments : text;
  raw_pdf_text : text;
  raw_extracted_text : text
}.

(** [setup_patterns]: [self.question_start_patterns] and
    [self.answer_option_patterns]. *)
Definition question_start_patterns : list regex :=
  [ pat "Question\s*#(\d+)\s+Topic\s+\d+"
      (seqs [lit "Question"; Star SpaceC; Chr 35; Grp 1 (Plus DigitC); Plus SpaceC;
             lit "Topic"; Plus SpaceC; Plus DigitC]);
    pat "Question\s*#(\d+)"
      (seqs [lit "Question"; Star SpaceC; Chr 35; Grp 1 (Plus DigitC)]) ].

(** The look-ahead that ends an option or a description. *)
Definition next_option_or_end : regex :=
  pat "(?=\n[A-F]\.|$)"
    (Ahead (alts [seqs [Chr NL; In_ [IRng 65 70]; Chr 46]; Eol])).

Definition option_end : regex :=
  pat "(?=\n[A-F]\.|$|\uf147)"
    (Ahead (alts [seqs [Chr NL; In_ [IRng 65 70]; Chr 46]; Eol; Chr 0xf147])).

Definition answer_option_patterns : list regex :=
  [ pat "([A-F])\.\s*([^\n\uf147]+?)(?=\n[A-F]\.|$|\uf147)"
      (seqs [Grp 1 (In_ [IRng 65 70]); Chr 46; Star SpaceC;
             Grp 2 (Rep (NotIn [IChr NL; IChr 0xf147]) 1 None false); option_end]);
    pat "([A-F])\.\s*(.+?)(?=\n[A-F]\.|$|\uf147)"
      (seqs [Grp 1 (In_ [IRng 65 70]); Chr 46; Star SpaceC;
             Grp 2 (Rep Dot 1 None false); option_end]);
    pat "([A-F])\.\s*([^.\n]{5,200}?)(?=\n[A-F]\.|$|\uf147)"
      (seqs [Grp 1 (In_ [IRng 65 70]); Chr 46; Star SpaceC;
             Grp 2 (Rep (NotIn [IChr 46; IChr NL]) 5 (Some 200%nat) false); option_end]) ].

(** Assignments to the community fields of a question. *)
Definition set_community_answer (q : CleanQuestion) (a : text) : CleanQuestion :=
  {| id := id q; number := number q; description := description q; options := options q;
     case_study_info := case_study_info q; page_number := page_number q;
     source_file := source_file q; confidence_score := confidence_score q;
     community_answer := a; highly_voted_answer := highly_voted_answer q;
     most_recent_answer := most_recent_answer q;
     all_community_comments := all_community_comments q;
     raw_pdf_text := raw_pdf_text q; raw_extracted_text := raw_extracted_text q |}.

Definition set_highly_voted_answer (q : CleanQuestion) (a : text) : CleanQuestion :=
  {| id := id q; number := number q; description := description q; options := options q;
     case_study_info := case_study_info q; page_number := page_number q;
     source_file := source_file q; confidence_score := confidence_score q;
     community_answer := community_answer q; highly_voted_answer := a;
     most_recent_answer := most_recent_answer q;
     all_community_comments := all_community_comments q;
     raw_pdf_text := raw_pdf_text q; raw_extracted_text := raw_extracted_text q |}.

Definition set_most_recent_answer (q : CleanQuestion) (a : text) : CleanQuestion :=
  {| id := id q; number := number q; description := description q; options := options q;
     case_study_info := case_study_info q; page_number := page_number q;
     source_file := source_file q; confidence_score := confidence_score q;
     community_answer := community_answer q; highly_voted_answer := highly_voted_answer q;
     most_recent_answer := a;
     all_community_comments := all_community_comments q;
     raw_pdf_text := raw_pdf_text q; raw_extracted_text := raw_extracted_text q |}.

Definition set_all_community_comments (q : CleanQuestion) (c : text) : CleanQuestion :=
  {| id := id q; number := number q; description := description q; options := options q;
     case_study_info := case_study_info q; page_number := page_number q;
     source_file := source_file q; confidence_score := confidence_score q;
     community_answer := community_answer q; highly_voted_answer := highly_voted_answer q;
     most_recent_answer := most_recent_answer q;
     all_community_comments := c;
     raw_pdf_text := raw_pdf_text q; raw_extracted_text := raw_extracted_text q |}.

(** [_extract_community_answers_from_text]: the question after the
    call. *)
Definition _extract_community_answers_from_text (question : CleanQuestion)
    (community_text : text) : CleanQuestion :=
  let question := set_all_community_comments question (strip community_text) in
  let question :=
    match re_search IGNORECASE
            (pat "Highly\s+Voted[^A-F]*([A-F])"
               (seqs [lit "Highly"; Plus SpaceC; lit "Voted"; Star (NotIn [IRng 65 70]);
                      Grp 1 (In_ [IRng 65 70])])) community_text with
    | Some highly_voted_match => set_highly_voted_answer question (group 1 highly_voted_match)
    | None => question
    end in
  let question :=
    match re_search IGNORECASE
            (pat "Most\s+Recent[^A-F]*([A-F])"
               (seqs [lit "Most"; Plus SpaceC; lit "Recent"; Star (NotIn [IRng 65 70]);
                      Grp 1 (In_ [IRng 65 70])])) community_text with
    | Some most_recent_match => set_most_recent_answer question (group 1 most_recent_match)
    | None => question
    end in
  match re_search IGNORECASE
          (pat "Selected\s+Answer:\s*([A-F])"
             (seqs [lit "Selected"; Plus SpaceC; lit "Answer:"; Star SpaceC;
                    Grp 1 (In_ [IRng 65 70])])) community_text with
  | Some answer_match => set_community_answer question (group 1 answer_match)
  | None =>
      if nonempty (highly_voted_answer question)
      then set_community_answer question (highly_voted_answer question)
      else if nonempty (most_recent_answer question)
      then set_community_answer question (most_recent_answer question)
      else question
  end.

(** The option loop of [_parse_single_question]: every match of every
    pattern, in order, later matches overwriting earlier ones. *)
Definition record_option (options : gmap (list N) (list N)) (m : rmatch_result)
  : gmap (list N) (list N) :=
  let letter := group 1 m in
  let text_ := group 2 m in
  if nonempty letter && nonempty text_ then <[letter := strip text_]> options else options.

Definition options_of (question_text : text) : gmap (list N) (list N) :=
  fold_left
    (fun options pattern =>
       fold_left record_option (finditer (flag_or MULTILINE DOTALL) pattern question_text) options)
    answer_option_patterns ∅.

(** The description pattern of [_parse_single_question]. *)
Definition description_pattern : regex :=
  pat "Question\s*#?\d+[^\n]*\n(.*?)(?=\n[A-F]\.|$)"
    (seqs [lit "Question"; Star SpaceC; Opt (Chr 35); Plus DigitC;
           Star (NotIn [IChr NL]); Chr NL; Grp 1 (Rep Dot 0 None false);
           next_option_or_end]).

(** [_parse_single_question] *)
Definition _parse_single_question (question_text question_number : text) (page_num : Z)
    (source_file : text) : option CleanQuestion :=
  match re_search DOTALL description_pattern question_text with
  | None => None
  | Some desc_match =>
      let description := strip (group 1 desc_match) in
      let options := options_of question_text in
      if (size options <? 2)%nat || (length (strip description) <? 10)%nat then None
      else
        let question :=
          {| id := str "Q" ++ str_of_Z page_num ++ str "_" ++ question_number;
             number := question_number;
             description := description;
             options := options;
             case_study_info := [];
             page_number := page_num;
             source_file := source_file;
             confidence_score := 0.8%float;
             community_answer := [];
             highly_voted_answer := [];
             most_recent_answer := [];
             all_community_comments := [];
             raw_pdf_text := firstn 1000 question_text;
             raw_extracted_text := firstn 1000 question_text |} in
        let community_section := skipn (m_end desc_match) question_text in
        Some (_extract_community_answers_from_text question community_section)
  end.

(** The loop over the matches of one start pattern: each question text
    runs from its match to the next match, the last one to the end of
    the text. *)
Fixpoint questions_of_matches (txt : text) (matches : list rmatch_result) (page_num : Z)
    (source_file : text) : list CleanQuestion :=
  match matches with
  | [] => []
  | match_ :: later =>
      let question_start := m_start match_ in
      let question_text :=
        match later with
        | next :: _ => skipn question_start (firstn (m_start next) txt)
        | [] => skipn question_start txt
        end in
      match _parse_single_question question_text (group 1 match_) page_num source_file with
      | Some question => question :: questions_of_matches txt later page_num source_file
      | None => questions_of_matches txt later page_num source_file
      end
  end.

(** [_extract_questions_from_page_text] *)
Definition _extract_questions_from_page_text (txt : text) (page_num : Z) (source_file : text)
  : list CleanQuestion :=
  let txt := _clean_unicode_artifacts txt in
  List.flat_map
    (fun pattern =>
       questions_of_matches txt (finditer IGNORECASE pattern txt) page_num source_file)
    question_start_patterns.

(** [_extract_introductory_info] *)
Definition question_or_end : regex :=
  pat "(?=Question|$)" (Ahead (Alt (lit "Question") Eol)).

Definition numbered_question_or_end : regex :=
  pat "(?=Question\s*#?\d+|$)"
    (Ahead (Alt (seqs [lit "Question"; Star SpaceC; Opt (Chr 35); Plus DigitC]) Eol)).

Definition intro_patterns : list regex :=
  [ pat "Introductory Info\s*([\s\S]*?)(?=Question\s*#?\d+|$)"
      (seqs [lit "Introductory Info"; Star SpaceC; Grp 1 (Rep AnyChar 0 None false);
             numbered_question_or_end]);
    pat "Company Overview\s*-?\s*([\s\S]*?)(?=Solution Concept|Question|$)"
      (seqs [lit "Company Overview"; Star SpaceC; Opt (Chr 45); Star SpaceC;
             Grp 1 (Rep AnyChar 0 None false);
             Ahead (alts [lit "Solution Concept"; lit "Question"; Eol])]);
    pat "(For this question, refer to the Dress4Win case study[\s\S]*?)(?=Question\s*#?\d+|$)"
      (seqs [Grp 1 (Seq (lit "For this question, refer to the Dress4Win case study")
                        (Rep AnyChar 0 None false));
             numbered_question_or_end]);
    pat "(Dress4Win[\s\S]*?)(?=Question|$)"
      (seqs [Grp 1 (Seq (lit "Dress4Win") (Rep AnyChar 0 None false)); question_or_end]);
    pat "(TerramEarth[\s\S]*?)(?=Question|$)"
      (seqs [Grp 1 (Seq (lit "TerramEarth") (Rep AnyChar 0 None false)); question_or_end]);
    pat "(Mountkirk Games[\s\S]*?)(?=Question|$)"
      (seqs [Grp 1 (Seq (lit "Mountkirk Games") (Rep AnyChar 0 None false)); question_or_end]);
    pat "([\s\S]*?Redis.*?server cluster[\s\S]*?capital expenditure[\s\S]*?)(?=Question|$)"
      (seqs [Grp 1 (seqs [Rep AnyChar 0 None false; lit "Redis"; Rep Dot 0 None false;
                          lit "server cluster"; Rep AnyChar 0 None false;
                          lit "capital expenditure"; Rep AnyChar 0 None false]);
             question_or_end]) ].

(** The [for pattern in intro_patterns] loop up to its [break]. *)
Fixpoint first_intro (patterns : list regex) (txt : text) : text :=
  match patterns with
  | [] => []
  | pattern :: patterns' =>
      match re_search (flag_or IGNORECASE DOTALL) pattern txt with
      | Some m => strip (group 1 m)
      | None => first_intro patterns' txt
      end
  end.

Definition _extract_introductory_info (txt : text) : text :=
  let intro_info := first_intro intro_patterns txt in
  let intro_info :=
    if nonempty intro_info then
      let intro_info := re_sub NOFLAGS (pat "\s+" (Plus SpaceC)) [SP] intro_info in
      let intro_info :=
        re_sub NOFLAGS (pat "Page\s+\d+" (seqs [lit "Page"; Plus SpaceC; Plus DigitC])) []
          intro_info in
      let intro_info :=
        re_sub NOFLAGS (pat "ExamTopics[^\n]*" (Seq (lit "ExamTopics") (Star (NotIn [IChr NL]))))
          [] intro_info in
      strip intro_info
    else intro_info in
  firstn 2000 intro_info.

(** [_extract_questions_from_full_pdf_text] *)

Definition case_study_reference : regex :=
  pat "For this question, refer to the (.+?) case study\.?\s*(.*)"
    (seqs [lit "For this question, refer to the "; Grp 1 (Rep Dot 1 None false);
           lit " case study"; Opt (Chr 46); Star SpaceC; Grp 2 (Star Dot)]).

Definition community_start : regex :=
  pat "(upvoted|\bHighly\s+Voted|\bMost\s+Recent|\b[A-Za-z][A-Za-z0-9_]{2,}\s+\d+\s+(years?|months?|weeks?|days?)\s+ago)"
    (Grp 1 (alts [lit "upvoted";
                  seqs [Wordb; lit "Highly"; Plus SpaceC; lit "Voted"];
                  seqs [Wordb; lit "Most"; Plus SpaceC; lit "Recent"];
                  seqs [Wordb; In_ [IRng 65 90; IRng 97 122];
                        AtLeast 2 (In_ [IRng 65 90; IRng 97 122; IRng 48 57; IChr 95]);
                        Plus SpaceC; Plus DigitC; Plus SpaceC;
                        Grp 2 (alts [Seq (lit "year") (Opt (Chr 115));
                                     Seq (lit "month") (Opt (Chr 115));
                                     Seq (lit "week") (Opt (Chr 115));
                                     Seq (lit "day") (Opt (Chr 115))]);
                        Plus SpaceC; lit "ago"]])).

Definition option_letter_split : regex :=
  pat "([A-F]\.)\s*" (Seq (Grp 1 (Seq (In_ [IRng 65 70]) (Chr 46))) (Star SpaceC)).

Definition community_tail : regex :=
  pat "(upvoted|\bHighly\s+Voted|\bMost\s+Recent).*$"
    (seqs [Grp 1 (alts [lit "upvoted";
                        seqs [Wordb; lit "Highly"; Plus SpaceC; lit "Voted"];
                        seqs [Wordb; lit "Most"; Plus SpaceC; lit "Recent"]]);
           Star Dot; Eol]).

(** The loop over the pairs (letter, content) of the split parts. *)
Fixpoint option_pairs (parts : list text) : list (text * text) :=
  match parts with
  | letter_part :: content_part :: parts' =>
      let letter := replace [46] [] letter_part in
      let content := strip content_part in
      let content := strip (re_sub (flag_or IGNORECASE DOTALL) community_tail [] content) in
      if nonempty content then (letter, content) :: option_pairs parts'
      else option_pairs parts'
  | _ => []
  end.

Definition options_of_pairs (option_matches : list (text * text)) : gmap (list N) (list N) :=
  fold_left
    (fun options pair =>
       <[fst pair := re_sub NOFLAGS (pat "\s+" (Plus SpaceC)) [SP] (strip (snd pair))]> options)
    option_matches ∅.

Definition _extract_questions_from_full_pdf_text (full_text source_file : text)
  : list CleanQuestion :=
  let full_text := _clean_unicode_artifacts full_text in
  let intro_info := _extract_introductory_info full_text in
  match re_search (flag_or DOTALL IGNORECASE) case_study_reference full_text with
  | None => []
  | Some case_study_match =>
      let case_study_name := strip (group 1 case_study_match) in
      let question_section := strip (group 2 case_study_match) in
      let '(options_section, community_section) :=
        match re_search IGNORECASE community_start question_section with
        | Some community_start_match =>
            (strip (firstn (m_start community_start_match) question_section),
             strip (skipn (m_start community_start_match) question_section))
        | None => (question_section, [])
        end in
      let parts := tail (re_split NOFLAGS option_letter_split options_section) in
      let option_matches := option_pairs parts in
      if (2 <=? length option_matches)%nat then
        let description :=
          match re_search DOTALL
                  (pat "^(.*?)(?=A\.)"
                     (seqs [Bol; Grp 1 (Rep Dot 0 None false); Ahead (lit "A.")]))
                  question_section with
          | Some desc_match => strip (group 1 desc_match)
          | None => strip (before_first (str "A.") question_section)
          end in
        let options := options_of_pairs option_matches in
        if (10 <? length description)%nat && (2 <=? size options)%nat then
          let question :=
            {| id := str "case_study_" ++ replace [SP] (str "_") (lower case_study_name)
                     ++ str "_1";
               number := str "1";
               description := str "For this question, refer to the " ++ case_study_name
                              ++ str " case study. " ++ description;
               options := options;
               case_study_info := intro_info;
               page_number := 1;
               source_file := source_file;
               confidence_score := 0.85%float;
               community_answer := [];
               highly_voted_answer := [];
               most_recent_answer := [];
               all_community_comments := [];
               raw_pdf_text := firstn 1000 full_text;
               raw_extracted_text := firstn 1000 options_section |} in
          [_extract_community_answers_from_text question community_section]
        else []
      else []
  end.

(** [extract_questions_from_pdf] on the texts [page.extract_text]
    gives for the pages of the file, in order ([raw_texts]; a page
    without text gives the empty text), and the base name of the
    file.  The state of the page loop is [(questions, all_pages_text)]. *)
Definition page_marker (page_num : Z) : text :=
  [NL] ++ str "--- PAGE " ++ str_of_Z page_num ++ str " ---" ++ [NL].

Fixpoint pages_loop (raw_texts : list text) (page_num : Z) (source_file : text)
    (acc : list CleanQuestion * text) : list CleanQuestion * text :=
  match raw_texts with
  | [] => acc
  | raw_text :: raw_texts' =>
      if is_empty raw_text then pages_loop raw_texts' (page_num + 1) source_file acc
      else
        let all_pages_text := snd acc ++ page_marker page_num ++ raw_text in
        let page_questions := _extract_questions_from_page_text raw_text page_num source_file in
        pages_loop raw_texts' (page_num + 1) source_file
          (fst acc ++ page_questions, all_pages_text)
  end.

Definition extract_questions_from_pdf (raw_texts : list text) (source_file : text)
  : list CleanQuestion :=
  let '(questions, all_pages_text) := pages_loop raw_texts 1 source_file ([], []) in
  if (length questions =? 0)%nat && nonempty all_pages_text
  then questions ++ _extract_questions_from_full_pdf_text all_pages_text source_file
  else questions.

End RobustQuestionParser.

(** ** Scenarios used by the properties *)

Import QuestionParser.

(** The end-to-end scenario: ten lines joined by newlines. *)
Definition scenario_text : text :=
  join [NL]
    [str "Question #7 Topic 2"; str "What service provides object storage?";
     str "A. Compute Engine"; str "B. Cloud Storage"; str "C. BigQuery"; str "D. Pub/Sub";
     str "Selected Answer: B"; str "Highly Voted"; str "bob99 1 year ago";
     str "upvoted 3 times"].

Definition scenario_options : gmap (list N) (list N) :=
  <[str "A" := str "Compute Engine"]>
    (<[str "B" := str "Cloud Storage"]>
       (<[str "C" := str "BigQuery"]> (<[str "D" := str "Pub/Sub"]> ∅))).

(** [sample_question] of [tests/test_basic_functionality.py]
    ([test_question_parsing_basic]), whose assertion expects the
    community answer C. *)
Definition test_sample_question : text :=
  join [NL]
    [ [];
      str "        Question #1 Topic 1";
      str "        ";
      str "        What is the best practice for deploying applications on Google Cloud Platform?";
      str "        ";
      str "        A. Use Compute Engine instances";
      str "        B. Use App Engine for all applications";
      str "        C. Use Cloud Run for containerized apps";
      str "        D. Use GKE for everything";
      str "        ";
      str "        Selected Answer: C";
      str "        Highly Voted: C";
      str "        Most Recent: C";
      str "        " ].

(** One page holding two consecutive questions. *)
Definition two_question_page : PDFProcessor.PageContent :=
  let body :=
    join [NL]
      [str "Question #1 Topic 1"; str "Which service stores objects?";
       str "A. Compute Engine"; str "B. Cloud Storage"; str "C. BigQuery"; str "D. Pub/Sub";
       str "Question #2 Topic 1"; str "Which service runs containers?";
       str "A. Cloud Run"; str "B. Cloud SQL"; str "C. Dataflow"; str "D. Firestore"] in
  {| PDFProcessor.pc_page_number := 1;
     PDFProcessor.pc_text := body;
     PDFProcessor.pc_source_file := str "Questions_1.pdf";
     PDFProcessor.raw_text := body |}.

(** [Question()]: the data class with its default field values. *)
Definition default_question : Question :=
  {| unique_id := []; original_number := []; description := []; options := ∅;
     community_answer := []; highly_voted_answer := []; most_recent_answer := [];
     claude_answer := []; claude_reasoning := []; latest_date := []; topic := [];
     page_number := 0; confidence_score := 0.0; source := []; raw_content := [];
     source_pdf_path := []; introductory_info := []; has_claude_answer := false |}.

(** [question.description = d] *)
Definition set_description (q : Question) (d : text) : Question :=
  {| unique_id := unique_id q; original_number := original_number q; description := d;
     options := options q; community_answer := community_answer q;
     highly_voted_answer := highly_voted_answer q;
     most_recent_answer := most_recent_answer q; claude_answer := claude_answer q;
     claude_reasoning := claude_reasoning q; latest_date := latest_date q;
     topic := topic q; page_number := page_number q;
     confidence_score := confidence_score q; source := source q;
     raw_content := raw_content q; source_pdf_path := source_pdf_path q;
     introductory_info := introductory_info q;
     has_claude_answer := has_claude_answer q |}.

(** A question with a 50-character description, three options, no
    community answers, no number and no topic. *)
Definition three_option_question : Question :=
  set_options
    (set_description default_question
       (str "Which of these services provides an object store ?"))
    (<[str "A" := str "Compute Engine"]>
       (<[str "B" := str "Cloud Storage"]> (<[str "C" := str "BigQuery"]> ∅))).

(** The last step of [_calculate_confidence] before [min]: the bonus
    for the original number and the topic. *)
Definition with_structure_bonus (q : Question) (score : float) : float :=
  if nonempty (original_number q) && nonempty (topic q) then (score + 0.1)%float
  else if nonempty (original_number q) || nonempty (topic q) then (score + 0.05)%float
  else score.

(** The similarity [identify_duplicates] computes for two questions. *)
Definition similarity (q1 q2 : Question) : Q :=
  _calculate_similarity (description q1) (description q2).

(** Does [d.lower().split()] hold at least one word? *)
Definition has_words (d : text) : bool :=
  match split_ws (lower d) with
  | [] => false
  | _ :: _ => true
  end.

(** A text that lies within one line. *)
Definition no_newline (s : text) : bool := List.forallb (fun c => negb (c =? NL)) s.

(** The synthetic five-question document: for k = 1..5 the marker
    line of question k followed by its four option lines
    [opt k 1 .. opt k 4], all on one page. *)
Definition marker_line (k : nat) : text :=
  str "Question #" ++ str_of_N (N.of_nat k) ++ str " Topic 1".

Definition own_options (opt : nat -> nat -> text) (k : nat) : list text :=
  List.map (opt k) [1; 2; 3; 4]%nat.

Definition synthetic_lines (opt : nat -> nat -> text) : list text :=
  List.flat_map (fun k => marker_line k :: own_options opt k) [1; 2; 3; 4; 5]%nat.

Definition synthetic_page (opt : nat -> nat -> text) : PDFProcessor.PageContent :=
  {| PDFProcessor.pc_page_number := 1;
     PDFProcessor.pc_text := join [NL] (synthetic_lines opt);
     PDFProcessor.pc_source_file := str "synthetic.pdf";
     PDFProcessor.raw_text := join [NL] (synthetic_lines opt) |}.

(** The lines of the synthetic document that precede the marker of
    question k, and what the look-back keeps of them. *)
Definition lines_before (opt : nat -> nat -> text) (k : nat) : list text :=
  firstn (5 * (k - 1)) (synthetic_lines opt).

Definition context_of (opt : nat -> nat -> text) (k : nat) : list text :=
  List.filter PDFProcessor.keep_context (List.map strip (lines_before opt k)).

(** Option lines of more than 15 characters, and of at most 15. *)
Definition option_letters : list text := [str "A"; str "B"; str "C"; str "D"].

Definition long_option (k j : nat) : text :=
  nth (j - 1) option_letters [] ++ str ". Option " ++ nth (j - 1) option_letters []
  ++ str " of question " ++ str_of_N (N.of_nat k).

Definition short_option_table : list (list text) :=
  [ [str "A. a1"; str "B. b1"; str "C. c1"; str "D. d1"];
    [str "A. a2"; str "B. b2"; str "C. c2"; str "D. d2"];
    [str "A. a3"; str "B. b3"; str "C. c3"; str "D. d3"];
    [str "A. a4"; str "B. b4"; str "C. c4"; str "D. d4"];
    [str "A. a5"; str "B. b5"; str "C. c5"; str "D. d5"] ].

Definition short_option (k j : nat) : text :=
  nth (j - 1) (nth (k - 1) short_option_table []) (str "A. a0").

(** The boundary opened by a marker at line [i] of a page, and the
    boundaries opened by the markers among the lines [todo] that start
    at index [i]. *)
Definition boundary_at (page : PDFProcessor.PageContent) (text_lines : list text)
    (i : nat) (line : text) : boundary :=
  let context_lines :=
    PDFProcessor.look_back text_lines i ++ [strip line]
    ++ PDFProcessor.look_ahead text_lines i in
  {| start_page := PDFProcessor.pc_page_number page;
     start_line := i;
     question_header := strip line;
     content_lines := context_lines;
     source_file := PDFProcessor.pc_source_file page;
     full_content := Some (join [NL] context_lines) |}.

Fixpoint boundaries_from (page : PDFProcessor.PageContent) (text_lines : list text)
    (i : nat) (todo : list text) : list boundary :=
  match todo with
  | [] => []
  | line :: todo' =>
      if PDFProcessor.is_marker (strip line)
      then boundary_at page text_lines i line :: boundaries_from page text_lines (S i) todo'
      else boundaries_from page text_lines (S i) todo'
  end.

(** The boundaries a loop state stands for once the open one is closed. *)
Definition finish (acc : option boundary * list boundary) : list boundary :=
  match fst acc with
  | Some current_question => snd acc ++ [current_question]
  | None => snd acc
  end.

(** The code points [_clean_unicode_artifacts] deletes: six named
    symbols and the private-use range U+F000..U+F8FF. *)
Definition removed_symbol (c : char) : bool :=
  (c =? 0xf147) || (c =? 0xf007) || (c =? 0xf0c9)
  || (c =? 0x2588) || (c =? 0x2590) || (c =? 0x2591)
  || between 0xf000 0xf8ff c.

(** Basic Latin letters and digits. *)
Definition is_alnum_ascii (c : char) : bool :=
  is_upper_ascii c || is_lower_ascii c || is_digit c.

(** Every run of whitespace replaced by one space; [in_run] tells
    whether the previous character was whitespace. *)
Fixpoint collapse_aux (in_run : bool) (s : text) : text :=
  match s with
  | [] => []
  | c :: s' =>
      if is_space c
      then if in_run then collapse_aux true s' else SP :: collapse_aux true s'
      else c :: collapse_aux false s'
  end.
Definition collapse (s : text) : text := collapse_aux false s.

(** The only whitespace is single spaces, none next to another (nor
    first, when [prev_space]). *)
Fixpoint single_spaced (prev_space : bool) (s : text) : bool :=
  match s with
  | [] => true
  | c :: s' =>
      if is_space c then (c =? SP) && negb prev_space && single_spaced true s'
      else single_spaced false s'
  end.

(** The first character satisfying [p], with what precedes and what
    follows it. *)
Fixpoint break_at (p : char -> bool) (s : text) : option (text * char * text) :=
  match s with
  | [] => None
  | c :: s' =>
      if p c then Some ([], c, s')
      else match break_at p s' with
           | Some (pre, d, tl) => Some (c :: pre, d, tl)
           | None => None
           end
  end.

(** The longest prefix of characters satisfying [p], and what follows. *)
Fixpoint take_while (p : char -> bool) (s : text) : text :=
  match s with
  | c :: s' => if p c then c :: take_while p s' else []
  | [] => []
  end.

Fixpoint drop_while (p : char -> bool) (s : text) : text :=
  match s with
  | c :: s' => if p c then drop_while p s' else s
  | [] => []
  end.

(** The characters the option filter accepts as path-like: one of
    tilde, slash, backslash, full stop. *)
Definition path_like (c : char) : bool :=
  (c =? 126) || (c =? 47) || (c =? 92) || (c =? 46).

(** The numbers of the capturing groups of a pattern (those inside a
    look-ahead do not outlive it here; the sources have none there). *)
Fixpoint groups (r : regex) : list nat :=
  match r with
  | Seq r1 r2 => groups r1 ++ groups r2
  | Alt r1 r2 => groups r1 ++ groups r2
  | Rep r' _ _ _ => groups r'
  | Grp n r' => n :: groups r'
  | _ => []
  end.

(** [st'] lies ahead of [st] in the same subject: some text was
    consumed in between, and the groups captured meanwhile are among
    [G] and hold characters of the text that was left at [st]. *)
Definition reach (G : list nat) (st st' : mstate) : Prop :=
  (exists pre, rest st = pre ++ rest st' /\ before st' = rev pre ++ before st)
  /\ (exists new, caps st' = new ++ caps st
                  /\ Forall (fun e => In (fst e) G /\ incl (snd e) (rest st)) new).

(** The text [parse_questions_from_pages] reads from a boundary:
    [boundary.get('full_content', '\n'.join(boundary['content_lines']))]. *)
Definition block_of (b : boundary) : text :=
  match full_content b with
  | Some t => t
  | None => join [NL] (content_lines b)
  end.

(** Where a question came from: page, source file and text block. *)
Definition origin_of_question (q : Question) : Z * text * text :=
  (page_number q, source q, raw_content q).

Definition origin_of_boundary (b : boundary) : Z * text * text :=
  (start_page b, source_file b, block_of b).

(** The set of lower-cased words of a text, as [_calculate_similarity]
    builds it. *)
Definition word_set (t : text) : gset (list N) := list_to_set (split_ws (lower t)).

(** The six option letters. *)
Definition answer_letters : list text :=
  [str "A"; str "B"; str "C"; str "D"; str "E"; str "F"].

(** An answer field: empty, or one of the six letters. *)
Definition letter_or_empty (answer : text) : Prop := answer = [] \/ In answer answer_letters.

(** The lines of a page, and the boundaries its markers open. *)
Definition page_lines (page : PDFProcessor.PageContent) : list text :=
  split_on NL (PDFProcessor.pc_text page).

Definition page_boundaries (page : PDFProcessor.PageContent) : list boundary :=
  boundaries_from page (page_lines page) 0 (page_lines page).

(** The stripped lines of a document that are question markers. *)
Definition marker_lines (pages : list PDFProcessor.PageContent) : list text :=
  List.filter PDFProcessor.is_marker (List.map strip (List.flat_map page_lines pages)).

(** A document of two pages with one question marker on each. *)
Definition two_page_document : list PDFProcessor.PageContent :=
  [ {| PDFProcessor.pc_page_number := 1;
       PDFProcessor.pc_text :=
         join [NL] [str "Professional Cloud Architect practice"; str "Question #1 Topic 1";
                    str "Which service stores objects?"; str "A. Compute Engine";
                    str "B. Cloud Storage"];
       PDFProcessor.pc_source_file := str "Questions_1.pdf";
       PDFProcessor.raw_text := [] |};
    {| PDFProcessor.pc_page_number := 2;
       PDFProcessor.pc_text :=
         join [NL] [str "C. BigQuery"; str "Question #2 Topic 1";
                    str "Which service runs containers?"; str "A. Cloud Run";
                    str "B. Cloud SQL"];
       PDFProcessor.pc_source_file := str "Questions_1.pdf";
       PDFProcessor.raw_text := [] |} ].

(** No carriage return in a text. *)
Definition no_carriage_return (s : text) : bool := List.forallb (fun c => negb (c =? 13)) s.

(** One character, a letter from A to F in either case. *)
Definition letter_any_case (answer : text) : Prop :=
  exists d, answer = [d] /\ In d [65; 66; 67; 68; 69; 70; 97; 98; 99; 100; 101; 102].

(** A question text for [_parse_single_question]: header, description,
    three options and two community lines. *)
Definition sample_question_text : text :=
  join [NL]
    [str "Question #5 Topic 1"; str "Which storage class is cheapest?";
     str "A. Standard storage"; str "B. Coldline storage"; str "C. Archive storage";
     str "bob Highly Voted 1 year ago"; str "C is right"].

(** The only whitespace in a text is the space character. *)
Definition only_plain_spaces (s : text) : bool :=
  List.forallb (fun c => negb (is_space c) || (c =? SP)) s.

(** The page texts of a file with one case-study question: two pages
    with text and an empty page between them. *)
Definition case_study_pages : list text :=
  [ join [NL]
      [str "Company Overview - Dress4Win is a web-based company.";
       str "For this question, refer to the Dress4Win case study. Dress4Win wants to move";
       str "its workloads. Which option is best?";
       str "A. Use Compute Engine  B. Use GKE"; str "C. Use App Engine"];
    [];
    join [NL]
      [str "D. Use Cloud Run bob99 1 year ago Highly Voted";
       str "B is right upvoted 3 times"] ].

(** A dictionary has an entry of at least [n] characters under [key]. *)
Definition holds_at_least (options : gmap (list N) (list N)) (key : text) (n : nat) : Prop :=
  exists value, options !! key = Some value /\ (n <= length value)%nat.

(** The least number of characters a match of a pattern consumes. *)
Fixpoint min_len (r : regex) : nat :=
  match r with
  | Chr _ | Dot | In_ _ | NotIn _ => 1
  | Seq r1 r2 => min_len r1 + min_len r2
  | Alt r1 r2 => Nat.min (min_len r1) (min_len r2)
  | Rep r' lo _ _ => lo * min_len r'
  | Grp _ r' => min_len r'
  | _ => 0
  end.

(** A line of a block, as [_parse_community_responses] reads it, and
    whether it names a selected or correct answer. *)
Definition response_line (raw : text) : text := lower (strip raw).

Definition names_answer (raw : text) : bool :=
  contains (str "selected answer") (response_line raw)
  || contains (str "correct answer") (response_line raw).

Definition begins_with_selected_answer (raw : text) : bool :=
  starts_with (str "selected answer") (response_line raw).

(** * Properties *)

(** ** Whitespace and list facts *)

Lemma filter_filter_and {A} (f g : A -> bool) (l : list A) :
  List.filter f (List.filter g l) = List.filter (fun x => g x && f x) l.
Proof.
  induction l as [|x l IH]; [reflexivity|]. cbn [List.filter].
  destruct (g x); cbn [List.filter andb]; [destruct (f x)|]; now rewrite IH.
Qed.

Lemma filter_id {A} (f : A -> bool) (l : list A) :
  List.forallb f l = true -> List.filter f l = l.
Proof.
  induction l as [|x l IH]; [reflexivity|]. cbn [List.forallb List.filter].
  intros [Hx Hl]%andb_prop. rewrite Hx. now rewrite IH.
Qed.

Lemma filter_ext_bool {A} (f g : A -> bool) (l : list A) :
  (forall x, f x = g x) -> List.filter f l = List.filter g l.
Proof.
  intros H. induction l as [|x l IH]; [reflexivity|]. cbn [List.filter].
  now rewrite H, IH.
Qed.

Lemma forallb_ext_bool {A} (f g : A -> bool) (l : list A) :
  (forall x, f x = g x) -> List.forallb f l = List.forallb g l.
Proof.
  intros H. induction l as [|x l IH]; [reflexivity|]. cbn [List.forallb].
  now rewrite H, IH.
Qed.

Lemma filter_rev_comm {A} (f : A -> bool) (l : list A) :
  List.filter f (rev l) = rev (List.filter f l).
Proof.
  induction l as [|x l IH]; [reflexivity|]. cbn [rev List.filter].
  rewrite List.filter_app, IH. cbn [List.filter]. destruct (f x); cbn [rev].
  - reflexivity.
  - now rewrite app_nil_r.
Qed.

Lemma lstrip_head (s : list N) (c : N) (t : list N) :
  lstrip s = c :: t -> is_space c = false.
Proof.
  induction s as [|d s IH]; [discriminate|]. cbn [lstrip].
  destruct (is_space d) eqn:Hd; [exact IH|]. intros [= <- _]. exact Hd.
Qed.

Lemma lstrip_fixed (c : N) (t : list N) : is_space c = false -> lstrip (c :: t) = c :: t.
Proof. intros H. cbn [lstrip]. now rewrite H. Qed.

Lemma lstrip_idem (s : list N) : lstrip (lstrip s) = lstrip s.
Proof.
  destruct (lstrip s) as [|c t] eqn:H; [reflexivity|].
  apply lstrip_fixed. exact (lstrip_head _ _ _ H).
Qed.

Lemma lstrip_app_single (a : list N) (c : N) :
  lstrip (a ++ [c])
  = match lstrip a with
    | [] => if is_space c then [] else [c]
    | _ :: _ => lstrip a ++ [c]
    end.
Proof.
  induction a as [|d a IH]; [reflexivity|]. cbn [app lstrip].
  destruct (is_space d); [exact IH | reflexivity].
Qed.

(** [rstrip] read from the front. *)
Lemma rstrip_cons (c : N) (s : list N) :
  rstrip (c :: s)
  = match rstrip s with
    | [] => if is_space c then [] else [c]
    | _ :: _ => c :: rstrip s
    end.
Proof.
  unfold rstrip. cbn [rev]. rewrite lstrip_app_single.
  destruct (lstrip (rev s)) as [|d t] eqn:H.
  - cbn [rev]. now destruct (is_space c).
  - rewrite rev_app_distr. cbn [rev app].
    destruct (rev t ++ [d]) eqn:E; [now destruct (rev t)|]. reflexivity.
Qed.

Lemma rstrip_idem (s : list N) : rstrip (rstrip s) = rstrip s.
Proof. unfold rstrip. now rewrite rev_involutive, lstrip_idem. Qed.

Lemma rstrip_head (s : list N) (c : N) (t : list N) :
  rstrip s = c :: t -> exists s', s = c :: s'.
Proof.
  destruct s as [|d s]; [discriminate|]. rewrite rstrip_cons.
  destruct (rstrip s); [destruct (is_space d)|]; intros [= <- _]; eauto.
Qed.

Lemma strip_idem (s : list N) : strip (strip s) = strip s.
Proof.
  unfold strip.
  assert (H : lstrip (rstrip (lstrip s)) = rstrip (lstrip s)).
  { destruct (rstrip (lstrip s)) as [|c t] eqn:E; [reflexivity|].
    apply rstrip_head in E as E'. destruct E' as [s' Hs'].
    apply lstrip_fixed. exact (lstrip_head _ _ _ Hs'). }
  rewrite H. apply rstrip_idem.
Qed.

Lemma filter_lstrip (p : N -> bool) (s : list N) :
  (forall c, p c = true -> is_space c = false) ->
  List.filter p (lstrip s) = List.filter p s.
Proof.
  intros Hp. induction s as [|c s IH]; [reflexivity|]. cbn [lstrip].
  destruct (is_space c) eqn:Hc; [|reflexivity].
  cbn [List.filter]. destruct (p c) eqn:Hpc; [|exact IH].
  apply Hp in Hpc. congruence.
Qed.

Lemma filter_strip (p : N -> bool) (s : list N) :
  (forall c, p c = true -> is_space c = false) ->
  List.filter p (strip s) = List.filter p s.
Proof.
  intros Hp. unfold strip, rstrip.
  rewrite filter_rev_comm, (filter_lstrip p _ Hp), filter_rev_comm, rev_involutive.
  now apply filter_lstrip.
Qed.

Lemma single_spaced_weaken (b : bool) (s : list N) :
  single_spaced b s = true -> single_spaced false s = true.
Proof.
  destruct s as [|c s]; [reflexivity|]. cbn [single_spaced].
  destruct (is_space c); [|exact (fun H => H)].
  destruct b; cbn [negb]; [rewrite andb_false_r; discriminate | exact (fun H => H)].
Qed.

Lemma single_spaced_collapse (b : bool) (s : list N) :
  single_spaced b (collapse_aux b s) = true.
Proof.
  revert b. induction s as [|c s IH]; intros b; [reflexivity|]. cbn [collapse_aux].
  destruct (is_space c) eqn:Hc.
  - destruct b; [apply IH|]. cbn [single_spaced]. rewrite IH. reflexivity.
  - cbn [single_spaced]. rewrite Hc. apply IH.
Qed.

Lemma collapse_fixed (b : bool) (s : list N) :
  single_spaced b s = true -> collapse_aux b s = s.
Proof.
  revert b. induction s as [|c s IH]; intros b; [reflexivity|].
  cbn [single_spaced collapse_aux]. destruct (is_space c).
  - intros [[Hc Hb]%andb_prop Hs]%andb_prop.
    apply N.eqb_eq in Hc. destruct b; [discriminate|]. now rewrite (IH true Hs), Hc.
  - intros Hs. now rewrite (IH false Hs).
Qed.

Lemma single_spaced_lstrip (b : bool) (s : list N) :
  single_spaced b s = true -> single_spaced false (lstrip s) = true.
Proof.
  revert b. induction s as [|c s IH]; intros b; [reflexivity|].
  cbn [single_spaced lstrip]. destruct (is_space c) eqn:Hc.
  - intros [_ Hs]%andb_prop. exact (IH true Hs).
  - intros Hs. cbn [single_spaced]. now rewrite Hc.
Qed.

Lemma single_spaced_rstrip (b : bool) (s : list N) :
  single_spaced b s = true -> single_spaced b (rstrip s) = true.
Proof.
  revert b. induction s as [|c s IH]; intros b; [reflexivity|].
  rewrite rstrip_cons. intros H.
  destruct (rstrip s) as [|d t] eqn:E.
  - destruct (is_space c) eqn:Hc; [reflexivity|]. cbn [single_spaced]. now rewrite Hc.
  - cbn [single_spaced] in H |- *. destruct (is_space c).
    + apply andb_prop in H as [H1 H2]. rewrite H1. exact (IH true H2).
    + exact (IH false H).
Qed.

Lemma single_spaced_strip (s : list N) :
  single_spaced false s = true -> single_spaced false (strip s) = true.
Proof.
  intros H. unfold strip. apply single_spaced_rstrip. exact (single_spaced_lstrip _ _ H).
Qed.

Lemma filter_collapse (p : N -> bool) (b : bool) (s : list N) :
  (forall c, p c = true -> is_space c = false) ->
  List.filter p (collapse_aux b s) = List.filter p s.
Proof.
  intros Hp. assert (HSP : p SP = false).
  { destruct (p SP) eqn:E; [apply Hp in E; discriminate | reflexivity]. }
  revert b. induction s as [|c s IH]; intros b; [reflexivity|]. cbn [collapse_aux].
  destruct (is_space c) eqn:Hc.
  - assert (Hpc : p c = false).
    { destruct (p c) eqn:E; [apply Hp in E; congruence | reflexivity]. }
    cbn [List.filter]. rewrite Hpc.
    destruct b; [apply IH|]. cbn [List.filter]. rewrite HSP. apply IH.
  - cbn [List.filter]. now rewrite IH.
Qed.

Lemma forallb_lstrip (p : N -> bool) (s : list N) :
  List.forallb p s = true -> List.forallb p (lstrip s) = true.
Proof.
  induction s as [|c s IH]; [reflexivity|]. cbn [lstrip].
  destruct (is_space c); [|exact (fun H => H)].
  cbn [List.forallb]. intros [_ H]%andb_prop. exact (IH H).
Qed.

Lemma forallb_rev (p : N -> bool) (s : list N) :
  List.forallb p (rev s) = List.forallb p s.
Proof.
  induction s as [|c s IH]; [reflexivity|]. cbn [rev List.forallb].
  rewrite List.forallb_app, IH. cbn [List.forallb]. rewrite andb_true_r. apply andb_comm.
Qed.

Lemma forallb_strip (p : N -> bool) (s : list N) :
  List.forallb p s = true -> List.forallb p (strip s) = true.
Proof.
  intros H. unfold strip, rstrip. rewrite forallb_rev. apply forallb_lstrip.
  rewrite forallb_rev. now apply forallb_lstrip.
Qed.

Lemma forallb_collapse (p : N -> bool) (b : bool) (s : list N) :
  p SP = true -> List.forallb p (List.filter p s) = true ->
  List.forallb p (collapse_aux b (List.filter p s)) = true.
Proof.
  intros HSP. generalize (List.filter p s) as l. clear s. intros l. revert b.
  induction l as [|c l IH]; intros b; [reflexivity|].
  cbn [List.forallb collapse_aux]. intros [Hc Hl]%andb_prop.
  destruct (is_space c).
  - destruct b; [exact (IH true Hl)|]. cbn [List.forallb]. rewrite HSP. exact (IH true Hl).
  - cbn [List.forallb]. rewrite Hc. exact (IH false Hl).
Qed.

Lemma forallb_filter_self {A} (p : A -> bool) (l : list A) :
  List.forallb p (List.filter p l) = true.
Proof.
  induction l as [|x l IH]; [reflexivity|]. cbn [List.filter].
  destruct (p x) eqn:E; [|exact IH]. cbn [List.forallb]. now rewrite E.
Qed.

(** [s.replace(c, '')] for a single character deletes its occurrences. *)
Lemma replace_single_char (c : N) (s : list N) :
  replace [c] [] s = List.filter (fun d => negb (d =? c)) s.
Proof.
  unfold replace.
  assert (H : forall fuel s, (length s <= fuel)%nat ->
              replace_fuel fuel [c] [] s = List.filter (fun d => negb (d =? c)) s).
  { induction fuel as [|fuel IH]; intros t Ht.
    - destruct t; [reflexivity | cbn in Ht; lia].
    - destruct t as [|d t]; [reflexivity|]. cbn [replace_fuel starts_with length skipn].
      cbn [List.filter]. rewrite andb_true_r, (N.eqb_sym c d).
      cbn [length] in Ht. change (skipn 0 t) with t.
      destruct (d =? c); cbn [negb app]; rewrite IH by lia; reflexivity. }
  apply H. lia.
Qed.

(** ** Facts about the matcher *)

Lemma firstn_length_app {A} (a b : list A) : firstn (length a) (a ++ b) = a.
Proof. induction a as [|x a IH]; [now destruct b|]. cbn. now rewrite IH. Qed.

Lemma break_at_some (p : N -> bool) (s pre : list N) (d : N) (tl : list N) :
  break_at p s = Some (pre, d, tl) ->
  s = pre ++ d :: tl /\ List.forallb (fun c => negb (p c)) pre = true /\ p d = true.
Proof.
  revert pre. induction s as [|c s IH]; intros pre; [discriminate|]. cbn [break_at].
  destruct (p c) eqn:Hc.
  - intros [= <- <- <-]. auto.
  - destruct (break_at p s) as [[[pre' d'] tl']|]; [|discriminate].
    intros [= <- <- <-]. destruct (IH pre' eq_refl) as (-> & Hpre & Hd).
    cbn [List.forallb app]. rewrite Hc, Hpre. auto.
Qed.

Lemma break_at_none (p : N -> bool) (s : list N) :
  break_at p s = None -> List.forallb (fun c => negb (p c)) s = true.
Proof.
  induction s as [|c s IH]; [reflexivity|]. cbn [break_at List.forallb].
  destruct (p c); [discriminate|].
  destruct (break_at p s) as [[[pre d] tl]|]; [discriminate|]. intros _. now rewrite IH.
Qed.

Lemma take_drop_while (p : N -> bool) (s : list N) :
  s = take_while p s ++ drop_while p s.
Proof.
  induction s as [|c s IH]; [reflexivity|]. cbn [take_while drop_while].
  destruct (p c); [cbn [app]; now rewrite <- IH | reflexivity].
Qed.

Lemma take_while_all (p : N -> bool) (s : list N) : List.forallb p (take_while p s) = true.
Proof.
  induction s as [|c s IH]; [reflexivity|]. cbn [take_while].
  destruct (p c) eqn:E; [|reflexivity]. cbn [List.forallb]. now rewrite E.
Qed.

Lemma drop_while_head (p : N -> bool) (s : list N) :
  match drop_while p s with [] => True | c :: _ => p c = false end.
Proof.
  induction s as [|c s IH]; [exact I|]. cbn [drop_while].
  destruct (p c) eqn:E; [exact IH | exact E].
Qed.

Lemma drop_while_length (p : N -> bool) (s : list N) :
  (length (drop_while p s) <= length s)%nat.
Proof.
  induction s as [|c s IH]; [reflexivity|]. cbn [drop_while].
  destruct (p c); cbn [length]; lia.
Qed.

Lemma drop_while_ext (p q : N -> bool) (s : list N) :
  (forall c, p c = q c) -> drop_while p s = drop_while q s.
Proof.
  intros H. induction s as [|c s IH]; [reflexivity|]. cbn [drop_while]. now rewrite H, IH.
Qed.

Lemma lstrip_drop_while (s : list N) : lstrip s = drop_while is_space s.
Proof. induction s as [|c s IH]; [reflexivity|]. cbn. now rewrite IH. Qed.

Section EngineFacts.
Variable fl : flags.

(** A greedy, unbounded repetition of a one-character test runs over a
    whole run of matching characters when its continuation succeeds
    there. *)
Lemma rep_loop_run (p : N -> bool) (lo : nat) (k : cont) (cps : list (nat * list N))
    (tl : list N) :
  match tl with [] => True | c :: _ => p c = false end ->
  forall (run bef : list N) (fuel count : nat),
    List.forallb p run = true ->
    (length (run ++ tl) <= fuel)%nat ->
    (lo <= count + length run)%nat ->
    k {| before := rev run ++ bef; rest := tl; caps := cps |} <> None ->
    rep_loop (one_char p) lo None true fuel count
      {| before := bef; rest := run ++ tl; caps := cps |} k
    = k {| before := rev run ++ bef; rest := tl; caps := cps |}.
Proof.
  intros Htl. induction run as [|c run IH]; intros bef fuel count Hrun Hfuel Hlo Hk.
  - cbn [rev app length] in *. rewrite Nat.add_0_r in Hlo.
    apply Nat.leb_le in Hlo. destruct fuel as [|fuel]; cbn [rep_loop]; [now rewrite Hlo|].
    cbn [below]. unfold one_char at 1. cbn [rest].
    destruct tl as [|d tl]; [now rewrite Hlo|]. now rewrite Htl, Hlo.
  - cbn [List.forallb] in Hrun. apply andb_prop in Hrun as [Hc Hrun].
    replace (rev (c :: run) ++ bef) with (rev run ++ c :: bef) in *
      by (cbn [rev]; now rewrite <- app_assoc).
    destruct fuel as [|fuel]; [cbn in Hfuel; lia|]. cbn [rep_loop below].
    unfold one_char at 1. cbn [rest app]. rewrite Hc. unfold advance. cbn [before rest caps length].
    rewrite (proj2 (Nat.ltb_lt _ _)) by lia.
    rewrite (IH (c :: bef) fuel (S count) Hrun); [| cbn [length app] in Hfuel; lia
                                                  | cbn [length] in Hlo; lia | exact Hk].
    destruct (k {| before := rev run ++ c :: bef; rest := tl; caps := cps |}) eqn:E;
      [reflexivity|]. now exfalso.
Qed.

(** [re.search] for a pattern that tests one character. *)
Lemma search_one_char (r : regex) (p : N -> bool)
    (Hr : forall st k, rmatch fl r st k = one_char p st k) (s bef : list N) :
  search_from fl r bef s
  = match break_at p s with
    | Some (pre, d, tl) =>
        Some {| m_from := {| before := rev pre ++ bef; rest := d :: tl; caps := [] |};
                m_to := {| before := d :: rev pre ++ bef; rest := tl; caps := [] |} |}
    | None => None
    end.
Proof.
  revert bef. induction s as [|c s IH]; intros bef.
  - cbn [search_from break_at]. unfold try_at. now rewrite Hr.
  - cbn [search_from break_at]. unfold try_at. rewrite Hr. unfold one_char. cbn [rest].
    destruct (p c); [reflexivity|]. rewrite IH.
    destruct (break_at p s) as [[[pre d] tl]|]; [|reflexivity].
    cbn [rev]. now rewrite <- app_assoc.
Qed.

(** Substituting the empty string for a one-character pattern deletes
    the characters it matches. *)
Lemma sub_delete_one_char (r : regex) (p : N -> bool)
    (Hr : forall st k, rmatch fl r st k = one_char p st k) :
  forall (n : nat) (s : list N) (fuel : nat) (bef : list N),
    (length s <= n)%nat -> (length s < fuel)%nat ->
    sub_from fl fuel r (fun _ => []) bef s = List.filter (fun c => negb (p c)) s.
Proof.
  induction n as [|n IH]; intros s fuel bef Hn Hfuel.
  - destruct s; [|cbn in Hn; lia]. destruct fuel; [lia|].
    cbn [sub_from]. now rewrite (search_one_char r p Hr).
  - destruct fuel as [|fuel]; [lia|]. cbn [sub_from]. rewrite (search_one_char r p Hr).
    destruct (break_at p s) as [[[pre d] tl]|] eqn:E.
    + apply break_at_some in E as (-> & Hpre & Hd).
      unfold m_start. cbn [m_from m_to before rest].
      replace (length (rev pre ++ bef) - length bef)%nat with (length pre)
        by (rewrite length_app, length_rev; lia).
      rewrite firstn_length_app. cbn [length]. rewrite (proj2 (Nat.ltb_lt _ _)) by lia.
      rewrite length_app in Hn, Hfuel. cbn [length] in Hn, Hfuel.
      rewrite IH by lia.
      rewrite List.filter_app. cbn [List.filter app]. rewrite Hd. cbn [negb].
      now rewrite (filter_id _ pre Hpre).
    + apply break_at_none in E. now rewrite filter_id.
Qed.

(** [re.search] for one or more characters of a set. *)
Lemma search_plus_set (its : list item) (s bef : list N) :
  search_from fl (Plus (In_ its)) bef s
  = match break_at (set_match fl its) s with
    | Some (pre, d, tl) =>
        Some {| m_from := {| before := rev pre ++ bef; rest := d :: tl; caps := [] |};
                m_to := {| before := rev (take_while (set_match fl its) tl) ++ d :: rev pre ++ bef;
                           rest := drop_while (set_match fl its) tl; caps := [] |} |}
    | None => None
    end.
Proof.
  set (p := set_match fl its).
  assert (Htry : forall bef s,
    try_at fl (Plus (In_ its)) bef s
    = match s with
      | c :: s' =>
          if p c
          then Some {| m_from := {| before := bef; rest := s; caps := [] |};
                       m_to := {| before := rev (take_while p s') ++ c :: bef;
                                  rest := drop_while p s'; caps := [] |} |}
          else None
      | [] => None
      end).
  { clear s bef. intros bef s. unfold try_at, Plus. cbn [rmatch rest].
    change (fun (st : mstate) (k : cont) => one_char (set_match fl its) st k)
      with (one_char p).
    clearbody p.
    destruct s as [|c s']; [reflexivity|]. destruct (p c) eqn:Hc.
    - pose proof (rep_loop_run p 1 Some [] (drop_while p s') (drop_while_head p s')
                    (c :: take_while p s') bef (length (c :: s')) 0) as H.
      cbn [app] in H. rewrite <- take_drop_while in H.
      rewrite H.
      + cbn [rev]. rewrite <- app_assoc. reflexivity.
      + cbn [List.forallb]. now rewrite Hc, take_while_all.
      + reflexivity.
      + cbn [length]. lia.
      + discriminate.
    - cbn [length rep_loop below]. unfold one_char. cbn [rest]. now rewrite Hc. }
  revert bef. induction s as [|c s IH]; intros bef.
  - cbn [search_from break_at]. now rewrite Htry.
  - cbn [search_from break_at]. rewrite Htry. destruct (p c) eqn:Hc.
    + reflexivity.
    + rewrite IH. fold p. destruct (break_at p s) as [[[pre d] tl]|]; [|reflexivity].
      cbn [rev]. now rewrite <- !app_assoc.
Qed.

End EngineFacts.

(** ** The Unicode artifact cleaner *)

Lemma space_set_is_space (d : N) : set_match NOFLAGS [ISpace] d = is_space d.
Proof. cbn. apply orb_false_r. Qed.

Lemma collapse_no_space (b : bool) (s : list N) :
  List.forallb (fun c => negb (is_space c)) s = true -> collapse_aux b s = s.
Proof.
  revert b. induction s as [|c s IH]; intros b; [reflexivity|]. cbn [List.forallb collapse_aux].
  intros [Hc Hs]%andb_prop. apply negb_true_iff in Hc. rewrite Hc. now rewrite IH.
Qed.

Lemma collapse_run_start (pre : list N) (d : N) (tl : list N) :
  List.forallb (fun c => negb (is_space c)) pre = true -> is_space d = true ->
  collapse_aux false (pre ++ d :: tl) = pre ++ SP :: collapse_aux true tl.
Proof.
  intros Hpre Hd. induction pre as [|c pre IH].
  - cbn [app collapse_aux]. now rewrite Hd.
  - cbn [List.forallb] in Hpre. apply andb_prop in Hpre as [Hc Hpre].
    apply negb_true_iff in Hc. cbn [app collapse_aux]. rewrite Hc. now rewrite IH.
Qed.

Lemma collapse_in_run (tl : list N) :
  collapse_aux true tl = collapse_aux false (drop_while is_space tl).
Proof.
  induction tl as [|c tl IH]; [reflexivity|]. cbn [collapse_aux drop_while].
  destruct (is_space c) eqn:Hc; [exact IH|]. cbn [collapse_aux]. now rewrite Hc.
Qed.

(** [re.sub(r'\s+', ' ', s)] squeezes every whitespace run to one space. *)
Lemma sub_spaces_collapse (s : list N) :
  re_sub NOFLAGS (Plus SpaceC) [SP] s = collapse s.
Proof.
  unfold re_sub, collapse, SpaceC.
  assert (H : forall (n : nat) (s : list N) (fuel : nat) (bef : list N),
             (length s <= n)%nat -> (length s < fuel)%nat ->
             sub_from NOFLAGS fuel (Plus (In_ [ISpace])) (fun _ => [SP]) bef s
             = collapse_aux false s).
  { clear s. induction n as [|n IH]; intros s fuel bef Hn Hfuel.
    - destruct s; [|cbn in Hn; lia]. destruct fuel; [lia|].
      cbn [sub_from]. now rewrite search_plus_set.
    - destruct fuel as [|fuel]; [lia|]. cbn [sub_from]. rewrite search_plus_set.
      destruct (break_at (set_match NOFLAGS [ISpace]) s) as [[[pre d] tl]|] eqn:E.
      + apply break_at_some in E as (-> & Hpre & Hd).
        rewrite space_set_is_space in Hd.
        rewrite (forallb_ext_bool _ (fun c => negb (is_space c))) in Hpre
          by (intros c; now rewrite space_set_is_space).
        rewrite (drop_while_ext _ is_space) by apply space_set_is_space.
        unfold m_start. cbn [m_from m_to before rest].
        replace (length (rev pre ++ bef) - length bef)%nat with (length pre)
          by (rewrite length_app, length_rev; lia).
        rewrite firstn_length_app.
        pose proof (drop_while_length is_space tl) as Hdrop.
        cbn [length]. rewrite (proj2 (Nat.ltb_lt _ _)) by lia.
        rewrite length_app in Hn, Hfuel. cbn [length] in Hn, Hfuel.
        rewrite IH by lia.
        rewrite collapse_run_start by assumption. now rewrite collapse_in_run.
      + apply break_at_none in E.
        rewrite (forallb_ext_bool _ (fun c => negb (is_space c))) in E
          by (intros c; now rewrite space_set_is_space).
        now rewrite collapse_no_space. }
  apply (H (length s)); lia.
Qed.

Lemma sub_delete_set (its : list item) (s : list N) :
  re_sub NOFLAGS (In_ its) [] s = List.filter (fun c => negb (set_match NOFLAGS its c)) s.
Proof.
  unfold re_sub. apply (sub_delete_one_char NOFLAGS (In_ its) (set_match NOFLAGS its)
                          (fun st k => eq_refl) (length s)); lia.
Qed.

(** What [_clean_unicode_artifacts] computes. *)
Lemma clean_unicode_spec (s : list N) :
  RobustQuestionParser._clean_unicode_artifacts s
  = if is_empty s then s
    else strip (collapse (List.filter (fun c => negb (removed_symbol c)) s)).
Proof.
  unfold RobustQuestionParser._clean_unicode_artifacts.
  destruct (is_empty s); [reflexivity|].
  rewrite !replace_single_char. unfold pat. rewrite sub_delete_set, sub_spaces_collapse.
  rewrite !filter_filter_and.
  f_equal. f_equal. apply filter_ext_bool. intros c.
  unfold removed_symbol. cbn [set_match existsb item_match ignorecase NOFLAGS].
  destruct (c =? 0xf147), (c =? 0xf007), (c =? 0xf0c9), (c =? 0x2588), (c =? 0x2590),
    (c =? 0x2591), (between 0xf000 0xf8ff c); reflexivity.
Qed.

(** The page-level cleaner is not idempotent: deleting one
    single-letter line brings the next one between two newlines. *)
Lemma pdf_cleaner_not_idempotent :
  let x := join [NL] [str "x"; str "a"; str "b"; str "c"] in
  PDFProcessor.clean_pdf_artifacts x = join [NL] [str "x"; str "b"; str "c"]
  /\ PDFProcessor.clean_pdf_artifacts (PDFProcessor.clean_pdf_artifacts x)
     = join [NL] [str "x"; str "c"]
  /\ PDFProcessor.clean_pdf_artifacts (PDFProcessor.clean_pdf_artifacts x)
     <> PDFProcessor.clean_pdf_artifacts x.
Proof.
  repeat split; try (vm_compute; reflexivity).
  vm_compute. discriminate.
Qed.

(** C6 (amended): the Unicode artifact cleaner is idempotent. *)
Theorem clean_unicode_idempotent (x : list N) :
  RobustQuestionParser._clean_unicode_artifacts
    (RobustQuestionParser._clean_unicode_artifacts x)
  = RobustQuestionParser._clean_unicode_artifacts x.
Proof.
  rewrite (clean_unicode_spec (RobustQuestionParser._clean_unicode_artifacts x)).
  destruct (is_empty (RobustQuestionParser._clean_unicode_artifacts x)) eqn:Hempty;
    [reflexivity|].
  rewrite clean_unicode_spec in Hempty |- *.
  destruct (is_empty x) eqn:Hx; [congruence|].
  set (keep := fun c => negb (removed_symbol c)).
  set (v := List.filter keep x).
  assert (Hkeep : List.forallb keep (strip (collapse v)) = true).
  { apply forallb_strip. unfold collapse, v. apply forallb_collapse; [reflexivity|].
    apply forallb_filter_self. }
  assert (Hss : single_spaced false (strip (collapse v)) = true).
  { apply single_spaced_strip. apply single_spaced_collapse. }
  rewrite (filter_id keep _ Hkeep).
  unfold collapse at 1. rewrite (collapse_fixed false _ Hss).
  apply strip_idem.
Qed.

(** C8: the cleaner keeps, in order, exactly the characters of every
    class that holds no whitespace and none of the deleted symbol code
    points, as the alphanumeric characters do; and the empty text is
    cleaned to the empty text. *)
Theorem clean_keeps_alphanumerics (alnum : N -> bool) (x : list N) :
  (forall c, alnum c = true -> is_space c = false /\ removed_symbol c = false) ->
  List.filter alnum (RobustQuestionParser._clean_unicode_artifacts x) = List.filter alnum x
  /\ RobustQuestionParser._clean_unicode_artifacts [] = [].
Proof.
  intros Halnum. split; [|reflexivity].
  rewrite clean_unicode_spec. destruct (is_empty x); [reflexivity|].
  assert (Hsp : forall c, alnum c = true -> is_space c = false) by (intros c Hc; apply Halnum, Hc).
  rewrite (filter_strip alnum _ Hsp). unfold collapse. rewrite (filter_collapse alnum _ _ Hsp).
  rewrite filter_filter_and. apply filter_ext_bool. intros c.
  destruct (alnum c) eqn:Hc; [|apply andb_false_r].
  destruct (Halnum c Hc) as [_ ->]. reflexivity.
Qed.

Lemma is_alnum_ascii_kept (c : N) :
  is_alnum_ascii c = true -> is_space c = false /\ removed_symbol c = false.
Proof.
  unfold is_alnum_ascii, is_upper_ascii, is_lower_ascii, is_digit, is_space, removed_symbol,
    between.
  intros H. split; apply not_true_is_false; intros H';
    repeat match goal with
           | H : _ || _ = true |- _ => apply orb_prop in H as [H|H]
           | H : _ && _ = true |- _ => apply andb_prop in H as [? ?]
           | H : (_ <=? _) = true |- _ => apply N.leb_le in H
           | H : (_ =? _) = true |- _ => apply N.eqb_eq in H
           end; lia.
Qed.

Lemma clean_keeps_alphanumerics_witness :
  let x := [0xf147; 0xf007] ++ str "  Q7:   Cloud
  Storage " ++ [0x2588; 0xf111; 0xa0] in
  RobustQuestionParser._clean_unicode_artifacts x = str "Q7: Cloud Storage"
  /\ List.filter is_alnum_ascii x = str "Q7CloudStorage"
  /\ (List.filter is_alnum_ascii (RobustQuestionParser._clean_unicode_artifacts x)
      = List.filter is_alnum_ascii x
      /\ RobustQuestionParser._clean_unicode_artifacts [] = []).
Proof.
  intros x. split; [vm_compute; reflexivity|]. split; [vm_compute; reflexivity|].
  exact (clean_keeps_alphanumerics is_alnum_ascii x is_alnum_ascii_kept).
Defined.

(** ** Parse failure below the minimum length *)

(** C10: whatever its content, a text block whose stripped length is
    below the configured minimum question length makes
    [parse_question_structure] return [None] (and leaves the parser's
    state as it was). *)
Theorem short_block_is_rejected (cfg : config) (st : parser_state)
    (text_block : text) (page_number : Z) (source_file source_pdf_path : text) :
  (length (strip text_block) < minimum_question_length cfg)%nat ->
  parse_question_structure cfg st text_block page_number source_file source_pdf_path
  = (None, st).
Proof.
  intros Hshort. unfold parse_question_structure.
  apply Nat.ltb_lt in Hshort. rewrite Hshort.
  now rewrite orb_true_r.
Qed.

(** A 37-character block with a marker, a description and two options,
    under the default minimum of 50. *)
Lemma short_block_is_rejected_witness :
  let block := join [NL] [str "Question #1"; str "A or B?"; str "A. alpha"; str "B. bravo"] in
  minimum_question_length _get_default_config = 50%nat
  /\ length (strip block) = 37%nat
  /\ is_Some (_extract_question_number block)
  /\ _extract_question_description block = str "A or B?"
  /\ size (_extract_answer_options block) = 2%nat
  /\ parse_question_structure _get_default_config init_state block 1 (str "exam.pdf") []
     = (None, init_state).
Proof.
  intros block.
  split; [reflexivity|]. split; [vm_compute; reflexivity|].
  split; [vm_compute; eauto|]. split; [vm_compute; reflexivity|].
  split; [vm_compute; reflexivity|].
  apply (short_block_is_rejected _get_default_config init_state block 1 (str "exam.pdf") []).
  vm_compute. lia.
Defined.

(** ** The end-to-end scenario *)

(** C1: on the scenario text the parser returns a Question with
    original number 7 and the four stated options, and records four
    comments of which exactly one has vote count 3; but its community
    answer is D (the last letter of SELECTED in the upper-cased line),
    not the B that follows Selected Answer. *)
Theorem scenario_parses_with_community_answer_D
    (page_number : Z) (source_file source_pdf_path : text) :
  let result :=
    parse_question_structure _get_default_config init_state scenario_text
      page_number source_file source_pdf_path in
  option_map original_number (fst result) = Some (str "7")
  /\ option_map options (fst result) = Some scenario_options
  /\ option_map community_answer (fst result) = Some (str "D")
  /\ option_map community_answer (fst result) <> Some (str "B")
  /\ List.map vote_count (community_comments (snd result)) = [0; 0; 0; 3]%Z
  /\ List.map content (community_comments (snd result))
     = [str "Selected Answer: B"; str "Highly Voted"; str "bob99 1 year ago";
        str "upvoted 3 times"].
Proof.
  intros result. subst result.
  repeat split; try (vm_compute; reflexivity).
  vm_compute. discriminate.
Qed.

(** The repository's own test text: the parser answers D where the
    test asserts C. *)
Lemma test_sample_community_answer :
  option_map community_answer
    (fst (parse_question_structure _get_default_config init_state test_sample_question
            1 (str "test.pdf") []))
  = Some (str "D").
Proof. vm_compute. reflexivity. Qed.

(** ** Question identifiers *)

(** C9: the main pipeline, run on one page with two consecutive
    questions, produces two Questions with the same id Q1_1: the second
    span starts with look-back context that contains the first marker,
    and the number is taken from the first marker found in the span. *)
Theorem two_questions_share_an_id :
  let boundaries := PDFProcessor.identify_question_boundaries [two_question_page] in
  let questions := fst (parse_questions_from_pages _get_default_config init_state boundaries) in
  List.map question_header boundaries = [str "Question #1 Topic 1"; str "Question #2 Topic 1"]
  /\ List.map unique_id questions = [str "Q1_1"; str "Q1_1"]
  /\ List.map description questions
     = [str "Which service stores objects?"; str "Which service stores objects?"]
  /\ List.map (fun b => List.map show (content_lines b)) boundaries
     = [ ["Question #1 Topic 1"; "Which service stores objects?"; "A. Compute Engine";
          "B. Cloud Storage"; "C. BigQuery"; "D. Pub/Sub"];
         ["Question #1 Topic 1"; "Which service stores objects?"; "A. Compute Engine";
          "B. Cloud Storage"; "Question #2 Topic 1"; "Which service runs containers?";
          "A. Cloud Run"; "B. Cloud SQL"; "C. Dataflow"; "D. Firestore"] ]%string.
Proof.
  intros boundaries questions. subst questions boundaries.
  repeat split; vm_compute; reflexivity.
Qed.

(** ** Confidence score *)

(** With three options the score before the addition is already 0.55,
    not 0.4. *)
Lemma three_options_score_above_0_4 :
  length (description three_option_question) = 50%nat
  /\ size (options three_option_question) = 3%nat
  /\ community_answer three_option_question = []
  /\ highly_voted_answer three_option_question = []
  /\ most_recent_answer three_option_question = []
  /\ _calculate_confidence three_option_question = (0.4 + 0.15)%float
  /\ (_calculate_confidence three_option_question =? 0.4)%float = false
  /\ (0.55 <=? _calculate_confidence three_option_question)%float = true.
Proof. repeat split; vm_compute; reflexivity. Qed.

(** C4 (amended): for a question with a description of at least 50
    characters, no community answers and three options, adding a
    fourth option raises the score from 0.4 + 0.15 to 0.4 + 0.3, each
    followed by the same bonus for number and topic: from a value in
    [0.55, 0.7) to a value of at least 0.7; the other fields stay as
    they were. *)
Theorem fourth_option_raises_confidence (q : Question) (k v : list N) :
  (50 <= length (description q))%nat ->
  community_answer q = [] -> highly_voted_answer q = [] -> most_recent_answer q = [] ->
  size (options q) = 3%nat ->
  options q !! k = None ->
  let q' := set_options q (<[k := v]> (options q)) in
  size (options q') = 4%nat
  /\ _calculate_confidence q = with_structure_bonus q (0.4 + 0.15)%float
  /\ _calculate_confidence q' = with_structure_bonus q (0.4 + 0.3)%float
  /\ (0.55 <=? _calculate_confidence q)%float = true
  /\ (_calculate_confidence q <? 0.7)%float = true
  /\ (0.7 <=? _calculate_confidence q')%float = true.
Proof.
  intros Hlen Hca Hhv Hmr Hsize Hfresh q'.
  assert (Hsize' : size (options q') = 4%nat).
  { subst q'. cbn [options set_options]. rewrite map_size_insert_None by exact Hfresh.
    now rewrite Hsize. }
  assert (Hne : nonempty (description q) = true).
  { destruct (description q); [simpl in Hlen; lia | reflexivity]. }
  assert (H50 : (50 <=? length (description q))%nat = true) by now apply Nat.leb_le.
  split; [exact Hsize'|].
  unfold _calculate_confidence, with_structure_bonus.
  rewrite Hsize'. subst q'.
  cbn [description set_options community_answer highly_voted_answer most_recent_answer
       original_number topic].
  rewrite Hne, H50, Hsize, Hca, Hhv, Hmr.
  cbn [Nat.leb List.filter nonempty is_empty negb andb length].
  destruct (nonempty (original_number q)), (nonempty (topic q));
    repeat split; vm_compute; reflexivity.
Qed.

Lemma fourth_option_raises_confidence_witness :
  let q := three_option_question in
  let q' := set_options q (<[str "D" := str "Pub/Sub"]> (options q)) in
  size (options q') = 4%nat
  /\ _calculate_confidence q = with_structure_bonus q (0.4 + 0.15)%float
  /\ _calculate_confidence q' = with_structure_bonus q (0.4 + 0.3)%float
  /\ (0.55 <=? _calculate_confidence q)%float = true
  /\ (_calculate_confidence q <? 0.7)%float = true
  /\ (0.7 <=? _calculate_confidence q')%float = true.
Proof.
  intros q.
  apply (fourth_option_raises_confidence three_option_question (str "D") (str "Pub/Sub")).
  - vm_compute. lia.
  - reflexivity.
  - reflexivity.
  - reflexivity.
  - vm_compute. reflexivity.
  - vm_compute. reflexivity.
Defined.

(** ** Description similarity *)

(** A question without description words is not similar to itself. *)
Lemma empty_description_self_similarity :
  similarity default_question default_question = 0%Q
  /\ ~ (similarity default_question default_question == 1)%Q.
Proof. split; [reflexivity | vm_compute; discriminate]. Qed.

Lemma pos_of_nat_Z (n : nat) : (0 < n)%nat -> Z.pos (Pos.of_nat n) = Z.of_nat n.
Proof. destruct n; [lia|]. intros _. rewrite <- Pos.of_nat_succ. lia. Qed.

Lemma gset_inter_comm (w1 w2 : gset (list N)) : w2 ∩ w1 = w1 ∩ w2.
Proof. set_solver. Qed.

Lemma gset_union_comm (w1 w2 : gset (list N)) : w2 ∪ w1 = w1 ∪ w2.
Proof. set_solver. Qed.

Lemma gset_inter_self (w : gset (list N)) : w ∩ w = w.
Proof. set_solver. Qed.

Lemma gset_union_self (w : gset (list N)) : w ∪ w = w.
Proof. set_solver. Qed.

Lemma words_empty_iff (ws : list (list N)) :
  (list_to_set ws : gset (list N)) = ∅ <-> ws = [].
Proof.
  split; [|intros ->; reflexivity].
  destruct ws as [|w ws]; [reflexivity|]. intros H. exfalso.
  assert (Hin : w ∈ (list_to_set (w :: ws) : gset (list N))) by set_solver.
  rewrite H in Hin. set_solver.
Qed.

(** C5 (amended): the similarity is symmetric in its two questions;
    a question compared with itself scores 1 when its description
    holds at least one word and 0 when it holds none. *)
Theorem similarity_symmetric_and_reflexive_on_words (q1 q2 : Question) :
  similarity q1 q2 = similarity q2 q1
  /\ (similarity q1 q1 == if has_words (description q1) then 1 else 0)%Q.
Proof.
  unfold similarity, _calculate_similarity, has_words. split.
  - rewrite (orb_comm (is_empty (description q1))).
    destruct (is_empty (description q2) || is_empty (description q1)); [reflexivity|].
    set (w1 := list_to_set (split_ws (lower (description q1))) : gset (list N)).
    set (w2 := list_to_set (split_ws (lower (description q2))) : gset (list N)).
    rewrite (orb_comm (bool_decide (w1 = ∅))).
    rewrite (gset_inter_comm w1 w2), (gset_union_comm w1 w2).
    reflexivity.
  - destruct (description q1) as [|c d] eqn:Hd; [reflexivity|].
    cbn [is_empty orb].
    set (ws := split_ws (lower (c :: d))).
    set (w := list_to_set ws : gset (list N)).
    destruct (bool_decide (w = ∅)) eqn:Hw.
    + apply bool_decide_eq_true in Hw. apply words_empty_iff in Hw. rewrite Hw. reflexivity.
    + apply bool_decide_eq_false in Hw.
      assert (Hws : exists x xs, ws = x :: xs).
      { destruct ws as [|x xs]; [exfalso; apply Hw; reflexivity | eauto]. }
      destruct Hws as (x & xs & Hws). rewrite Hws. cbn [orb].
      rewrite (gset_inter_self w).
      assert (Hpos : (0 < size w)%nat).
      { destruct (size w) eqn:Hs; [|lia]. apply size_empty_iff in Hs.
        exfalso. apply Hw. now apply leibniz_equiv. }
      rewrite (gset_union_self w).
      apply Nat.ltb_lt in Hpos as Hpos'. rewrite Hpos'.
      unfold Qeq. cbn [Qnum Qden]. rewrite pos_of_nat_Z by exact Hpos. lia.
Qed.

(** ** Separating community comments *)


Lemma separate_fold (question_id : list N) (page_number : Z) (source_file : list N)
    (lines clean_lines : list (list N)) (comments : list CommunityComment) :
  fold_left (separate_step question_id page_number source_file) lines (clean_lines, comments)
  = (clean_lines ++ List.filter (fun l => negb (_is_community_comment l)) lines,
     comments ++ omap (fun l => _extract_community_comment l question_id page_number source_file)
                   (List.filter _is_community_comment lines)).
Proof.
  revert clean_lines comments.
  induction lines as [|l lines IH]; intros clean_lines comments.
  - cbn. now rewrite !app_nil_r.
  - cbn [fold_left List.filter]. unfold separate_step at 2.
    destruct (_is_community_comment l); cbn [negb].
    + cbn [omap list_omap _extract_community_comment]. rewrite IH. cbn. now rewrite <- app_assoc.
    + rewrite IH. now rewrite <- app_assoc.
Qed.


(** ** Option extraction *)

Lemma is_space_sre_lower (d : N) : is_space (sre_lower d) = is_space d.
Proof.
  unfold sre_lower, is_upper_ascii, between.
  destruct (65 <=? d) eqn:H1; destruct (d <=? 90) eqn:H2; cbn [andb];
    try (destruct (d =? 0x130) eqn:H3; [apply N.eqb_eq in H3; subst d; reflexivity|];
         destruct (d =? 0x212A) eqn:H4; [apply N.eqb_eq in H4; subst d; reflexivity|];
         reflexivity).
  apply N.leb_le in H1, H2. unfold is_space, between.
  repeat match goal with
         | |- context [?a <=? ?b] => destruct (N.leb_spec a b); try lia
         | |- context [?a =? ?b] => destruct (N.eqb_spec a b); try lia
         end; reflexivity.
Qed.

Lemma lstrip_length (s : list N) : (length (lstrip s) <= length s)%nat.
Proof. rewrite lstrip_drop_while. apply drop_while_length. Qed.

Lemma lstrip_same_length (s : list N) : length (lstrip s) = length s -> lstrip s = s.
Proof.
  destruct s as [|c s]; [reflexivity|]. cbn [lstrip].
  destruct (is_space c); [|reflexivity].
  pose proof (lstrip_length s). cbn [length]. lia.
Qed.

Lemma rstrip_length (s : list N) : (length (rstrip s) <= length s)%nat.
Proof.
  unfold rstrip. rewrite length_rev. pose proof (lstrip_length (rev s)).
  now rewrite length_rev in H.
Qed.

Lemma strip_fixed_parts (s : list N) : strip s = s -> lstrip s = s /\ rstrip s = s.
Proof.
  intros H. unfold strip in H.
  assert (Hl : lstrip s = s).
  { apply lstrip_same_length. pose proof (rstrip_length (lstrip s)) as H1.
    pose proof (lstrip_length s) as H2. rewrite H in H1. lia. }
  split; [exact Hl|]. now rewrite Hl in H.
Qed.

Lemma rstrip_fixed_app (pre s : list N) :
  s <> [] -> rstrip s = s -> rstrip (pre ++ s) = pre ++ s.
Proof.
  intros Hne Hs. induction pre as [|c pre IH]; [exact Hs|].
  cbn [app]. rewrite rstrip_cons, IH.
  destruct (pre ++ s) eqn:E; [|reflexivity].
  apply app_eq_nil in E as [_ ->]. now contradiction Hne.
Qed.

Lemma break_at_existsb (p : N -> bool) (s : list N) :
  List.existsb p s = match break_at p s with Some _ => true | None => false end.
Proof.
  induction s as [|c s IH]; [reflexivity|]. cbn [List.existsb break_at].
  destruct (p c); [reflexivity|]. cbn [orb]. rewrite IH.
  now destruct (break_at p s) as [[[pre d] tl]|].
Qed.

(** Searching for a one-character set is testing every character. *)
Lemma found_set (fl : flags) (its : list item) (s : list N) :
  found fl (In_ its) s = List.existsb (set_match fl its) s.
Proof.
  unfold found, re_search.
  rewrite (search_one_char fl (In_ its) (set_match fl its) (fun st k => eq_refl)).
  rewrite break_at_existsb. now destruct (break_at _ s) as [[[pre d] tl]|].
Qed.

Lemma found_path_chars (s : list N) :
  found NOFLAGS path_chars s = List.existsb path_like s.
Proof.
  unfold path_chars, pat. rewrite found_set. clear. induction s as [|c s IH]; [reflexivity|].
  cbn [List.existsb]. rewrite IH. f_equal. unfold path_like. cbn.
  now rewrite orb_false_r, !orb_assoc.
Qed.

Lemma firstn_one {A} (x : A) (l : list A) :
  firstn (length (x :: l) - length l) (x :: l) = [x].
Proof. cbn [length]. replace (S (length l) - length l)%nat with 1%nat by lia. reflexivity. Qed.

Lemma space_set_ignorecase (d : N) : set_match IGNORECASE [ISpace] d = is_space d.
Proof. cbn. rewrite orb_false_r. apply is_space_sre_lower. Qed.

Lemma option_letter_set (letter : N) :
  between 65 70 letter || between 97 102 letter = true ->
  set_match IGNORECASE [IRng 65 70] letter = true.
Proof.
  unfold between. intros H.
  assert (Hcases : In letter [65; 66; 67; 68; 69; 70; 97; 98; 99; 100; 101; 102]).
  { apply orb_prop in H as [H|H]; apply andb_prop in H as [H1 H2];
      apply N.leb_le in H1, H2; cbn [In]; lia. }
  cbn [In] in Hcases.
  repeat (destruct Hcases as [<-|Hcases]; [vm_compute; reflexivity|]). contradiction.
Qed.

(** How the option pattern reads a line made of a letter, a
    separator, a run of whitespace and a body. *)
Lemma option_line_match (letter sep : N) (ws body : list N) :
  between 65 70 letter || between 97 102 letter = true ->
  sep = 46 \/ sep = 41 ->
  List.forallb is_space ws = true ->
  body <> [] -> lstrip body = body ->
  no_newline body = true ->
  exists m,
    re_match IGNORECASE option_line (letter :: sep :: ws ++ body) = Some m
    /\ group 1 m = [letter] /\ group 2 m = body.
Proof.
  intros Hletter Hsep Hws Hne Hhead Hnl.
  unfold re_match, try_at, option_line, pat, Star, Plus, SpaceC.
  cbn [seqs rmatch at_bol before].
  unfold one_char at 1. cbn [rest]. rewrite (option_letter_set letter Hletter).
  unfold set_cap at 1, advance. cbn [before rest caps]. rewrite firstn_one.
  unfold one_char at 1. cbn [rest].
  replace (set_match IGNORECASE [IChr 46; IChr 41] sep) with true
    by (destruct Hsep as [-> | ->]; vm_compute; reflexivity).
  unfold advance. cbn [before rest caps].
  change (fun (st : mstate) (k : cont) => one_char (set_match IGNORECASE [ISpace]) st k)
    with (one_char (set_match IGNORECASE [ISpace])).
  change (fun (st : mstate) (k : cont) => one_char (dot_match IGNORECASE) st k)
    with (one_char (dot_match IGNORECASE)).
  set (cps := [(1%nat, [letter])]).
  set (bef := [sep; letter]).
  (* the body, read by (.+) *)
  assert (Hbody : forall bef',
    rep_loop (one_char (dot_match IGNORECASE)) 1 None true (length body) 0
      {| before := bef'; rest := body; caps := cps |}
      (fun st'2 => Some (set_cap 2 {| before := bef'; rest := body; caps := cps |} st'2))
    = Some {| before := rev body ++ bef'; rest := []; caps := (2%nat, body) :: cps |}).
  { intros bef'.
    pose proof (rep_loop_run (dot_match IGNORECASE) 1
                  (fun st'2 => Some (set_cap 2 {| before := bef'; rest := body; caps := cps |} st'2))
                  cps [] I body bef' (length body) 0) as H.
    rewrite app_nil_r in H. rewrite H.
    - unfold set_cap. cbn [before rest caps length]. rewrite Nat.sub_0_r, firstn_all. reflexivity.
    - rewrite <- Hnl. apply forallb_ext_bool. intros c. reflexivity.
    - reflexivity.
    - destruct body; [contradiction|]. cbn [length]. lia.
    - discriminate. }
  (* the whitespace run, read by \s* *)
  pose proof (rep_loop_run (set_match IGNORECASE [ISpace]) 0
                (fun st'1 =>
                   rep_loop (one_char (dot_match IGNORECASE)) 1 None true (length (rest st'1)) 0 st'1
                     (fun st'2 => Some (set_cap 2 st'1 st'2)))
                cps body) as Hrun.
  rewrite Hrun.
  - cbn [rest]. rewrite Hbody. eexists. split; [reflexivity|].
    unfold group. cbn [m_to caps assoc_nat Nat.eqb]. split; reflexivity.
  - destruct body as [|b0 body']; [exact I|]. rewrite space_set_ignorecase.
    exact (lstrip_head _ _ _ Hhead).
  - rewrite <- Hws. apply forallb_ext_bool. intros c. apply space_set_ignorecase.
  - reflexivity.
  - lia.
  - cbn [rest]. rewrite Hbody. discriminate.
Qed.

Lemma option_letter_not_space (letter : N) :
  between 65 70 letter || between 97 102 letter = true -> is_space letter = false.
Proof.
  unfold between, is_space, between. intros H.
  apply orb_prop in H as [H|H]; apply andb_prop in H as [H1 H2]; apply N.leb_le in H1, H2;
    repeat match goal with
           | |- context [?a <=? ?b] => destruct (N.leb_spec a b); try lia
           | |- context [?a =? ?b] => destruct (N.eqb_spec a b); try lia
           end; reflexivity.
Qed.

(** One iteration on a line made of a letter, a separator, one space
    and a stripped body that passes neither length test. *)
Lemma options_step_rejects (opts : gmap (list N) (list N)) (letter sep : N) (body : list N) :
  between 65 70 letter || between 97 102 letter = true ->
  sep = 46 \/ sep = 41 ->
  strip body = body ->
  no_newline body = true ->
  (length body < 2)%nat \/ ((length body < 5)%nat /\ List.existsb path_like body = false) ->
  options_step opts (letter :: sep :: SP :: body) = opts.
Proof.
  intros Hletter Hsep Hstrip Hnl Hshort.
  destruct body as [|b0 body'] eqn:Hbody.
  - (* nothing after the separator: the pattern needs one character *)
    assert (Hcases : In letter [65; 66; 67; 68; 69; 70; 97; 98; 99; 100; 101; 102]).
    { unfold between in Hletter.
      apply orb_prop in Hletter as [H|H]; apply andb_prop in H as [H1 H2];
        apply N.leb_le in H1, H2; cbn [In]; lia. }
    cbn [In] in Hcases.
    destruct Hsep as [-> | ->];
      repeat (destruct Hcases as [<-|Hcases]; [vm_compute; reflexivity|]); contradiction.
  - rewrite <- Hbody in *.
    assert (Hne : body <> []) by (rewrite Hbody; discriminate).
    destruct (strip_fixed_parts body Hstrip) as [Hl Hr].
    assert (Hline : strip (letter :: sep :: SP :: body) = letter :: sep :: SP :: body).
    { unfold strip. rewrite (lstrip_fixed letter _ (option_letter_not_space letter Hletter)).
      exact (rstrip_fixed_app [letter; sep; SP] body Hne Hr). }
    destruct (option_line_match letter sep [SP] body Hletter Hsep eq_refl Hne Hl Hnl)
      as (m & Hm & _ & Hg2).
    cbn [app] in Hm.
    unfold options_step. rewrite Hline. cbn [is_empty]. rewrite Hm, Hg2, Hstrip.
    destruct (found IGNORECASE vote_phrases body); [reflexivity|].
    rewrite found_path_chars.
    destruct Hshort as [H2 | [H5 Hpath]].
    + apply Nat.ltb_lt in H2. now rewrite H2.
    + apply Nat.ltb_lt in H5. rewrite H5, Hpath. now rewrite orb_true_r.
Qed.

(** C7: a line made of a letter A..F (either case), a full stop or a
    closing parenthesis, a space and a body is rejected when the body
    has fewer than 2 characters, and when it has fewer than 5 and none
    of them is path-like; the line "A. x" adds no option, the line
    "A. ~/bin/script.sh" adds option A. *)
Theorem option_extraction_rejects_noise :
  (forall (opts : gmap (list N) (list N)) (letter sep : N) (body : list N),
      between 65 70 letter || between 97 102 letter = true ->
      sep = 46 \/ sep = 41 ->
      strip body = body ->
      no_newline body = true ->
      (length body < 2)%nat \/ ((length body < 5)%nat /\ List.existsb path_like body = false) ->
      options_step opts (letter :: sep :: SP :: body) = opts)
  /\ (forall opts : gmap (list N) (list N), options_step opts (str "A. x") = opts)
  /\ _extract_answer_options (str "A. x") = ∅
  /\ (forall opts : gmap (list N) (list N),
        opts !! str "A" = None ->
        options_step opts (str "A. ~/bin/script.sh")
        = <[str "A" := str "~/bin/script.sh"]> opts)
  /\ _extract_answer_options (str "A. ~/bin/script.sh")
     = <[str "A" := str "~/bin/script.sh"]> ∅.
Proof.
  split; [exact options_step_rejects|].
  split.
  { intros opts. apply (options_step_rejects opts 65 46 (str "x")); try reflexivity.
    - left. reflexivity.
    - left. cbn. lia. }
  split; [vm_compute; reflexivity|].
  split; [|vm_compute; reflexivity].
  intros opts Hfree.
  destruct (option_line_match 65 46 [SP] (str "~/bin/script.sh"))
    as (m & Hm & Hg1 & Hg2); try reflexivity; [left; reflexivity | discriminate |].
  unfold options_step.
  replace (strip (str "A. ~/bin/script.sh")) with (65 :: 46 :: [SP] ++ str "~/bin/script.sh")
    by (vm_compute; reflexivity).
  cbn [is_empty app]. cbn [app] in Hm. rewrite Hm, Hg1, Hg2.
  replace (strip (str "~/bin/script.sh")) with (str "~/bin/script.sh") by (vm_compute; reflexivity).
  replace (found IGNORECASE vote_phrases (str "~/bin/script.sh")) with false
    by (vm_compute; reflexivity).
  replace (length (str "~/bin/script.sh")) with 15%nat by (vm_compute; reflexivity).
  cbn [Nat.ltb Nat.leb orb andb].
  replace (apply_fixes option_ocr_fixes (str "~/bin/script.sh")) with (str "~/bin/script.sh")
    by (vm_compute; reflexivity).
  replace (upper [65]) with (str "A") by (vm_compute; reflexivity).
  now rewrite Hfree.
Qed.

Lemma option_extraction_rejects_noise_witness :
  options_step (<[str "B" := str "Cloud Storage"]> ∅) (str "A. x")
  = <[str "B" := str "Cloud Storage"]> ∅
  /\ options_step (<[str "B" := str "Cloud Storage"]> ∅) (str "c) a,b")
     = <[str "B" := str "Cloud Storage"]> ∅.
Proof.
  split.
  - apply (proj1 option_extraction_rejects_noise _ 65 46 (str "x")); try reflexivity.
    + left. reflexivity.
    + left. cbn. lia.
  - apply (proj1 option_extraction_rejects_noise _ 99 41 (str "a,b")); try reflexivity.
    + right. reflexivity.
    + right. split; [cbn; lia | reflexivity].
Defined.

(** ** Boundary detection *)

(** In the five-question document with option lines longer than 15
    characters, the span of question 2 holds option lines of
    question 1. *)
Lemma long_options_leak_into_next_span :
  let boundaries := PDFProcessor.identify_question_boundaries [synthetic_page long_option] in
  List.map question_header boundaries = List.map marker_line [1; 2; 3; 4; 5]%nat
  /\ long_option 1 1 = str "A. Option A of question 1"
  /\ In (long_option 1 1) (own_options long_option 1)
  /\ ~ In (long_option 1 1) (own_options long_option 2)
  /\ In (long_option 1 1) (content_lines (nth 1 boundaries (boundary_at (synthetic_page long_option) [] 0 []))).
Proof.
  intros boundaries. subst boundaries.
  split; [vm_compute; reflexivity|]. split; [vm_compute; reflexivity|].
  split; [left; reflexivity|].
  split.
  - vm_compute. intros H. repeat (destruct H as [H|H]; [discriminate H|]). exact H.
  - vm_compute. right. left. reflexivity.
Qed.

Lemma split_on_no_sep (s : list N) : no_newline s = true -> split_on NL s = [s].
Proof.
  induction s as [|c s IH]; [reflexivity|]. cbn [no_newline List.forallb split_on].
  intros [Hc Hs]%andb_prop. apply negb_true_iff in Hc. rewrite Hc.
  now rewrite (IH Hs).
Qed.

Lemma split_on_app_sep (p rest : list N) :
  no_newline p = true -> split_on NL (p ++ NL :: rest) = p :: split_on NL rest.
Proof.
  induction p as [|c p IH]; [reflexivity|]. cbn [no_newline List.forallb app split_on].
  intros [Hc Hp]%andb_prop. apply negb_true_iff in Hc. rewrite Hc.
  now rewrite (IH Hp).
Qed.

(** Splitting what was joined gives the lines back. *)
Lemma split_join (lines : list (list N)) :
  lines <> [] -> List.forallb no_newline lines = true ->
  split_on NL (join [NL] lines) = lines.
Proof.
  induction lines as [|p lines IH]; [contradiction|]. intros _.
  cbn [List.forallb]. intros [Hp Hlines]%andb_prop.
  destruct lines as [|q lines].
  - cbn [join]. now apply split_on_no_sep.
  - change (join [NL] (p :: q :: lines)) with (p ++ NL :: join [NL] (q :: lines)).
    rewrite (split_on_app_sep p _ Hp). rewrite IH; [reflexivity | discriminate | exact Hlines].
Qed.

(** The line loop opens one boundary per marker line, in order. *)
Lemma lines_loop_finish (page : PDFProcessor.PageContent) (text_lines todo : list (list N))
    (i : nat) (acc : option boundary * list boundary) :
  finish (PDFProcessor.lines_loop page text_lines i todo acc)
  = finish acc ++ boundaries_from page text_lines i todo.
Proof.
  revert i acc. induction todo as [|line todo IH]; intros i acc.
  - cbn. now rewrite app_nil_r.
  - cbn [PDFProcessor.lines_loop boundaries_from].
    destruct (PDFProcessor.is_marker (strip line)); [|apply IH].
    rewrite IH. unfold finish at 1. cbn [fst snd].
    change (PDFProcessor.look_back text_lines i ++ [strip line]
            ++ PDFProcessor.look_ahead text_lines i)
      with (content_lines (boundary_at page text_lines i line)).
    fold (finish acc). now rewrite <- app_assoc.
Qed.

Lemma identify_single_page (page : PDFProcessor.PageContent) :
  PDFProcessor.identify_question_boundaries [page]
  = boundaries_from page (split_on NL (PDFProcessor.pc_text page)) 0
      (split_on NL (PDFProcessor.pc_text page)).
Proof.
  unfold PDFProcessor.identify_question_boundaries. cbn [fold_left].
  unfold PDFProcessor.page_step.
  pose proof (lines_loop_finish page (split_on NL (PDFProcessor.pc_text page))
                (split_on NL (PDFProcessor.pc_text page)) 0 (None, [])) as H.
  destruct (PDFProcessor.lines_loop _ _ _ _ _) as [cur qs]. exact H.
Qed.

Lemma boundaries_from_marker (page : PDFProcessor.PageContent)
    (text_lines : list (list N)) (i : nat) (line : list N) (todo : list (list N)) :
  PDFProcessor.is_marker (strip line) = true ->
  boundaries_from page text_lines i (line :: todo)
  = boundary_at page text_lines i line :: boundaries_from page text_lines (S i) todo.
Proof. intros H. cbn [boundaries_from]. now rewrite H. Qed.

Lemma boundaries_from_other (page : PDFProcessor.PageContent)
    (text_lines : list (list N)) (i : nat) (line : list N) (todo : list (list N)) :
  PDFProcessor.is_marker (strip line) = false ->
  boundaries_from page text_lines i (line :: todo)
  = boundaries_from page text_lines (S i) todo.
Proof. intros H. cbn [boundaries_from]. now rewrite H. Qed.

Lemma collect_following_keep (raw : list N) (following : list (list N)) :
  nonempty (strip raw) = true -> PDFProcessor.is_marker (strip raw) = false ->
  PDFProcessor.collect_following (raw :: following)
  = strip raw :: PDFProcessor.collect_following following.
Proof. intros H1 H2. cbn [PDFProcessor.collect_following]. now rewrite H1, H2. Qed.

Lemma collect_following_stop (raw : list N) (following : list (list N)) :
  nonempty (strip raw) = true -> PDFProcessor.is_marker (strip raw) = true ->
  PDFProcessor.collect_following (raw :: following) = [].
Proof. intros H1 H2. cbn [PDFProcessor.collect_following]. now rewrite H1, H2. Qed.

Lemma filter_keep {A} (f : A -> bool) (x : A) (l : list A) :
  f x = true -> List.filter f (x :: l) = x :: List.filter f l.
Proof. intros H. cbn [List.filter]. now rewrite H. Qed.

Lemma filter_drop {A} (f : A -> bool) (x : A) (l : list A) :
  f x = false -> List.filter f (x :: l) = List.filter f l.
Proof. intros H. cbn [List.filter]. now rewrite H. Qed.

Lemma marker_lines_facts (k : nat) :
  In k [1; 2; 3; 4; 5]%nat ->
  strip (marker_line k) = marker_line k
  /\ no_newline (marker_line k) = true
  /\ nonempty (strip (marker_line k)) = true
  /\ PDFProcessor.is_marker (strip (marker_line k)) = true
  /\ PDFProcessor.keep_context (strip (marker_line k)) = true.
Proof.
  cbn [In]. intros H.
  repeat (destruct H as [<-|H]; [repeat split; vm_compute; reflexivity|]). contradiction.
Qed.

Lemma short_line_not_context (s : list N) :
  (length s <= 15)%nat -> PDFProcessor.keep_context s = false.
Proof.
  intros H. unfold PDFProcessor.keep_context.
  replace (15 <? length s)%nat with false by (symmetry; apply Nat.ltb_ge; exact H).
  now rewrite andb_false_r.
Qed.

(** C3 (amended): for the synthetic five-question document, whatever
    its option lines (each within one line, not blank, not itself a
    marker), boundary detection returns exactly five spans in document
    order; the lines of span k are the look-back context (what
    [keep_context] retains of the lines before marker k: earlier
    markers and earlier option lines longer than 15 characters), then
    marker k, then the four option lines of question k, and never a
    line of a later question.  When no option line is longer than 15
    characters the context is the earlier markers only, so each span
    holds its own four options and no option line of another
    question. *)
Theorem synthetic_document_spans (opt : nat -> nat -> list N) :
  (forall k j, no_newline (opt k j) = true) ->
  (forall k j, nonempty (strip (opt k j)) = true) ->
  (forall k j, PDFProcessor.is_marker (strip (opt k j)) = false) ->
  let boundaries := PDFProcessor.identify_question_boundaries [synthetic_page opt] in
  List.map question_header boundaries = List.map marker_line [1; 2; 3; 4; 5]%nat
  /\ List.map content_lines boundaries
     = List.map (fun k => context_of opt k ++ marker_line k :: List.map strip (own_options opt k))
         [1; 2; 3; 4; 5]%nat
  /\ ((forall k j, (length (strip (opt k j)) <= 15)%nat) ->
      List.map content_lines boundaries
      = List.map (fun k => List.map marker_line (seq 1 (k - 1))
                           ++ marker_line k :: List.map strip (own_options opt k))
          [1; 2; 3; 4; 5]%nat).
Proof.
  intros Hnl Hne Hnm boundaries. subst boundaries.
  destruct (marker_lines_facts 1) as (S1 & N1 & E1 & M1 & K1); [cbn; tauto|].
  destruct (marker_lines_facts 2) as (S2 & N2 & E2 & M2 & K2); [cbn; tauto|].
  destruct (marker_lines_facts 3) as (S3 & N3 & E3 & M3 & K3); [cbn; tauto|].
  destruct (marker_lines_facts 4) as (S4 & N4 & E4 & M4 & K4); [cbn; tauto|].
  destruct (marker_lines_facts 5) as (S5 & N5 & E5 & M5 & K5); [cbn; tauto|].
  rewrite identify_single_page. cbn [PDFProcessor.pc_text synthetic_page].
  rewrite split_join.
  2: { unfold synthetic_lines. cbn [flat_map app]. discriminate. }
  2: { unfold synthetic_lines, own_options. cbn [flat_map List.map app List.forallb].
       rewrite N1, N2, N3, N4, N5, !Hnl. reflexivity. }
  unfold synthetic_lines, own_options. cbn [flat_map List.map app].
  set (L := (marker_line 1 :: _)).
  set (page := synthetic_page opt).
  assert (HB : boundaries_from page L 0 L
               = [boundary_at page L 0 (marker_line 1); boundary_at page L 5 (marker_line 2);
                  boundary_at page L 10 (marker_line 3); boundary_at page L 15 (marker_line 4);
                  boundary_at page L 20 (marker_line 5)]).
  { unfold L at 2.
    repeat first [ rewrite boundaries_from_marker by assumption
                 | rewrite boundaries_from_other by apply Hnm ].
    reflexivity. }
  rewrite HB. clear HB.
  cbn [List.map question_header content_lines boundary_at].
  assert (HA : forall k j rest, PDFProcessor.collect_following (opt k j :: rest)
                                = strip (opt k j) :: PDFProcessor.collect_following rest).
  { intros k j rest. apply collect_following_keep; [apply Hne | apply Hnm]. }
  assert (A1 : PDFProcessor.look_ahead L 0 = List.map strip (List.map (opt 1%nat) [1; 2; 3; 4]%nat)).
  { unfold PDFProcessor.look_ahead, L. cbn [skipn firstn List.map]. rewrite !HA.
    now rewrite collect_following_stop by assumption. }
  assert (A2 : PDFProcessor.look_ahead L 5 = List.map strip (List.map (opt 2%nat) [1; 2; 3; 4]%nat)).
  { unfold PDFProcessor.look_ahead, L. cbn [skipn firstn List.map]. rewrite !HA.
    now rewrite collect_following_stop by assumption. }
  assert (A3 : PDFProcessor.look_ahead L 10 = List.map strip (List.map (opt 3%nat) [1; 2; 3; 4]%nat)).
  { unfold PDFProcessor.look_ahead, L. cbn [skipn firstn List.map]. rewrite !HA.
    now rewrite collect_following_stop by assumption. }
  assert (A4 : PDFProcessor.look_ahead L 15 = List.map strip (List.map (opt 4%nat) [1; 2; 3; 4]%nat)).
  { unfold PDFProcessor.look_ahead, L. cbn [skipn firstn List.map]. rewrite !HA.
    now rewrite collect_following_stop by assumption. }
  assert (A5 : PDFProcessor.look_ahead L 20 = List.map strip (List.map (opt 5%nat) [1; 2; 3; 4]%nat)).
  { unfold PDFProcessor.look_ahead, L. cbn [skipn firstn List.map]. rewrite !HA.
    reflexivity. }
  assert (B1 : PDFProcessor.look_back L 0 = context_of opt 1).
  { unfold PDFProcessor.look_back, context_of, lines_before, synthetic_lines, own_options, L.
    cbn [Nat.sub Nat.mul Nat.add firstn skipn flat_map List.map app]. reflexivity. }
  assert (B2 : PDFProcessor.look_back L 5 = context_of opt 2).
  { unfold PDFProcessor.look_back, context_of, lines_before, synthetic_lines, own_options, L.
    cbn [Nat.sub Nat.mul Nat.add firstn skipn flat_map List.map app]. reflexivity. }
  assert (B3 : PDFProcessor.look_back L 10 = context_of opt 3).
  { unfold PDFProcessor.look_back, context_of, lines_before, synthetic_lines, own_options, L.
    cbn [Nat.sub Nat.mul Nat.add firstn skipn flat_map List.map app]. reflexivity. }
  assert (B4 : PDFProcessor.look_back L 15 = context_of opt 4).
  { unfold PDFProcessor.look_back, context_of, lines_before, synthetic_lines, own_options, L.
    cbn [Nat.sub Nat.mul Nat.add firstn skipn flat_map List.map app]. reflexivity. }
  assert (B5 : PDFProcessor.look_back L 20 = context_of opt 5).
  { unfold PDFProcessor.look_back, context_of, lines_before, synthetic_lines, own_options, L.
    cbn [Nat.sub Nat.mul Nat.add firstn skipn flat_map List.map app]. reflexivity. }
  rewrite A1, A2, A3, A4, A5, B1, B2, B3, B4, B5, S1, S2, S3, S4, S5.
  cbn [List.map app].
  split; [reflexivity|]. split; [reflexivity|].
  intros Hshort.
  assert (HD : forall k j rest, List.filter PDFProcessor.keep_context (strip (opt k j) :: rest)
                                = List.filter PDFProcessor.keep_context rest).
  { intros k j rest. apply filter_drop, short_line_not_context, Hshort. }
  assert (C1 : context_of opt 1 = []) by reflexivity.
  assert (C2 : context_of opt 2 = [marker_line 1]).
  { unfold context_of, lines_before, synthetic_lines, own_options.
    cbn [Nat.mul Nat.sub Nat.add firstn flat_map List.map app].
    rewrite filter_keep by assumption. rewrite !HD. now rewrite S1. }
  assert (C3 : context_of opt 3 = [marker_line 1; marker_line 2]).
  { unfold context_of, lines_before, synthetic_lines, own_options.
    cbn [Nat.mul Nat.sub Nat.add firstn flat_map List.map app].
    repeat first [rewrite filter_keep by assumption | rewrite HD]. now rewrite S1, S2. }
  assert (C4 : context_of opt 4 = [marker_line 1; marker_line 2; marker_line 3]).
  { unfold context_of, lines_before, synthetic_lines, own_options.
    cbn [Nat.mul Nat.sub Nat.add firstn flat_map List.map app].
    repeat first [rewrite filter_keep by assumption | rewrite HD]. now rewrite S1, S2, S3. }
  assert (C5 : context_of opt 5 = [marker_line 1; marker_line 2; marker_line 3; marker_line 4]).
  { unfold context_of, lines_before, synthetic_lines, own_options.
    cbn [Nat.mul Nat.sub Nat.add firstn flat_map List.map app].
    repeat first [rewrite filter_keep by assumption | rewrite HD]. now rewrite S1, S2, S3, S4. }
  rewrite C1, C2, C3, C4, C5. reflexivity.
Qed.

Lemma short_option_facts (k j : nat) :
  no_newline (short_option k j) = true
  /\ nonempty (strip (short_option k j)) = true
  /\ PDFProcessor.is_marker (strip (short_option k j)) = false
  /\ (length (strip (short_option k j)) <= 15)%nat.
Proof.
  set (ok := fun s : list N =>
               no_newline s && nonempty (strip s) && negb (PDFProcessor.is_marker (strip s))
               && (length (strip s) <=? 15)%nat).
  assert (Hall : List.forallb ok (str "A. a0" :: List.concat short_option_table) = true)
    by (vm_compute; reflexivity).
  assert (Hin : In (short_option k j) (str "A. a0" :: List.concat short_option_table)).
  { unfold short_option.
    destruct (nth_in_or_default (k - 1) short_option_table []) as [Hrow | Hrow].
    - destruct (nth_in_or_default (j - 1) (nth (k - 1) short_option_table []) (str "A. a0"))
        as [Hcell | Hcell].
      + right. apply in_concat. eauto.
      + left. now rewrite Hcell.
    - rewrite Hrow. left. now destruct (j - 1)%nat. }
  rewrite List.forallb_forall in Hall. specialize (Hall _ Hin). unfold ok in Hall.
  apply andb_prop in Hall as [Hall H4]. apply andb_prop in Hall as [Hall H3].
  apply andb_prop in Hall as [H1 H2].
  apply negb_true_iff in H3. apply Nat.leb_le in H4. auto.
Qed.

Lemma synthetic_document_spans_witness :
  List.map (List.map show)
    (List.map content_lines
       (PDFProcessor.identify_question_boundaries [synthetic_page short_option]))
  = [ ["Question #1 Topic 1"; "A. a1"; "B. b1"; "C. c1"; "D. d1"];
      ["Question #1 Topic 1"; "Question #2 Topic 1"; "A. a2"; "B. b2"; "C. c2"; "D. d2"];
      ["Question #1 Topic 1"; "Question #2 Topic 1"; "Question #3 Topic 1";
       "A. a3"; "B. b3"; "C. c3"; "D. d3"];
      ["Question #1 Topic 1"; "Question #2 Topic 1"; "Question #3 Topic 1";
       "Question #4 Topic 1"; "A. a4"; "B. b4"; "C. c4"; "D. d4"];
      ["Question #1 Topic 1"; "Question #2 Topic 1"; "Question #3 Topic 1";
       "Question #4 Topic 1"; "Question #5 Topic 1"; "A. a5"; "B. b5"; "C. c5"; "D. d5"] ]%string.
Proof.
  destruct (synthetic_document_spans short_option
              (fun k j => proj1 (short_option_facts k j))
              (fun k j => proj1 (proj2 (short_option_facts k j)))
              (fun k j => proj1 (proj2 (proj2 (short_option_facts k j)))))
    as (_ & _ & Hshort).
  rewrite (Hshort (fun k j => proj2 (proj2 (proj2 (short_option_facts k j))))).
  vm_compute. reflexivity.
Defined.

(** * Further properties of the code *)

From Stdlib Require DecimalPos.

(** ** What a match consumes and captures *)

Lemma in_firstn {A} (x : A) (n : nat) (l : list A) : In x (firstn n l) -> In x l.
Proof.
  revert n. induction l as [|y l IH]; intros [|n]; cbn; try tauto.
  intros [H|H]; [now left | right; now apply (IH n)].
Qed.

Lemma reach_refl (G : list nat) (st : mstate) : reach G st st.
Proof. split; [exists []|exists []]; auto. Qed.

Lemma reach_trans (G : list nat) (st1 st2 st3 : mstate) :
  reach G st1 st2 -> reach G st2 st3 -> reach G st1 st3.
Proof.
  intros [(p1 & Hr1 & Hb1) (n1 & Hc1 & Hf1)] [(p2 & Hr2 & Hb2) (n2 & Hc2 & Hf2)]. split.
  - exists (p1 ++ p2). rewrite Hr1, Hr2, Hb2, Hb1, rev_app_distr, <- !app_assoc. auto.
  - exists (n2 ++ n1). rewrite Hc2, Hc1, <- app_assoc. split; [reflexivity|].
    apply List.Forall_app; split; [|exact Hf1].
    eapply List.Forall_impl; [|exact Hf2]. intros e [He Hi]. split; [exact He|].
    intros c Hc. rewrite Hr1. apply in_or_app. right. now apply Hi.
Qed.

Lemma reach_mono (G G' : list nat) (st st' : mstate) :
  (forall n, In n G -> In n G') -> reach G st st' -> reach G' st st'.
Proof.
  intros Hsub [Hpre (new & Hc & Hf)]. split; [exact Hpre|]. exists new. split; [exact Hc|].
  eapply List.Forall_impl; [|exact Hf]. intros e [He Hi]. split; [now apply Hsub | exact Hi].
Qed.

(** A repetition reaches only states its body can reach. *)
Lemma rep_loop_reach (G : list nat) (body : mstate -> cont -> option mstate)
    (lo : nat) (hi : option nat) (greedy : bool) :
  (forall st k res, body st k = Some res -> exists st', reach G st st' /\ k st' = Some res) ->
  forall (fuel count : nat) (st : mstate) (k : cont) (res : mstate),
    rep_loop body lo hi greedy fuel count st k = Some res ->
    exists st', reach G st st' /\ k st' = Some res.
Proof.
  intros Hbody. induction fuel as [|fuel IH]; intros count st k res H.
  - cbn [rep_loop] in H. destruct (lo <=? count)%nat; [|discriminate].
    exists st. split; [apply reach_refl | exact H].
  - cbn [rep_loop] in H.
    assert (Hstop : (if (lo <=? count)%nat then k st else None) = Some res ->
                    exists st', reach G st st' /\ k st' = Some res).
    { destruct (lo <=? count)%nat; [|discriminate]. intros E. exists st.
      split; [apply reach_refl | exact E]. }
    assert (Hagain :
      (if below hi count
       then body st (fun st' => if (length (rest st') <? length (rest st))%nat
                                then rep_loop body lo hi greedy fuel (S count) st' k
                                else None)
       else None) = Some res ->
      exists st', reach G st st' /\ k st' = Some res).
    { destruct (below hi count); [|discriminate]. intros E.
      apply Hbody in E as (st1 & Hr1 & E1).
      destruct (length (rest st1) <? length (rest st))%nat; [|discriminate].
      apply IH in E1 as (st2 & Hr2 & E2). exists st2. split; [|exact E2].
      eapply reach_trans; eassumption. }
    destruct greedy.
    + destruct (if below hi count then _ else None) eqn:E.
      * injection H as ->. now apply Hagain.
      * now apply Hstop.
    + destruct (if (lo <=? count)%nat then k st else None) eqn:E.
      * injection H as ->. now apply Hstop.
      * now apply Hagain.
Qed.

Lemma one_char_reach (G : list nat) (p : N -> bool) (st : mstate) (k : cont) (res : mstate) :
  one_char p st k = Some res -> exists st', reach G st st' /\ k st' = Some res.
Proof.
  unfold one_char. destruct (rest st) as [|d tl] eqn:E; [discriminate|].
  destruct (p d); [|discriminate]. intros H. exists (advance st d tl). split; [|exact H].
  split; [exists [d] | exists []]; cbn; rewrite ?E; auto.
Qed.

(** Every successful match hands its continuation a state further on
    in the subject; the groups captured on the way are the pattern's
    own, and each holds characters of the subject. *)
Lemma rmatch_reach (fl : flags) (r : regex) :
  forall (st : mstate) (k : cont) (res : mstate),
    rmatch fl r st k = Some res ->
    exists st', reach (groups r) st st' /\ k st' = Some res.
Proof.
  induction r as [ | c | | its | its | r1 IH1 r2 IH2 | r1 IH1 r2 IH2 | r' IH lo hi greedy
                 | n r' IH | | | | r' IH ]; intros st k res H; cbn [rmatch groups] in *.
  - exists st. split; [apply reach_refl | exact H].
  - eapply one_char_reach. exact H.
  - eapply one_char_reach. exact H.
  - eapply one_char_reach. exact H.
  - eapply one_char_reach. exact H.
  - apply IH1 in H as (st1 & Hr1 & H). apply IH2 in H as (st2 & Hr2 & H).
    exists st2. split; [|exact H].
    eapply reach_trans; (eapply reach_mono; [|eassumption]); intros m Hm; apply in_app_iff; auto.
  - destruct (rmatch fl r1 st k) eqn:E.
    + injection H as ->. apply IH1 in E as (st1 & Hr1 & E). exists st1. split; [|exact E].
      eapply reach_mono; [|eassumption]. intros m Hm; apply in_app_iff; auto.
    + apply IH2 in H as (st2 & Hr2 & H). exists st2. split; [|exact H].
      eapply reach_mono; [|eassumption]. intros m Hm; apply in_app_iff; auto.
  - eapply rep_loop_reach; [|exact H]. exact IH.
  - apply IH in H as (st1 & [(pre & Hpre & Hbef) (new & Hc & Hf)] & H).
    exists (set_cap n st st1). split; [|exact H]. split; [now exists pre|].
    exists ((n, firstn (length (rest st) - length (rest st1)) (rest st)) :: new).
    cbn [set_cap caps]. rewrite Hc. split; [reflexivity|].
    constructor.
    + split; [now left|]. cbn [snd]. intros c Hc'. eapply in_firstn. exact Hc'.
    + eapply List.Forall_impl; [|exact Hf]. intros e [He Hi]. split; [now right | exact Hi].
  - destruct (at_bol fl st); [|discriminate]. exists st. split; [apply reach_refl | exact H].
  - destruct (at_eol fl st); [|discriminate]. exists st. split; [apply reach_refl | exact H].
  - destruct (at_wordb st); [|discriminate]. exists st. split; [apply reach_refl | exact H].
  - destruct (rmatch fl r' st Some); [|discriminate].
    exists st. split; [apply reach_refl | exact H].
Qed.

(** Where a search finds its match. *)
Lemma search_from_inv (fl : flags) (r : regex) (s bef : list N) (m : rmatch_result) :
  search_from fl r bef s = Some m ->
  exists pre, s = pre ++ rest (m_from m)
              /\ before (m_from m) = rev pre ++ bef
              /\ caps (m_from m) = []
              /\ rmatch fl r (m_from m) Some = Some (m_to m).
Proof.
  revert bef. induction s as [|c s IH]; intros bef; cbn [search_from]; unfold try_at.
  - destruct (rmatch fl r {| before := bef; rest := []; caps := [] |} Some) eqn:E;
      [|discriminate].
    intros H. injection H as H. subst m. exists [].
    cbn [m_from m_to rest before caps app rev]. auto.
  - destruct (rmatch fl r {| before := bef; rest := c :: s; caps := [] |} Some) eqn:E.
    + intros H. injection H as H. subst m. exists [].
      cbn [m_from m_to rest before caps app rev]. auto.
    + intros H. apply IH in H as (pre & Hs & Hb & Hc & Hm). exists (c :: pre).
      cbn [app rev]. rewrite <- app_assoc, Hb, <- Hs. auto.
Qed.

(** The text of a match: [group0] is what lies between its two ends. *)
Lemma match_text (fl : flags) (r : regex) (s bef : list N) (m : rmatch_result) :
  search_from fl r bef s = Some m ->
  exists pre, s = pre ++ group0 m ++ rest (m_to m)
              /\ rest (m_from m) = group0 m ++ rest (m_to m)
              /\ m_start m = (length bef + length pre)%nat.
Proof.
  intros H. apply search_from_inv in H as (pre & Hs & Hb & _ & Hm).
  apply rmatch_reach in Hm as (st' & [(mid & Hr & _) _] & [= ->]).
  assert (Hg : group0 m = mid).
  { unfold group0. rewrite Hr, length_app, Nat.add_sub.
    clear. induction mid as [|c mid IH]; cbn; [now destruct (rest (m_to m))|now rewrite IH]. }
  exists pre. unfold m_start. rewrite Hg, <- Hr, Hb, length_app, length_rev.
  split; [exact Hs|]. split; [reflexivity | lia].
Qed.

(** The groups of a found match hold characters of the subject. *)
Lemma search_groups_incl (fl : flags) (r : regex) (s bef : list N) (m : rmatch_result) (n : nat) :
  search_from fl r bef s = Some m -> incl (group n m) s.
Proof.
  intros H. apply search_from_inv in H as (pre & Hs & _ & Hc & Hm).
  apply rmatch_reach in Hm as (st' & [_ (new & Hcaps & Hf)] & [= ->]).
  unfold group. rewrite Hcaps, Hc, app_nil_r. clear Hcaps. subst s.
  induction new as [|[i v] new IH]; cbn [assoc_nat]; [intros c []|].
  inversion Hf as [|e l [_ Hv] Hf']; subst.
  destruct (i =? n)%nat; [|now apply IH].
  intros c Hc'. apply in_or_app. right. now apply Hv.
Qed.

(** A substitution emits only characters of the subject and of the
    replacements. *)
Lemma sub_from_forall (P : N -> bool) (fl : flags) (r : regex)
    (repl : rmatch_result -> list N) :
  (forall bef s m, List.forallb P s = true -> search_from fl r bef s = Some m ->
                   List.forallb P (repl m) = true) ->
  forall (fuel : nat) (bef s : list N),
    List.forallb P s = true -> List.forallb P (sub_from fl fuel r repl bef s) = true.
Proof.
  intros Hrepl. induction fuel as [|fuel IH]; intros bef s Hs; [exact Hs|].
  cbn [sub_from]. destruct (search_from fl r bef s) as [m|] eqn:E; [|exact Hs].
  pose proof (Hrepl bef s m Hs E) as Hm.
  apply match_text in E as (pre & Heq & _ & Hstart).
  rewrite Hstart, Nat.add_comm, Nat.add_sub.
  rewrite Heq in Hs |- *. rewrite firstn_length_app.
  rewrite !forallb_app in Hs. apply andb_prop in Hs as [Hpre Hs].
  apply andb_prop in Hs as [_ Hrest].
  destruct (length (rest (m_to m)) <? length (rest (m_from m)))%nat.
  - rewrite !forallb_app, Hpre, Hm. cbn [andb]. now apply IH.
  - destruct (rest (m_to m)) as [|c tl].
    + now rewrite forallb_app, Hpre, Hm.
    + cbn [List.forallb] in Hrest. apply andb_prop in Hrest as [Hc Htl].
      rewrite !forallb_app. cbn [List.forallb]. rewrite Hpre, Hm, Hc. cbn [andb].
      now apply IH.
Qed.

Lemma re_sub_forall (P : N -> bool) (fl : flags) (r : regex) (repl s : list N) :
  List.forallb P repl = true -> List.forallb P s = true ->
  List.forallb P (re_sub fl r repl s) = true.
Proof. intros Hrepl Hs. unfold re_sub. apply sub_from_forall; auto. Qed.

(** What a repetition of a one-character test consumes. *)
Lemma rep_loop_one_char_inv (p : N -> bool) (lo : nat) (hi : option nat) (greedy : bool) :
  forall (fuel count : nat) (st : mstate) (k : cont) (res : mstate),
    rep_loop (one_char p) lo hi greedy fuel count st k = Some res ->
    exists run tl,
      rest st = run ++ tl /\ List.forallb p run = true /\ (lo <= count + length run)%nat
      /\ k {| before := rev run ++ before st; rest := tl; caps := caps st |} = Some res.
Proof.
  induction fuel as [|fuel IH]; intros count st k res H.
  - cbn [rep_loop] in H. destruct (lo <=? count)%nat eqn:Hlo; [|discriminate].
    apply Nat.leb_le in Hlo. exists [], (rest st). cbn [app rev length List.forallb].
    repeat split; [lia|]. now destruct st.
  - cbn [rep_loop] in H.
    assert (Hstop : (if (lo <=? count)%nat then k st else None) = Some res ->
      exists run tl,
        rest st = run ++ tl /\ List.forallb p run = true /\ (lo <= count + length run)%nat
        /\ k {| before := rev run ++ before st; rest := tl; caps := caps st |} = Some res).
    { destruct (lo <=? count)%nat eqn:Hlo; [|discriminate]. intros E.
      apply Nat.leb_le in Hlo. exists [], (rest st). cbn [app rev length List.forallb].
      repeat split; [lia|]. now destruct st. }
    assert (Hagain :
      (if below hi count
       then one_char p st (fun st' => if (length (rest st') <? length (rest st))%nat
                                      then rep_loop (one_char p) lo hi greedy fuel (S count) st' k
                                      else None)
       else None) = Some res ->
      exists run tl,
        rest st = run ++ tl /\ List.forallb p run = true /\ (lo <= count + length run)%nat
        /\ k {| before := rev run ++ before st; rest := tl; caps := caps st |} = Some res).
    { destruct (below hi count); [|discriminate]. unfold one_char.
      destruct (rest st) as [|d tl0] eqn:Hrest; [discriminate|].
      destruct (p d) eqn:Hd; [|discriminate].
      destruct (length (rest (advance st d tl0)) <? length (d :: tl0))%nat; [|discriminate].
      intros E. apply IH in E as (run & tl & Hr & Hrun & Hlo & Hk).
      cbn [advance rest before caps] in Hr, Hk.
      exists (d :: run), tl. cbn [app rev length List.forallb]. rewrite Hd, Hrun, Hr.
      repeat split; [lia|]. now rewrite <- app_assoc. }
    destruct greedy.
    + destruct (if below hi count then _ else None) eqn:E.
      * injection H as ->. now apply Hagain.
      * now apply Hstop.
    + destruct (if (lo <=? count)%nat then k st else None) eqn:E.
      * injection H as ->. now apply Hstop.
      * now apply Hagain.
Qed.

(** Joining the pieces of a split gives the text back. *)
Lemma join_split (s : list N) : join [NL] (split_on NL s) = s.
Proof.
  induction s as [|c s IH]; [reflexivity|]. cbn [split_on].
  assert (Hne : split_on NL s <> []).
  { destruct s as [|d s']; [discriminate|]. cbn [split_on].
    destruct (d =? NL); [discriminate|]. now destruct (split_on NL s'). }
  destruct (c =? NL) eqn:Hc.
  - apply N.eqb_eq in Hc. subst c. destruct (split_on NL s) as [|w ws]; [contradiction|].
    change (join [NL] ([] :: w :: ws)) with (NL :: join [NL] (w :: ws)). now rewrite IH.
  - destruct (split_on NL s) as [|w ws]; [contradiction|].
    rewrite <- IH. destruct ws; reflexivity.
Qed.

(** ** The confidence score of any question *)

(** X1: whatever the question, [_calculate_confidence] returns a score
    from 0 up to, but never reaching, 1: the four bonuses at their
    highest add up, in binary64, to 0.9999999999999999, so the final
    [min(score, 1.0)] never changes the sum. *)
Theorem confidence_between_zero_and_one (q : Question) :
  (0 <=? _calculate_confidence q)%float = true
  /\ (_calculate_confidence q <=? 0.9999999999999999)%float = true
  /\ (_calculate_confidence q <? 1)%float = true.
Proof.
  unfold _calculate_confidence.
  repeat match goal with
         | |- context [if ?b then _ else _] =>
             lazymatch b with
             | PrimFloat.ltb _ _ => fail
             | _ => destruct b
             end
         end;
    vm_compute; auto.
Qed.

(** ** What the header patterns capture *)

Lemma seq_reach (fl : flags) (a b : regex) (st : mstate) (k : cont) (res : mstate) :
  rmatch fl (Seq a b) st k = Some res ->
  exists st1, reach (groups a) st st1 /\ rmatch fl b st1 k = Some res.
Proof. cbn [rmatch]. intros H. now apply rmatch_reach in H. Qed.

Lemma reach_nil_caps (st st' : mstate) : reach [] st st' -> caps st' = caps st.
Proof.
  intros [_ (new & Hc & Hf)]. destruct new as [|e new]; [exact Hc|].
  inversion Hf as [|? ? [[] _] _].
Qed.

(** A pattern without groups in front of [b] leaves the captures as
    they were. *)
Lemma seq_skip (fl : flags) (a b : regex) (st : mstate) (k : cont) (res : mstate) :
  groups a = [] ->
  rmatch fl (Seq a b) st k = Some res ->
  exists st1, caps st1 = caps st /\ rmatch fl b st1 k = Some res.
Proof.
  intros Hg H. apply seq_reach in H as (st1 & Hr & H). rewrite Hg in Hr.
  exists st1. split; [now apply reach_nil_caps | exact H].
Qed.

(** A group around a repeated character set captures the run it read. *)
Lemma grp_rep_set_inv (fl : flags) (n : nat) (its : list item) (lo : nat) (hi : option nat)
    (greedy : bool) (st : mstate) (k : cont) (res : mstate) :
  rmatch fl (Grp n (Rep (In_ its) lo hi greedy)) st k = Some res ->
  exists run tl,
    rest st = run ++ tl /\ List.forallb (set_match fl its) run = true /\ (lo <= length run)%nat
    /\ k {| before := rev run ++ before st; rest := tl; caps := (n, run) :: caps st |} = Some res.
Proof.
  cbn [rmatch].
  change (fun (st0 : mstate) (k0 : cont) => one_char (set_match fl its) st0 k0)
    with (one_char (set_match fl its)).
  intros H. apply rep_loop_one_char_inv in H as (run & tl & Hr & Hrun & Hlo & H).
  exists run, tl. repeat split; try assumption.
  unfold set_cap in H. cbn [rest before caps] in H.
  rewrite Hr, length_app, Nat.add_sub, firstn_length_app in H. exact H.
Qed.

Lemma seq_grp_rep_set_inv (fl : flags) (n : nat) (its : list item) (lo : nat)
    (hi : option nat) (greedy : bool) (b : regex) (st : mstate) (k : cont) (res : mstate) :
  rmatch fl (Seq (Grp n (Rep (In_ its) lo hi greedy)) b) st k = Some res ->
  exists run tl,
    rest st = run ++ tl /\ List.forallb (set_match fl its) run = true /\ (lo <= length run)%nat
    /\ rmatch fl b {| before := rev run ++ before st; rest := tl; caps := (n, run) :: caps st |} k
       = Some res.
Proof.
  intros H.
  change (rmatch fl (Grp n (Rep (In_ its) lo hi greedy)) st (fun st' => rmatch fl b st' k)
          = Some res) in H.
  now apply grp_rep_set_inv in H.
Qed.

Lemma assoc_nat_after (G : list nat) (n : nat) (v : list N) (new l : list (nat * list N))
    (Q : nat * list N -> Prop) :
  Forall (fun e => In (fst e) G /\ Q e) new -> ~ In n G ->
  assoc_nat n (new ++ (n, v) :: l) = Some v.
Proof.
  intros Hf Hn. induction new as [|[i w] new IH]; cbn [app assoc_nat].
  - now rewrite Nat.eqb_refl.
  - inversion Hf as [|? ? [Hi _] Hf']; subst. cbn [fst] in Hi.
    destruct (Nat.eqb_spec i n) as [->|_]; [contradiction | now apply IH].
Qed.








(** ** Identifiers and parser state *)

Lemma separate_comments_tagged (txt question_id : list N) (page_number : Z)
    (source_file : list N) :
  Forall (fun c => QuestionParser.question_id c = question_id
                   /\ cc_page_number c = page_number /\ cc_source c = source_file)
    (snd (_separate_community_comments txt question_id page_number source_file)).
Proof.
  unfold _separate_community_comments. rewrite separate_fold. cbn [snd app].
  induction (List.filter _is_community_comment (split_on NL txt)) as [|l ls IH];
    cbn [omap list_omap _extract_community_comment]; constructor; [|exact IH].
  cbn. auto.
Qed.



(** One call of [parse_question_structure]: the fields of the result
    and the state after the call. *)
Lemma parse_structure_facts (cfg : config) (st : parser_state)
    (text_block : list N) (page : Z) (source_file source_pdf_path : list N) :
  match parse_question_structure cfg st text_block page source_file source_pdf_path with
  | (Some q, st') =>
      origin_of_question q = (page, source_file, text_block)
      /\ QuestionParser.source_pdf_path q = source_pdf_path
      /\ confidence_score q = _calculate_confidence q
      /\ topic q = _extract_topic text_block
      /\ description q = _extract_question_description text_block
      /\ options q = _extract_answer_options text_block
      /\ (minimum_question_length cfg <= length (strip text_block))%nat
      /\ (question_counter st <= question_counter st' <= question_counter st + 1)%Z
      /\ exists new,
           community_comments st' = community_comments st ++ new
           /\ Forall (fun c => question_id c = unique_id q
                               /\ cc_page_number c = page /\ cc_source c = source_file) new
  | (None, st') => st' = st
  end.
Proof.
  unfold parse_question_structure.
  destruct (is_empty text_block) eqn:He; cbn [orb]; [reflexivity|].
  destruct (length (strip text_block) <? minimum_question_length cfg)%nat eqn:Hlen;
    [reflexivity|].
  apply Nat.ltb_ge in Hlen.
  set (ids := match _extract_question_number text_block with
              | Some number => _ | None => _ end).
  destruct ids as [[original_number unique_id] counter] eqn:Eids.
  assert (Hcounter : (question_counter st <= counter <= question_counter st + 1)%Z).
  { subst ids. destruct (_extract_question_number text_block) as [number|].
    - destruct (nonempty number); injection Eids as <- <- <-; lia.
    - injection Eids as <- <- <-. lia. }
  pose proof (separate_comments_tagged text_block unique_id page source_file) as Htag.
  destruct (_separate_community_comments _ _ _ _) as [question_text extracted_comments].
  unfold set_confidence, origin_of_question.
  cbn [page_number source raw_content QuestionParser.source_pdf_path confidence_score topic
       description options question_counter community_comments QuestionParser.unique_id snd].
  repeat split; try assumption; try lia.
  exists extracted_comments. split; [reflexivity | exact Htag].
Qed.

(** ** The loop over the boundaries *)

Lemma pages_step_facts (cfg : config) (questions : list Question) (st : parser_state)
    (b : boundary) :
  exists (added : list Question) (new : list CommunityComment),
    pages_step cfg (questions, st) b
    = (questions ++ added,
       {| question_counter := question_counter (snd (pages_step cfg (questions, st) b));
          community_comments := community_comments st ++ new |})
    /\ sublist (List.map origin_of_question added) [origin_of_boundary b]
    /\ Forall (fun q => (minimum_confidence_score cfg <=? confidence_score q)%float = true
                        /\ confidence_score q = _calculate_confidence q
                        /\ (minimum_question_length cfg <= length (strip (raw_content q)))%nat)
         added
    /\ (question_counter st <= question_counter (snd (pages_step cfg (questions, st) b))
        <= question_counter st + 1)%Z
    /\ Forall (fun c => cc_page_number c = start_page b /\ cc_source c = source_file b) new.
Proof.
  unfold pages_step. fold (block_of b).
  pose proof (parse_structure_facts cfg st (block_of b) (start_page b) (source_file b) []) as H.
  destruct (parse_question_structure cfg st (block_of b) (start_page b) (source_file b) [])
    as [[q|] st'].
  - destruct H as (Ho & _ & Hc & _ & _ & _ & Hlen & Hcount & new & Hnew & Htag).
    assert (Hnew' : Forall (fun c => cc_page_number c = start_page b
                                     /\ cc_source c = source_file b) new).
    { eapply List.Forall_impl; [|exact Htag]. intros c (_ & H1 & H2). auto. }
    assert (Hraw : raw_content q = block_of b) by (now injection Ho).
    destruct st' as [counter' comments'].
    cbn [question_counter community_comments] in Hcount, Hnew. subst comments'.
    destruct (minimum_confidence_score cfg <=? confidence_score q)%float eqn:Ethr.
    + exists [q], new. cbn [snd question_counter].
      repeat split; try assumption; try lia.
      * cbn [List.map]. unfold origin_of_boundary. rewrite Ho. reflexivity.
      * constructor; [|constructor]. rewrite Hraw. auto.
    + exists [], new. cbn [snd question_counter]. rewrite app_nil_r.
      repeat split; try assumption; try lia.
      * apply sublist_nil_l.
      * constructor.
  - subst st'. exists [], []. cbn [snd]. rewrite !app_nil_r. destruct st.
    cbn [question_counter community_comments]. repeat split; try lia.
    + apply sublist_nil_l.
    + constructor.
    + constructor.
Qed.

Lemma pages_fold_facts (cfg : config) (boundaries : list boundary) :
  forall (questions : list Question) (st : parser_state),
  exists (added : list Question) (new : list CommunityComment),
    fold_left (pages_step cfg) boundaries (questions, st)
    = (questions ++ added,
       {| question_counter :=
            question_counter (snd (fold_left (pages_step cfg) boundaries (questions, st)));
          community_comments := community_comments st ++ new |})
    /\ sublist (List.map origin_of_question added) (List.map origin_of_boundary boundaries)
    /\ Forall (fun q => (minimum_confidence_score cfg <=? confidence_score q)%float = true
                        /\ confidence_score q = _calculate_confidence q
                        /\ (minimum_question_length cfg <= length (strip (raw_content q)))%nat)
         added
    /\ (question_counter st
        <= question_counter (snd (fold_left (pages_step cfg) boundaries (questions, st)))
        <= question_counter st + Z.of_nat (length boundaries))%Z
    /\ Forall (fun c => exists b, In b boundaries
                                  /\ cc_page_number c = start_page b
                                  /\ cc_source c = source_file b) new.
Proof.
  induction boundaries as [|b bs IH]; intros questions st.
  - exists [], []. cbn [fold_left snd length]. rewrite !app_nil_r. destruct st.
    cbn [question_counter community_comments]. repeat split; try lia; constructor.
  - cbn [fold_left].
    destruct (pages_step_facts cfg questions st b) as (a1 & n1 & E1 & S1 & F1 & C1 & T1).
    set (c1 := question_counter (snd (pages_step cfg (questions, st) b))) in *.
    rewrite E1.
    destruct (IH (questions ++ a1)
                {| question_counter := c1; community_comments := community_comments st ++ n1 |})
      as (a2 & n2 & E2 & S2 & F2 & C2 & T2).
    cbn [question_counter community_comments] in E2, C2.
    set (c2 := question_counter (snd (fold_left (pages_step cfg) bs _))) in *.
    exists (a1 ++ a2), (n1 ++ n2). rewrite E2, !app_assoc. cbn [snd question_counter].
    split; [reflexivity|]. split.
    { rewrite List.map_app. cbn [List.map].
      change (origin_of_boundary b :: List.map origin_of_boundary bs)
        with ([origin_of_boundary b] ++ List.map origin_of_boundary bs).
      now apply sublist_app. }
    split; [apply List.Forall_app; auto|]. split; [cbn [length]; lia|].
    apply List.Forall_app. split.
    + eapply List.Forall_impl; [|exact T1]. intros c [H1 H2]. exists b. split; [now left | auto].
    + eapply List.Forall_impl; [|exact T2]. intros c (b' & Hin & H1 & H2).
      exists b'. split; [now right | auto].
Qed.

(** X4: the questions [parse_questions_from_pages] returns.  Read as
    (page, source file, text block), they are a subsequence of the
    boundaries given, in the same order: nothing is invented, reordered
    or returned twice.  Each one reaches the configured confidence
    threshold, carries the score [_calculate_confidence] gives it, and
    has a stripped text block of at least the minimum question
    length. *)
Theorem returned_questions_come_from_boundaries (cfg : config) (st : parser_state)
    (boundaries : list boundary) :
  let questions := fst (parse_questions_from_pages cfg st boundaries) in
  sublist (List.map origin_of_question questions) (List.map origin_of_boundary boundaries)
  /\ (length questions <= length boundaries)%nat
  /\ Forall (fun q => (minimum_confidence_score cfg <=? confidence_score q)%float = true
                      /\ confidence_score q = _calculate_confidence q
                      /\ (minimum_question_length cfg <= length (strip (raw_content q)))%nat)
       questions.
Proof.
  unfold parse_questions_from_pages.
  destruct (pages_fold_facts cfg boundaries [] st) as (added & new & E & S & F & _ & _).
  rewrite E. cbn [fst app]. split; [exact S|]. split; [|exact F].
  apply sublist_length in S. now rewrite !length_map in S.
Qed.

(** X5: the parser state after [parse_questions_from_pages].  The
    counter never goes down and rises by at most one per boundary; the
    comments collected before the call are still there, in front, and
    every comment added carries the page and source file of one of the
    boundaries given. *)
Theorem parser_state_only_grows (cfg : config) (st : parser_state)
    (boundaries : list boundary) :
  let st' := snd (parse_questions_from_pages cfg st boundaries) in
  (question_counter st <= question_counter st'
   <= question_counter st + Z.of_nat (length boundaries))%Z
  /\ exists new,
       community_comments st' = community_comments st ++ new
       /\ Forall (fun c => exists b, In b boundaries
                                     /\ cc_page_number c = start_page b
                                     /\ cc_source c = source_file b) new.
Proof.
  unfold parse_questions_from_pages.
  destruct (pages_fold_facts cfg boundaries [] st) as (added & new & E & _ & _ & C & T).
  split; [exact C|]. exists new. split; [|exact T]. rewrite E. reflexivity.
Qed.

(** ** Similarity and duplicates, for all descriptions *)

Lemma gset_inter_size_le (w1 w2 : gset (list N)) : (size (w1 ∩ w2) <= size (w1 ∪ w2))%nat.
Proof. apply subseteq_size. set_solver. Qed.

Lemma gset_inter_union_eq (w1 w2 : gset (list N)) :
  size (w1 ∩ w2) = size (w1 ∪ w2) -> w1 = w2.
Proof.
  intros H.
  assert (E : w1 ∩ w2 = w1 ∪ w2) by (apply set_subseteq_size_eq; [set_solver | lia]).
  apply set_eq. intros x. split; intros Hx.
  - assert (Hx' : x ∈ w1 ∪ w2) by set_solver. rewrite <- E in Hx'. set_solver.
  - assert (Hx' : x ∈ w1 ∪ w2) by set_solver. rewrite <- E in Hx'. set_solver.
Qed.

Lemma gset_union_nonempty (w1 w2 : gset (list N)) : w1 <> ∅ -> (0 < size (w1 ∪ w2))%nat.
Proof.
  intros Hne. destruct (size (w1 ∪ w2)) eqn:E; [|lia].
  apply size_empty_inv in E. exfalso. apply Hne. apply set_eq. intros x. set_solver.
Qed.

(** What [_calculate_similarity] computes, in terms of the two word
    sets. *)
Lemma similarity_spec (text1 text2 : list N) :
  _calculate_similarity text1 text2
  = if bool_decide (word_set text1 = ∅) || bool_decide (word_set text2 = ∅) then 0%Q
    else (Z.of_nat (size (word_set text1 ∩ word_set text2))
          # Pos.of_nat (size (word_set text1 ∪ word_set text2)))%Q.
Proof.
  unfold _calculate_similarity. fold (word_set text1). fold (word_set text2).
  destruct text1 as [|c1 t1]; [reflexivity|].
  destruct text2 as [|c2 t2].
  - cbn [is_empty orb]. change (word_set []) with (∅ : gset (list N)).
    rewrite (bool_decide_eq_true_2 (∅ = ∅)) by reflexivity. now rewrite orb_true_r.
  - cbn [is_empty orb].
    destruct (bool_decide (word_set (c1 :: t1) = ∅)) eqn:E1; [reflexivity|].
    destruct (bool_decide (word_set (c2 :: t2) = ∅)) eqn:E2; [reflexivity|].
    cbn [orb]. apply bool_decide_eq_false in E1.
    pose proof (gset_union_nonempty _ (word_set (c2 :: t2)) E1) as Hpos.
    apply Nat.ltb_lt in Hpos. now rewrite Hpos.
Qed.

(** X6: the similarity of two descriptions lies between 0 and 1; it is
    1 exactly when both have the same, non-empty, set of lower-cased
    words, and 0 exactly when they share no word. *)
Theorem similarity_range_and_extremes (text1 text2 : list N) :
  (0 <= _calculate_similarity text1 text2)%Q
  /\ (_calculate_similarity text1 text2 <= 1)%Q
  /\ ((_calculate_similarity text1 text2 == 1)%Q
      <-> word_set text1 <> ∅ /\ word_set text1 = word_set text2)
  /\ ((_calculate_similarity text1 text2 == 0)%Q
      <-> word_set text1 ∩ word_set text2 = ∅).
Proof.
  rewrite similarity_spec.
  set (w1 := word_set text1). set (w2 := word_set text2). clearbody w1 w2.
  assert (Hzero : w1 = ∅ \/ w2 = ∅ ->
            (0 <= 0)%Q /\ (0 <= 1)%Q
            /\ ((0 == 1)%Q <-> w1 <> ∅ /\ w1 = w2)
            /\ ((0 == 0)%Q <-> w1 ∩ w2 = ∅)).
  { intros Hw. split; [easy|]. split; [easy|]. split; split.
    - intros H. discriminate H.
    - intros [H1 H2]. destruct Hw as [Hw|Hw]; [|rewrite H2 in H1]; contradiction.
    - intros _. apply set_eq. intros x. destruct Hw as [-> | ->]; set_solver.
    - reflexivity. }
  destruct (bool_decide (w1 = ∅)) eqn:E1.
  { apply bool_decide_eq_true in E1. cbn [orb]. apply Hzero. now left. }
  apply bool_decide_eq_false in E1.
  destruct (bool_decide (w2 = ∅)) eqn:E2.
  { apply bool_decide_eq_true in E2. cbn [orb]. apply Hzero. now right. }
  clear Hzero.
  apply bool_decide_eq_false in E2. cbn [orb].
  pose proof (gset_inter_size_le w1 w2) as Hle.
  pose proof (gset_union_nonempty w1 w2 E1) as Hpos.
  unfold Qle, Qeq. cbn [Qnum Qden]. rewrite !pos_of_nat_Z by exact Hpos.
  split; [lia|]. split; [lia|]. split; split.
  - intros H. split; [exact E1|].
    assert (Hs : size (w1 ∩ w2) = size (w1 ∪ w2)) by lia.
    now apply gset_inter_union_eq.
  - intros [_ <-]. rewrite gset_inter_self, gset_union_self. lia.
  - intros H. apply leibniz_equiv, size_empty_inv. lia.
  - intros ->. rewrite size_empty. lia.
Qed.

Lemma above_threshold (s : Q) : Qle_bool s (8 # 10) = false <-> (8 # 10 < s)%Q.
Proof.
  split; intros H.
  - apply Qnot_le_lt. intros Hle. apply Qle_bool_iff in Hle. congruence.
  - destruct (Qle_bool s (8 # 10)) eqn:E; [|reflexivity].
    apply Qle_bool_iff in E. now apply Qlt_not_le in H.
Qed.

(** X7: [identify_duplicates] reports exactly the pairs of questions
    at positions i < j whose similarity (the exact quotient of the two
    set sizes) is above 0.8, each with the identifiers of the two
    questions, the earlier one first, and that similarity. *)
Theorem duplicates_are_the_similar_pairs (questions : list Question)
    (id1 id2 : list N) (s : Q) :
  In (id1, id2, s) (identify_duplicates questions)
  <-> exists (i j : nat) (q1 q2 : Question),
        (i < j)%nat
        /\ nth_error questions i = Some q1 /\ nth_error questions j = Some q2
        /\ id1 = unique_id q1 /\ id2 = unique_id q2
        /\ s = _calculate_similarity (description q1) (description q2)
        /\ (8 # 10 < s)%Q.
Proof.
  induction questions as [|q later IH].
  - cbn [identify_duplicates In]. split; [contradiction|].
    intros (i & j & q1 & q2 & _ & H & _). destruct i; discriminate H.
  - cbn [identify_duplicates]. rewrite in_app_iff, List.in_flat_map, IH. clear IH. split.
    + intros [(q2 & Hin & Hpair) | (i & j & q1 & q2 & Hlt & H1 & H2 & Hrest)].
      * destruct (Qle_bool _ _) eqn:E; [contradiction|].
        destruct Hpair as [[= <- <- <-]|[]].
        apply In_nth_error in Hin as (j & Hj).
        exists 0%nat, (S j), q, q2. cbn [nth_error].
        repeat split; try assumption; try lia. now apply above_threshold.
      * exists (S i), (S j), q1, q2. cbn [nth_error]. split; [lia | auto].
    + intros (i & j & q1 & q2 & Hlt & H1 & H2 & -> & -> & -> & Hs).
      destruct j as [|j]; [lia|]. cbn [nth_error] in H2.
      destruct i as [|i].
      * injection H1 as ->. left. exists q2. split; [eapply nth_error_In; eassumption|].
        apply above_threshold in Hs. rewrite Hs. now left.
      * right. exists i, j, q1, q2. cbn [nth_error] in H1. repeat split; try assumption; lia.
Qed.

(** ** The topic of a question *)


Lemma service_names_nonempty (service : string) : In service gcp_services -> str service <> [].
Proof.
  unfold gcp_services. cbn [In]. intros Hin.
  repeat (destruct Hin as [<-|Hin]; [discriminate|]). contradiction.
Qed.

Lemma extract_topic_nonempty (txt : list N) : _extract_topic txt <> [].
Proof.
  unfold _extract_topic.
  destruct (re_search IGNORECASE _ txt); [discriminate|].
  destruct (List.find _ gcp_services) as [service|] eqn:F; [|discriminate].
  apply List.find_some in F as [Hin _]. now apply service_names_nonempty.
Qed.


Lemma topic_bonus (q : Question) :
  topic q <> [] -> (0.05 <=? _calculate_confidence q)%float = true.
Proof.
  intros Ht. unfold _calculate_confidence.
  replace (nonempty (topic q)) with true by (destruct (topic q); [contradiction | reflexivity]).
  rewrite andb_true_r, orb_true_r.
  repeat match goal with
         | |- context [if ?b then _ else _] =>
             lazymatch b with
             | PrimFloat.ltb _ _ => fail
             | _ => destruct b
             end
         end;
    vm_compute; reflexivity.
Qed.

(** X9: a question built by [parse_question_structure] always has a
    topic, so its confidence score is at least 0.05 whatever else was
    found in the block. *)
Theorem parsed_question_scores_at_least_0_05 (cfg : config) (st st' : parser_state)
    (text_block : list N) (page : Z) (source_file source_pdf_path : list N) (q : Question) :
  parse_question_structure cfg st text_block page source_file source_pdf_path = (Some q, st') ->
  topic q <> [] /\ (0.05 <=? confidence_score q)%float = true.
Proof.
  intros H.
  pose proof (parse_structure_facts cfg st text_block page source_file source_pdf_path) as F.
  rewrite H in F. destruct F as (_ & _ & Hc & Ht & _).
  assert (Hne : topic q <> []) by (rewrite Ht; apply extract_topic_nonempty).
  split; [exact Hne|]. rewrite Hc. now apply topic_bonus.
Qed.

Lemma parsed_question_scores_at_least_0_05_witness :
  let result :=
    parse_question_structure _get_default_config init_state
      (str "What is the best way to keep a week of logs for audits?") 2 (str "exam.pdf") [] in
  option_map topic (fst result) = Some (str "General")
  /\ option_map original_number (fst result) = Some []
  /\ match fst result with
     | Some q => (0.05 <=? confidence_score q)%float = true
     | None => False
     end.
Proof.
  intros result.
  split; [vm_compute; reflexivity|]. split; [vm_compute; reflexivity|].
  destruct result as [[q|] st'] eqn:Eq; [|vm_compute in Eq; discriminate Eq].
  cbn [fst]. exact (proj2 (parsed_question_scores_at_least_0_05 _ _ _ _ _ _ _ q Eq)).
Defined.

(** ** The option dictionary *)

Ltac split_comparisons :=
  repeat (match goal with
          | |- context [N.leb ?a ?b] => destruct (N.leb_spec a b)
          | |- context [N.eqb ?a ?b] => destruct (N.eqb_spec a b)
          end; cbn [andb orb existsb negb]; try lia).

Lemma lowered_member_A_to_F (x : N) : lowered_member (between 65 70) x = between 97 102 x.
Proof.
  unfold lowered_member.
  replace (existsb (between 65 70) (lower_preimages 105)) with false by (vm_compute; reflexivity).
  replace (existsb (between 65 70) (lower_preimages 115)) with false by (vm_compute; reflexivity).
  rewrite !andb_false_r, !orb_false_r.
  unfold lower_preimages. rewrite !existsb_app.
  unfold is_upper_ascii, is_lower_ascii, between.
  split_comparisons; reflexivity.
Qed.

Lemma letter_set_inv (d : N) :
  set_match IGNORECASE [IRng 65 70] d = true ->
  In d [65; 66; 67; 68; 69; 70; 97; 98; 99; 100; 101; 102].
Proof.
  cbn [set_match existsb item_match ignorecase IGNORECASE].
  rewrite orb_false_r, lowered_member_A_to_F.
  unfold sre_lower, is_upper_ascii, between.
  destruct (N.leb_spec 65 d) as [Ha|Ha], (N.leb_spec d 90) as [Hb|Hb]; cbn [andb].
  - intros H. apply andb_prop in H as [H1 H2]. apply N.leb_le in H1, H2. cbn [In]. lia.
  - destruct (N.eqb_spec d 304); [discriminate|]. destruct (N.eqb_spec d 8490); [discriminate|].
    intros H. apply andb_prop in H as [H1 H2]. apply N.leb_le in H1, H2. cbn [In]. lia.
  - destruct (N.eqb_spec d 304); [discriminate|]. destruct (N.eqb_spec d 8490); [discriminate|].
    intros H. apply andb_prop in H as [H1 H2]. apply N.leb_le in H1, H2. cbn [In]. lia.
  - lia.
Qed.

Lemma upper_letter (d : N) :
  In d [65; 66; 67; 68; 69; 70; 97; 98; 99; 100; 101; 102] -> In (upper [d]) answer_letters.
Proof.
  cbn [In]. intros H.
  repeat (destruct H as [<-|H]; [vm_compute; tauto|]). contradiction.
Qed.

(** A group around one character set captures that character. *)
Lemma seq_grp_set_inv (fl : flags) (n : nat) (its : list item) (b : regex)
    (st : mstate) (k : cont) (res : mstate) :
  rmatch fl (Seq (Grp n (In_ its)) b) st k = Some res ->
  exists d tl,
    rest st = d :: tl /\ set_match fl its d = true
    /\ rmatch fl b {| before := d :: before st; rest := tl; caps := (n, [d]) :: caps st |} k
       = Some res.
Proof.
  cbn [rmatch]. unfold one_char. destruct (rest st) as [|d tl] eqn:E; [discriminate|].
  destruct (set_match fl its d) eqn:Hd; [|discriminate].
  intros H. exists d, tl. repeat split; [exact Hd|].
  unfold set_cap, advance in H. cbn [rest before caps] in H.
  rewrite E, firstn_one in H. exact H.
Qed.

(** The option pattern captures one letter, A to F in either case. *)
Lemma option_line_letter (line : list N) (m : rmatch_result) :
  re_match IGNORECASE option_line line = Some m ->
  In (upper (group 1 m)) answer_letters.
Proof.
  unfold re_match, try_at.
  destruct (rmatch IGNORECASE option_line _ Some) as [res|] eqn:Hm; [|discriminate].
  intros [= <-]. unfold option_line, pat in Hm. cbn [seqs] in Hm.
  apply seq_skip in Hm as (st1 & Hc1 & Hm); [|reflexivity].
  apply seq_grp_set_inv in Hm as (d & tl & _ & Hd & Hm).
  apply rmatch_reach in Hm as (st' & [_ (new & Hcaps & Hf)] & [= ->]).
  unfold group. cbn [m_to]. rewrite Hcaps. cbn [caps].
  rewrite (assoc_nat_after [2%nat] 1 [d] new _ _ Hf).
  - apply upper_letter. now apply letter_set_inv.
  - cbn [In]. lia.
Qed.

(** A substitution with a non-empty replacement never empties a text. *)
Lemma sub_from_nonempty (fl : flags) (r : regex) (repl : rmatch_result -> list N)
    (fuel : nat) (bef s : list N) :
  (forall m, repl m <> []) -> s <> [] -> sub_from fl fuel r repl bef s <> [].
Proof.
  intros Hrepl Hs. destruct fuel as [|fuel]; [exact Hs|]. cbn [sub_from].
  destruct (search_from fl r bef s) as [m|]; [|exact Hs].
  specialize (Hrepl m).
  destruct (length (rest (m_to m)) <? length (rest (m_from m)))%nat.
  - intros H. apply app_eq_nil in H as [_ H]. apply app_eq_nil in H as [H _]. contradiction.
  - destruct (rest (m_to m)).
    + intros H. apply app_eq_nil in H as [_ H]. contradiction.
    + intros H. apply app_eq_nil in H as [_ H]. apply app_eq_nil in H as [H _]. contradiction.
Qed.

Lemma option_fixes_nonempty (s : list N) : s <> [] -> apply_fixes option_ocr_fixes s <> [].
Proof.
  unfold apply_fixes, option_ocr_fixes. cbn [fold_left fst snd]. intros Hs.
  repeat (apply sub_from_nonempty; [intros _; discriminate|]). exact Hs.
Qed.

Lemma options_step_keeps (options : gmap (list N) (list N)) (raw : list N) :
  map_Forall (fun key value => In key answer_letters /\ value <> []) options ->
  map_Forall (fun key value => In key answer_letters /\ value <> []) (options_step options raw).
Proof.
  intros Hinv. unfold options_step.
  destruct (is_empty (strip raw)); [exact Hinv|].
  destruct (re_match IGNORECASE option_line (strip raw)) as [m|] eqn:Em; [|exact Hinv].
  destruct (found IGNORECASE vote_phrases _); [exact Hinv|].
  destruct ((length (strip (group 2 m)) <? 2)%nat || _) eqn:Elen; [exact Hinv|].
  assert (Hnew : map_Forall (fun key value => In key answer_letters /\ value <> [])
                   (<[upper (group 1 m) := apply_fixes option_ocr_fixes (strip (group 2 m))]>
                      options)).
  { apply map_Forall_insert_2; [|exact Hinv]. split.
    - now apply (option_line_letter (strip raw)).
    - apply option_fixes_nonempty. apply orb_false_elim in Elen as [Elen _].
      apply Nat.ltb_ge in Elen. destruct (strip (group 2 m)); [cbn in Elen; lia | discriminate]. }
  destruct (options !! upper (group 1 m)) as [current|]; [|exact Hnew].
  destruct (length current <? _)%nat; [exact Hnew | exact Hinv].
Qed.

Lemma extract_options_keyed (txt : list N) :
  map_Forall (fun key value => In key answer_letters /\ value <> [])
    (_extract_answer_options txt).
Proof.
  unfold _extract_answer_options.
  assert (H : forall lines options,
             map_Forall (fun key value => In key answer_letters /\ value <> []) options ->
             map_Forall (fun key value => In key answer_letters /\ value <> [])
               (fold_left options_step lines options)).
  { induction lines as [|l ls IH]; intros options Ho; [exact Ho|].
    cbn [fold_left]. apply IH. now apply options_step_keeps. }
  apply H. apply map_Forall_empty.
Qed.

(** X10: the dictionary [_extract_answer_options] returns maps only
    the letters A to F (upper case, whatever the case in the text) to
    non-empty option texts, so it has at most six entries. *)
Theorem options_are_keyed_by_letters (txt : list N) :
  map_Forall (fun key value => In key answer_letters /\ value <> [])
    (_extract_answer_options txt)
  /\ dom (_extract_answer_options txt) ⊆ list_to_set answer_letters
  /\ (size (_extract_answer_options txt) <= 6)%nat.
Proof.
  pose proof (extract_options_keyed txt) as Hinv.
  assert (Hdom : dom (_extract_answer_options txt) ⊆ list_to_set answer_letters).
  { intros key Hkey. apply elem_of_dom in Hkey as [value Hv].
    apply elem_of_list_to_set, list_elem_of_In. exact (proj1 (Hinv key value Hv)). }
  split; [exact Hinv|]. split; [exact Hdom|].
  rewrite <- size_dom.
  change 6%nat with (size (list_to_set answer_letters : gset (list N))).
  now apply subseteq_size.
Qed.

(** ** Community answers *)

Lemma one_letter_A_to_F (d : N) : set_match NOFLAGS [IRng 65 70] d = true -> In [d] answer_letters.
Proof.
  cbn [set_match existsb item_match ignorecase NOFLAGS]. rewrite orb_false_r. unfold between.
  intros H. apply andb_prop in H as [H1 H2]. apply N.leb_le in H1, H2.
  assert (Hd : In d [65; 66; 67; 68; 69; 70]) by (cbn [In]; lia).
  cbn [In] in Hd. repeat (destruct Hd as [<-|Hd]; [vm_compute; tauto|]). contradiction.
Qed.

(** What a set followed by a look-ahead matches is the one character
    of the set. *)
Lemma set_ahead_text (fl : flags) (its : list item) (x : regex) (st res : mstate) :
  rmatch fl (Seq (In_ its) (Ahead x)) st Some = Some res ->
  exists d, firstn (length (rest st) - length (rest res)) (rest st) = [d]
            /\ set_match fl its d = true.
Proof.
  cbn [rmatch]. unfold one_char. destruct (rest st) as [|d tl] eqn:E; [discriminate|].
  destruct (set_match fl its d) eqn:Hd; [|discriminate].
  destruct (rmatch fl x (advance st d tl) Some); [|discriminate].
  intros [= <-]. exists d. cbn [advance rest]. now rewrite firstn_one.
Qed.

Lemma answer_letter_text (s : list N) (m : rmatch_result) :
  re_search NOFLAGS answer_letter s = Some m -> In (group0 m) answer_letters.
Proof.
  intros H. apply search_from_inv in H as (_ & _ & _ & _ & Hm).
  unfold answer_letter, pat in Hm.
  apply set_ahead_text in Hm as (d & Hg & Hd). unfold group0. rewrite Hg.
  now apply one_letter_A_to_F.
Qed.

Lemma answer_letter_at_start_text (s : list N) (m : rmatch_result) :
  re_search NOFLAGS answer_letter_at_start s = Some m -> In (group0 m) answer_letters.
Proof.
  intros H. apply search_from_inv in H as (_ & _ & _ & _ & Hm).
  unfold answer_letter_at_start, pat in Hm. cbn [seqs] in Hm.
  change (rmatch NOFLAGS (Seq Bol (Seq (In_ [IRng 65 70]) (Ahead (alts [SpaceC; Eol; Chr 46]))))
            (m_from m) Some)
    with (if at_bol NOFLAGS (m_from m)
          then rmatch NOFLAGS (Seq (In_ [IRng 65 70]) (Ahead (alts [SpaceC; Eol; Chr 46])))
                 (m_from m) Some
          else None) in Hm.
  destruct (at_bol NOFLAGS (m_from m)); [|discriminate].
  apply set_ahead_text in Hm as (d & Hg & Hd). unfold group0. rewrite Hg.
  now apply one_letter_A_to_F.
Qed.

Lemma find_answer_letter (line : list N) (next : option (list N)) (a : list N) :
  find_answer line next = Some a -> In a answer_letters.
Proof.
  unfold find_answer.
  destruct (re_search NOFLAGS answer_letter (upper line)) as [m|] eqn:E.
  - intros [= <-]. now apply (answer_letter_text (upper line)).
  - destruct next as [next_raw|]; [|discriminate].
    destruct (re_search NOFLAGS answer_letter_at_start _) as [m|] eqn:E'; [|discriminate].
    intros [= <-]. now apply (answer_letter_at_start_text _ m E').
Qed.

Lemma responses_step_keeps (cd : community_data) (raw : list N) (next : option (list N)) :
  letter_or_empty (cd_community_answer cd) /\ letter_or_empty (cd_highly_voted cd)
  /\ letter_or_empty (cd_most_recent cd) ->
  let cd' := responses_step cd raw next in
  letter_or_empty (cd_community_answer cd') /\ letter_or_empty (cd_highly_voted cd')
  /\ letter_or_empty (cd_most_recent cd').
Proof.
  intros (H1 & H2 & H3). unfold responses_step.
  set (line := lower (strip raw)).
  assert (Hfound : forall a, find_answer line next = Some a -> letter_or_empty a)
    by (intros a Ha; right; now apply (find_answer_letter line next)).
  set (cd1 := if contains (str "selected answer") line || contains (str "correct answer") line
              then _ else _).
  assert (Hcd1 : letter_or_empty (cd_community_answer cd1)
                 /\ letter_or_empty (cd_highly_voted cd1)
                 /\ letter_or_empty (cd_most_recent cd1)).
  { subst cd1.
    destruct (contains (str "selected answer") line || contains (str "correct answer") line).
    - destruct (find_answer line next) as [a|] eqn:Ea; cbn; auto.
    - destruct (contains (str "highly voted") line).
      + destruct (find_answer line next) as [a|] eqn:Ea; cbn; auto.
      + destruct (contains (str "most recent") line); [|auto].
        destruct (find_answer line next) as [a|] eqn:Ea; cbn; auto. }
  clearbody cd1. cbv zeta.
  destruct (first_group1 NOFLAGS date_patterns line); [|exact Hcd1].
  cbn [cd_community_answer cd_highly_voted cd_most_recent]. exact Hcd1.
Qed.

Lemma responses_loop_keeps (lines : list (list N)) (cd : community_data) :
  letter_or_empty (cd_community_answer cd) /\ letter_or_empty (cd_highly_voted cd)
  /\ letter_or_empty (cd_most_recent cd) ->
  letter_or_empty (cd_community_answer (responses_loop cd lines))
  /\ letter_or_empty (cd_highly_voted (responses_loop cd lines))
  /\ letter_or_empty (cd_most_recent (responses_loop cd lines)).
Proof.
  revert cd. induction lines as [|raw lines IH]; intros cd Hcd; [exact Hcd|].
  cbn [responses_loop]. apply IH. now apply responses_step_keeps.
Qed.

(** X11: each of the three answers [_parse_community_responses] reads
    from a block is either empty or a single upper-case letter from A
    to F. *)
Theorem community_answers_are_single_letters (txt : list N) :
  let community := _parse_community_responses txt in
  letter_or_empty (cd_community_answer community)
  /\ letter_or_empty (cd_highly_voted community)
  /\ letter_or_empty (cd_most_recent community).
Proof.
  unfold _parse_community_responses. apply responses_loop_keeps.
  cbn [cd_community_answer cd_highly_voted cd_most_recent]. unfold letter_or_empty. auto.
Qed.

(** ** Boundaries of a whole document *)

Lemma pages_fold_finish (pages : list PDFProcessor.PageContent)
    (acc : option boundary * list boundary) :
  finish (fold_left PDFProcessor.page_step pages acc)
  = finish acc ++ List.flat_map page_boundaries pages.
Proof.
  revert acc. induction pages as [|page pages IH]; intros acc.
  - cbn. now rewrite app_nil_r.
  - cbn [fold_left List.flat_map]. rewrite IH. unfold PDFProcessor.page_step.
    rewrite lines_loop_finish. now rewrite <- app_assoc.
Qed.

(** Boundary detection works page by page: a span never takes lines
    from another page. *)
Lemma identify_by_page (pages : list PDFProcessor.PageContent) :
  PDFProcessor.identify_question_boundaries pages = List.flat_map page_boundaries pages.
Proof.
  unfold PDFProcessor.identify_question_boundaries.
  pose proof (pages_fold_finish pages (None, [])) as H.
  destruct (fold_left PDFProcessor.page_step pages (None, [])) as [cur qs]. exact H.
Qed.

Lemma boundaries_from_headers (page : PDFProcessor.PageContent) (text_lines todo : list (list N))
    (i : nat) :
  List.map question_header (boundaries_from page text_lines i todo)
  = List.filter PDFProcessor.is_marker (List.map strip todo).
Proof.
  revert i. induction todo as [|line todo IH]; intros i; [reflexivity|].
  cbn [boundaries_from List.map List.filter].
  destruct (PDFProcessor.is_marker (strip line)); [|apply IH].
  cbn [List.map]. now rewrite IH.
Qed.

Lemma identify_headers (pages : list PDFProcessor.PageContent) :
  List.map question_header (PDFProcessor.identify_question_boundaries pages)
  = marker_lines pages.
Proof.
  rewrite identify_by_page. unfold marker_lines.
  induction pages as [|page pages IH]; [reflexivity|].
  cbn [List.flat_map]. rewrite !List.map_app, List.filter_app, IH.
  unfold page_boundaries. now rewrite boundaries_from_headers.
Qed.

(** X12: [identify_question_boundaries] opens one span per marker
    line: the headers of the spans are exactly the stripped lines of
    the pages that match the question marker, in page and line order.
    In particular a document without marker lines gives no span. *)
Theorem one_span_per_marker_line (pages : list PDFProcessor.PageContent) :
  List.map question_header (PDFProcessor.identify_question_boundaries pages)
  = marker_lines pages
  /\ length (PDFProcessor.identify_question_boundaries pages) = length (marker_lines pages).
Proof.
  split; [apply identify_headers|]. now rewrite <- identify_headers, length_map.
Qed.

Lemma boundaries_from_in (page : PDFProcessor.PageContent) (text_lines todo : list (list N))
    (i : nat) (b : boundary) :
  In b (boundaries_from page text_lines i todo) ->
  exists (j : nat) (line : list N),
    nth_error todo j = Some line /\ PDFProcessor.is_marker (strip line) = true
    /\ b = boundary_at page text_lines (i + j) line.
Proof.
  revert i. induction todo as [|l todo IH]; intros i; [contradiction|].
  cbn [boundaries_from]. destruct (PDFProcessor.is_marker (strip l)) eqn:Hm.
  - intros [<-|Hin].
    + exists 0%nat, l. rewrite Nat.add_0_r. auto.
    + apply IH in Hin as (j & line & Hj & Hl & ->). exists (S j), line.
      rewrite Nat.add_succ_r. auto.
  - intros Hin. apply IH in Hin as (j & line & Hj & Hl & ->). exists (S j), line.
    rewrite Nat.add_succ_r. auto.
Qed.

Lemma in_skipn {A} (x : A) (n : nat) (l : list A) : In x (skipn n l) -> In x l.
Proof.
  revert n. induction l as [|y l IH]; intros [|n]; cbn; try tauto.
  intros H. right. now apply (IH n).
Qed.

Lemma marker_nonempty (l : list N) : PDFProcessor.is_marker l = true -> l <> [].
Proof. intros H ->. vm_compute in H. discriminate H. Qed.

Lemma nonempty_true (l : list N) : nonempty l = true -> l <> [].
Proof. intros H ->. discriminate H. Qed.

Lemma look_back_lines (text_lines : list (list N)) (i : nat) :
  (length (PDFProcessor.look_back text_lines i) <= 20)%nat
  /\ Forall (fun l => l <> [] /\ strip l = l /\ In l (List.map strip text_lines))
       (PDFProcessor.look_back text_lines i).
Proof.
  unfold PDFProcessor.look_back. split.
  - etransitivity; [apply List.filter_length_le|].
    rewrite length_map, length_skipn, length_firstn. lia.
  - apply List.Forall_forall. intros l Hl. apply List.filter_In in Hl as [Hin Hk].
    apply List.in_map_iff in Hin as (raw & <- & Hraw).
    split; [|split].
    + unfold PDFProcessor.keep_context in Hk.
      apply andb_prop in Hk as [Hk _]. apply andb_prop in Hk as [Hk _].
      apply andb_prop in Hk as [Hk _]. now apply nonempty_true.
    + apply strip_idem.
    + apply List.in_map. eapply in_firstn, in_skipn. exact Hraw.
Qed.

Lemma collect_following_lines (following : list (list N)) :
  (length (PDFProcessor.collect_following following) <= length following)%nat
  /\ Forall (fun l => l <> [] /\ strip l = l /\ In l (List.map strip following)
                      /\ PDFProcessor.is_marker l = false)
       (PDFProcessor.collect_following following).
Proof.
  induction following as [|raw following [IHlen IH]]; [split; [reflexivity | constructor]|].
  cbn [PDFProcessor.collect_following].
  assert (Hweak : Forall (fun l => l <> [] /\ strip l = l
                                   /\ In l (List.map strip (raw :: following))
                                   /\ PDFProcessor.is_marker l = false)
                    (PDFProcessor.collect_following following)).
  { eapply List.Forall_impl; [|exact IH]. intros l (H1 & H2 & H3 & H4).
    repeat split; try assumption. now right. }
  destruct (nonempty (strip raw)) eqn:Hne; [|split; [cbn [length]; lia | exact Hweak]].
  destruct (PDFProcessor.is_marker (strip raw)) eqn:Hm;
    [split; [cbn [length]; lia | constructor]|].
  split; [cbn [length]; lia|]. constructor; [|exact Hweak].
  split; [now apply nonempty_true|]. split; [apply strip_idem|]. split; [now left | exact Hm].
Qed.

Lemma look_ahead_lines (text_lines : list (list N)) (i : nat) :
  (length (PDFProcessor.look_ahead text_lines i) <= 49)%nat
  /\ Forall (fun l => l <> [] /\ strip l = l /\ In l (List.map strip text_lines)
                      /\ PDFProcessor.is_marker l = false)
       (PDFProcessor.look_ahead text_lines i).
Proof.
  unfold PDFProcessor.look_ahead.
  destruct (collect_following_lines (firstn 49 (skipn (S i) text_lines))) as [Hlen H].
  split.
  - etransitivity; [exact Hlen|]. rewrite length_firstn. lia.
  - eapply List.Forall_impl; [|exact H]. intros l (H1 & H2 & H3 & H4).
    repeat split; try assumption.
    apply List.in_map_iff in H3 as (raw & <- & Hraw). apply List.in_map.
    eapply in_skipn, in_firstn. exact Hraw.
Qed.

Lemma split_on_no_newline (s : list N) : List.forallb no_newline (split_on NL s) = true.
Proof.
  induction s as [|c s IH]; [reflexivity|]. cbn [split_on].
  destruct (c =? NL) eqn:Hc; [exact IH|].
  destruct (split_on NL s) as [|w ws]; [cbn; now rewrite Hc|].
  cbn [List.forallb no_newline] in IH |- *. now rewrite Hc.
Qed.

Lemma stripped_lines_no_newline (s l : list N) :
  In l (List.map strip (split_on NL s)) -> no_newline l = true.
Proof.
  intros Hin. apply List.in_map_iff in Hin as (raw & <- & Hraw).
  apply forallb_strip. pose proof (split_on_no_newline s) as H.
  rewrite List.forallb_forall in H. now apply H.
Qed.

(** The span opened by a marker at line [j] of a page. *)
Lemma boundary_at_facts (page : PDFProcessor.PageContent) (j : nat) (line : list N) :
  nth_error (page_lines page) j = Some line ->
  PDFProcessor.is_marker (strip line) = true ->
  let b := boundary_at page (page_lines page) j line in
  exists context following : list (list N),
    content_lines b = context ++ [question_header b] ++ following
    /\ (length context <= 20)%nat /\ (length following <= 49)%nat
    /\ Forall (fun l => PDFProcessor.is_marker l = false) following
    /\ Forall (fun l => l <> [] /\ strip l = l /\ no_newline l = true
                        /\ In l (List.map strip (page_lines page)))
         (content_lines b).
Proof.
  intros Hj Hm b.
  destruct (look_back_lines (page_lines page) j) as [Hblen Hback].
  destruct (look_ahead_lines (page_lines page) j) as [Halen Hahead].
  exists (PDFProcessor.look_back (page_lines page) j),
    (PDFProcessor.look_ahead (page_lines page) j).
  subst b. cbn [boundary_at question_header content_lines].
  repeat split; try assumption.
  - eapply List.Forall_impl; [|exact Hahead]. now intros l (_ & _ & _ & H).
  - apply List.Forall_app. split.
    { eapply List.Forall_impl; [|exact Hback]. intros l (H1 & H2 & H3).
      repeat split; try assumption. now apply (stripped_lines_no_newline _ l H3). }
    apply List.Forall_app. split.
    + assert (Hin : In (strip line) (List.map strip (page_lines page)))
        by (apply List.in_map; eapply nth_error_In; exact Hj).
      constructor; [|constructor]. split; [now apply marker_nonempty|].
      split; [apply strip_idem|]. split; [|exact Hin].
      now apply (stripped_lines_no_newline _ _ Hin).
    + eapply List.Forall_impl; [|exact Hahead]. intros l (H1 & H2 & H3 & _).
      repeat split; try assumption. now apply (stripped_lines_no_newline _ l H3).
Qed.

Lemma identify_in (pages : list PDFProcessor.PageContent) (b : boundary) :
  In b (PDFProcessor.identify_question_boundaries pages) ->
  exists (page : PDFProcessor.PageContent) (j : nat) (line : list N),
    In page pages /\ nth_error (page_lines page) j = Some line
    /\ PDFProcessor.is_marker (strip line) = true
    /\ b = boundary_at page (page_lines page) j line.
Proof.
  rewrite identify_by_page. intros Hin.
  apply List.in_flat_map in Hin as (page & Hpage & Hin).
  apply boundaries_from_in in Hin as (j & line & Hj & Hm & ->).
  exists page, j, line. auto.
Qed.

(** X13: every span [identify_question_boundaries] returns belongs to
    one page of the input: it carries that page's number and source
    file, its header is a marker line of that page (the stripped line
    at index [start_line]), and its content lines are non-empty
    stripped lines of that same page: at most 20 lines of context,
    the header, and at most 49 following lines, none of them a marker.
    Its full content is those lines joined by newlines. *)
Theorem span_stays_on_its_page (pages : list PDFProcessor.PageContent) (b : boundary) :
  In b (PDFProcessor.identify_question_boundaries pages) ->
  exists (page : PDFProcessor.PageContent) (context following : list (list N)),
    In page pages
    /\ start_page b = PDFProcessor.pc_page_number page
    /\ source_file b = PDFProcessor.pc_source_file page
    /\ option_map strip (nth_error (page_lines page) (start_line b)) = Some (question_header b)
    /\ PDFProcessor.is_marker (question_header b) = true
    /\ content_lines b = context ++ [question_header b] ++ following
    /\ (length context <= 20)%nat /\ (length following <= 49)%nat
    /\ Forall (fun l => PDFProcessor.is_marker l = false) following
    /\ Forall (fun l => l <> [] /\ strip l = l /\ In l (List.map strip (page_lines page)))
         (content_lines b)
    /\ full_content b = Some (join [NL] (content_lines b)).
Proof.
  intros Hin. apply identify_in in Hin as (page & j & line & Hpage & Hj & Hm & ->).
  destruct (boundary_at_facts page j line Hj Hm)
    as (context & following & Hc & Hlc & Hlf & Hf & Hall).
  exists page, context, following.
  cbn [boundary_at start_page source_file start_line question_header full_content].
  rewrite Hj. cbn [option_map].
  repeat split; try assumption; try reflexivity.
  eapply List.Forall_impl; [|exact Hall]. intros l (H1 & H2 & _ & H3). auto.
Qed.

Lemma span_stays_on_its_page_witness :
  exists b, In b (PDFProcessor.identify_question_boundaries two_page_document)
            /\ start_line b = 1%nat
            /\ exists page, In page two_page_document
                            /\ start_page b = 2%Z
                            /\ start_page b = PDFProcessor.pc_page_number page
                            /\ PDFProcessor.is_marker (question_header b) = true.
Proof.
  set (b := nth 1 (PDFProcessor.identify_question_boundaries two_page_document)
              (boundary_at (nth 0 two_page_document
                              {| PDFProcessor.pc_page_number := 0; PDFProcessor.pc_text := [];
                                 PDFProcessor.pc_source_file := [];
                                 PDFProcessor.raw_text := [] |}) [] 0 [])).
  assert (Hin : In b (PDFProcessor.identify_question_boundaries two_page_document))
    by (vm_compute; right; left; reflexivity).
  exists b. split; [exact Hin|]. split; [vm_compute; reflexivity|].
  destruct (span_stays_on_its_page two_page_document b Hin)
    as (page & context & following & Hpage & Hp & _ & _ & Hm & _).
  exists page. split; [exact Hpage|]. split; [vm_compute; reflexivity|]. auto.
Defined.

(** ** From pages to questions *)

Lemma returned_question_boundary (cfg : config) (st : parser_state)
    (boundaries : list boundary) (q : Question) :
  In q (fst (parse_questions_from_pages cfg st boundaries)) ->
  exists b, In b boundaries /\ origin_of_boundary b = origin_of_question q.
Proof.
  unfold parse_questions_from_pages.
  destruct (pages_fold_facts cfg boundaries [] st) as (added & new & E & S & _).
  rewrite E. cbn [fst app]. intros Hq.
  assert (Ho : origin_of_question q ∈ List.map origin_of_boundary boundaries).
  { eapply elem_of_sublist; [|exact S]. apply list_elem_of_In. now apply List.in_map. }
  apply list_elem_of_In, List.in_map_iff in Ho as (b & Hb & Hin). exists b. auto.
Qed.

(** X14: boundary detection followed by parsing.  From any pages, the
    questions returned are at most as many as the marker lines of the
    document (none when there is no marker line).  Each question
    carries the page number and source file of one input page, and its
    raw content, split at newlines, is a sequence of at most 70
    non-empty stripped lines of that page, one of them a marker
    line. *)
Theorem questions_come_from_marker_lines (cfg : config) (st : parser_state)
    (pages : list PDFProcessor.PageContent) :
  let questions :=
    fst (parse_questions_from_pages cfg st (PDFProcessor.identify_question_boundaries pages)) in
  (length questions <= length (marker_lines pages))%nat
  /\ Forall (fun q =>
               exists page,
                 In page pages
                 /\ page_number q = PDFProcessor.pc_page_number page
                 /\ source q = PDFProcessor.pc_source_file page
                 /\ (length (split_on NL (raw_content q)) <= 70)%nat
                 /\ Forall (fun l => l <> [] /\ strip l = l
                                     /\ In l (List.map strip (page_lines page)))
                      (split_on NL (raw_content q))
                 /\ List.existsb PDFProcessor.is_marker (split_on NL (raw_content q)) = true)
       questions.
Proof.
  cbv zeta. split.
  - unfold parse_questions_from_pages.
    destruct (pages_fold_facts cfg (PDFProcessor.identify_question_boundaries pages) [] st)
      as (added & new & E & S & _).
    rewrite E. cbn [fst app]. apply sublist_length in S. rewrite !length_map in S.
    now rewrite <- identify_headers, length_map.
  - apply List.Forall_forall. intros q Hq.
    apply returned_question_boundary in Hq as (b & Hb & Ho).
    apply identify_in in Hb as (page & j & line & Hpage & Hj & Hm & ->).
    destruct (boundary_at_facts page j line Hj Hm)
      as (context & following & Hc & Hlc & Hlf & Hf & Hall).
    unfold origin_of_boundary, origin_of_question, block_of in Ho.
    cbn [boundary_at start_page source_file full_content] in Ho.
    injection Ho as Hp Hs Hr.
    cbn [boundary_at question_header content_lines] in Hc, Hall.
    set (lines := PDFProcessor.look_back (page_lines page) j ++ [strip line]
                  ++ PDFProcessor.look_ahead (page_lines page) j) in *.
    assert (Hsplit : split_on NL (raw_content q) = lines).
    { rewrite <- Hr. apply split_join.
      - rewrite Hc. now destruct context.
      - apply List.forallb_forall. intros l Hl.
        rewrite List.Forall_forall in Hall. now destruct (Hall l Hl) as (_ & _ & H & _). }
    exists page. rewrite Hsplit. repeat split; auto.
    + rewrite Hc, !length_app. cbn [length]. lia.
    + eapply List.Forall_impl; [|exact Hall]. intros l (H1 & H2 & _ & H3). auto.
    + apply List.existsb_exists. exists (strip line). split; [|exact Hm].
      rewrite Hc. apply in_or_app. right. now left.
Qed.

(** ** The page cleaner *)

(** Substituting a fixed text for a one-character pattern rewrites the
    subject character by character. *)
Lemma sub_one_char (fl : flags) (r : regex) (p : N -> bool) (repl : list N)
    (Hr : forall st k, rmatch fl r st k = one_char p st k) :
  forall (n : nat) (s : list N) (fuel : nat) (bef : list N),
    (length s <= n)%nat -> (length s < fuel)%nat ->
    sub_from fl fuel r (fun _ => repl) bef s
    = List.flat_map (fun c => if p c then repl else [c]) s.
Proof.
  induction n as [|n IH]; intros s fuel bef Hn Hfuel.
  - destruct s; [|cbn in Hn; lia]. destruct fuel; [lia|].
    cbn [sub_from]. now rewrite (search_one_char fl r p Hr).
  - destruct fuel as [|fuel]; [lia|]. cbn [sub_from]. rewrite (search_one_char fl r p Hr).
    destruct (break_at p s) as [[[pre d] tl]|] eqn:E.
    + apply break_at_some in E as (-> & Hpre & Hd).
      unfold m_start. cbn [m_from m_to before rest].
      replace (length (rev pre ++ bef) - length bef)%nat with (length pre)
        by (rewrite length_app, length_rev; lia).
      rewrite firstn_length_app. cbn [length]. rewrite (proj2 (Nat.ltb_lt _ _)) by lia.
      rewrite length_app in Hn, Hfuel. cbn [length] in Hn, Hfuel.
      rewrite IH by lia.
      rewrite List.flat_map_app. cbn [List.flat_map]. rewrite Hd. f_equal.
      clear -Hpre. induction pre as [|c pre IH]; [reflexivity|].
      cbn [List.forallb] in Hpre. apply andb_prop in Hpre as [Hc Hpre].
      apply negb_true_iff in Hc. cbn [List.flat_map]. rewrite Hc. cbn [app]. now rewrite <- IH.
    + apply break_at_none in E. clear -E. induction s as [|c s IH]; [reflexivity|].
      cbn [List.forallb] in E. apply andb_prop in E as [Hc Hs].
      apply negb_true_iff in Hc. cbn [List.flat_map]. rewrite Hc. cbn [app]. now rewrite <- IH.
Qed.

Lemma sub_carriage_returns (s : list N) :
  no_carriage_return (re_sub NOFLAGS (Chr 13) [NL] s) = true.
Proof.
  unfold re_sub.
  rewrite (sub_one_char NOFLAGS (Chr 13) (fun d => d =? 13) [NL] (fun st k => eq_refl)
             (length s)) by lia.
  induction s as [|c s IH]; [reflexivity|]. cbn [List.flat_map].
  unfold no_carriage_return in *. rewrite forallb_app, IH, andb_true_r.
  destruct (c =? 13) eqn:Hc; cbn [List.forallb]; [reflexivity|]. now rewrite Hc.
Qed.

(** X15: the text [clean_pdf_artifacts] returns holds no carriage
    return and has no whitespace at either end; the empty text stays
    empty. *)
Theorem cleaned_page_has_unix_line_ends (txt : list N) :
  no_carriage_return (PDFProcessor.clean_pdf_artifacts txt) = true
  /\ strip (PDFProcessor.clean_pdf_artifacts txt) = PDFProcessor.clean_pdf_artifacts txt
  /\ PDFProcessor.clean_pdf_artifacts [] = [].
Proof.
  split; [|split; [|reflexivity]].
  - unfold PDFProcessor.clean_pdf_artifacts. destruct (is_empty txt); [reflexivity|].
    unfold pat. apply forallb_strip. apply re_sub_forall; [reflexivity|].
    apply sub_carriage_returns.
  - unfold PDFProcessor.clean_pdf_artifacts. destruct (is_empty txt); [reflexivity|].
    apply strip_idem.
Qed.

(** ** The Unicode cleaner's output, and the per-page extraction *)

Lemma single_spaced_no_newline (b : bool) (s : list N) :
  single_spaced b s = true -> no_newline s = true.
Proof.
  revert b. induction s as [|c s IH]; intros b; [reflexivity|].
  cbn [single_spaced no_newline List.forallb]. destruct (is_space c) eqn:Hc.
  - intros H. apply andb_prop in H as [H Hs]. apply andb_prop in H as [Hsp _].
    apply N.eqb_eq in Hsp. subst c. cbn [negb andb]. exact (IH true Hs).
  - intros Hs. destruct (N.eqb_spec c NL) as [->|_]; [discriminate Hc|]. exact (IH false Hs).
Qed.

Lemma clean_unicode_single_spaced (txt : list N) :
  txt <> [] -> single_spaced false (RobustQuestionParser._clean_unicode_artifacts txt) = true.
Proof.
  intros Hne. rewrite clean_unicode_spec.
  destruct txt as [|c t]; [contradiction|]. cbn [is_empty].
  apply single_spaced_strip. apply single_spaced_collapse.
Qed.

Lemma clean_unicode_no_newline (txt : list N) :
  no_newline (RobustQuestionParser._clean_unicode_artifacts txt) = true.
Proof.
  destruct txt as [|c t]; [reflexivity|].
  apply (single_spaced_no_newline false). now apply clean_unicode_single_spaced.
Qed.

Lemma collapse_length (b : bool) (s : list N) : (length (collapse_aux b s) <= length s)%nat.
Proof.
  revert b. induction s as [|c s IH]; intros b; [reflexivity|]. cbn [collapse_aux].
  pose proof (IH true). pose proof (IH false).
  destruct (is_space c); [destruct b|]; cbn [length]; lia.
Qed.

Lemma strip_length (s : list N) : (length (strip s) <= length s)%nat.
Proof. unfold strip. etransitivity; [apply rstrip_length | apply lstrip_length]. Qed.

(** X16: the text [_clean_unicode_artifacts] returns is a single line
    in normal form: none of the deleted symbols is left, the only
    whitespace is the space character, never two in a row and never at
    either end; in particular there is no newline.  It is never longer
    than the text given. *)
Theorem cleaned_text_is_one_line (txt : list N) :
  let out := RobustQuestionParser._clean_unicode_artifacts txt in
  List.forallb (fun c => negb (removed_symbol c)) out = true
  /\ single_spaced false out = true
  /\ strip out = out
  /\ no_newline out = true
  /\ (length out <= length txt)%nat.
Proof.
  cbv zeta. destruct txt as [|c t]; [repeat split; cbn; lia|].
  split; [|split; [|split; [|split]]].
  - rewrite clean_unicode_spec. cbn [is_empty].
    apply forallb_strip. unfold collapse. apply forallb_collapse; [reflexivity|].
    apply forallb_filter_self.
  - now apply clean_unicode_single_spaced.
  - rewrite clean_unicode_spec. cbn [is_empty]. apply strip_idem.
  - apply clean_unicode_no_newline.
  - rewrite clean_unicode_spec. cbn [is_empty].
    etransitivity; [apply strip_length|]. etransitivity; [apply collapse_length|].
    apply List.filter_length_le.
Qed.

Lemma reach_rest_incl (G : list nat) (st st' : mstate) :
  reach G st st' -> incl (rest st') (rest st).
Proof. intros [(pre & Hr & _) _] c Hc. rewrite Hr. apply in_or_app. now right. Qed.

Lemma seq_chr_inv (fl : flags) (c : N) (b : regex) (st : mstate) (k : cont) (res : mstate) :
  rmatch fl (Seq (Chr c) b) st k = Some res ->
  exists d tl, rest st = d :: tl /\ chr_match fl c d = true.
Proof.
  cbn [rmatch]. unfold one_char. destruct (rest st) as [|d tl]; [discriminate|].
  destruct (chr_match fl c d) eqn:Hd; [|discriminate]. intros _. exists d, tl. auto.
Qed.

(** The description pattern matches only in a text that holds a
    newline. *)
Lemma description_needs_newline (s : list N) (m : rmatch_result) :
  re_search DOTALL RobustQuestionParser.description_pattern s = Some m -> In NL s.
Proof.
  intros H. apply search_from_inv in H as (pre & Hs & _ & _ & Hm).
  unfold RobustQuestionParser.description_pattern, pat in Hm. cbn [seqs] in Hm.
  apply seq_reach in Hm as (st1 & R1 & Hm). apply reach_rest_incl in R1.
  apply seq_reach in Hm as (st2 & R2 & Hm). apply reach_rest_incl in R2.
  apply seq_reach in Hm as (st3 & R3 & Hm). apply reach_rest_incl in R3.
  apply seq_reach in Hm as (st4 & R4 & Hm). apply reach_rest_incl in R4.
  apply seq_reach in Hm as (st5 & R5 & Hm). apply reach_rest_incl in R5.
  apply seq_chr_inv in Hm as (d & tl & Hrest & Hd).
  cbn in Hd. apply N.eqb_eq in Hd. subst d.
  rewrite Hs. apply in_or_app. right.
  apply R1, R2, R3, R4, R5. rewrite Hrest. now left.
Qed.

Lemma no_newline_not_in (s : list N) : no_newline s = true -> ~ In NL s.
Proof.
  unfold no_newline. rewrite List.forallb_forall. intros H Hin.
  specialize (H NL Hin). discriminate H.
Qed.

Lemma parse_single_needs_newline (question_text question_number : list N) (page_num : Z)
    (source_file : list N) :
  no_newline question_text = true ->
  RobustQuestionParser._parse_single_question question_text question_number page_num source_file
  = None.
Proof.
  intros Hnl. unfold RobustQuestionParser._parse_single_question.
  destruct (re_search DOTALL RobustQuestionParser.description_pattern question_text)
    as [m|] eqn:E; [|reflexivity].
  apply description_needs_newline in E. now apply no_newline_not_in in Hnl.
Qed.

Lemma no_newline_slice (s : list N) (a b : nat) :
  no_newline s = true ->
  no_newline (skipn a s) = true /\ no_newline (skipn a (firstn b s)) = true.
Proof.
  unfold no_newline. rewrite !List.forallb_forall. intros H. split; intros c Hc; apply H.
  - eapply in_skipn. exact Hc.
  - eapply in_firstn, in_skipn. exact Hc.
Qed.

Lemma page_questions_empty (txt : list N) (page_num : Z) (source_file : list N) :
  RobustQuestionParser._extract_questions_from_page_text txt page_num source_file = [].
Proof.
  unfold RobustQuestionParser._extract_questions_from_page_text.
  pose proof (clean_unicode_no_newline txt) as Hnl.
  set (cleaned := RobustQuestionParser._clean_unicode_artifacts txt) in *. clearbody cleaned.
  assert (H : forall matches,
             RobustQuestionParser.questions_of_matches cleaned matches page_num source_file = []).
  { induction matches as [|m later IH]; [reflexivity|].
    cbn [RobustQuestionParser.questions_of_matches].
    rewrite parse_single_needs_newline; [exact IH|].
    destruct later as [|next later'].
    - exact (proj1 (no_newline_slice cleaned (m_start m) 0 Hnl)).
    - exact (proj2 (no_newline_slice cleaned (m_start m) (m_start next) Hnl)). }
  induction RobustQuestionParser.question_start_patterns as [|pattern ps IH]; [reflexivity|].
  cbn [List.flat_map]. now rewrite H, IH.
Qed.

(** X17: [_extract_questions_from_page_text] never finds a question:
    it first cleans the page text, which leaves no newline, while
    [_parse_single_question] only accepts a text in which the question
    header is followed by a newline.  Whatever the page, the result is
    the empty list, also when the page holds a well-formed question
    that [_parse_single_question] accepts as it stands. *)
Theorem page_text_extraction_is_always_empty :
  (forall (txt : list N) (page_num : Z) (source_file : list N),
      RobustQuestionParser._extract_questions_from_page_text txt page_num source_file = [])
  /\ is_Some (RobustQuestionParser._parse_single_question sample_question_text (str "5") 3
                (str "Questions_1.pdf"))
  /\ RobustQuestionParser._extract_questions_from_page_text sample_question_text 3
       (str "Questions_1.pdf") = [].
Proof.
  split; [exact page_questions_empty|]. split; [|apply page_questions_empty].
  vm_compute. eauto.
Qed.

(** ** A single question of the robust parser *)

Lemma grp_set_inv (fl : flags) (n : nat) (its : list item) (st : mstate) (k : cont)
    (res : mstate) :
  rmatch fl (Grp n (In_ its)) st k = Some res ->
  exists d tl,
    rest st = d :: tl /\ set_match fl its d = true
    /\ k {| before := d :: before st; rest := tl; caps := (n, [d]) :: caps st |} = Some res.
Proof.
  cbn [rmatch]. unfold one_char. destruct (rest st) as [|d tl] eqn:E; [discriminate|].
  destruct (set_match fl its d) eqn:Hd; [|discriminate].
  intros H. exists d, tl. repeat split; [exact Hd|].
  unfold set_cap, advance in H. cbn [rest before caps] in H.
  rewrite E, firstn_one in H. exact H.
Qed.

(** A pattern that ends in a group around the letter set, after
    parts without groups, captures one letter. *)
Lemma trailing_letter_capture (parts : list regex) (s : list N) (m : rmatch_result) :
  Forall (fun r => groups r = []) parts ->
  re_search IGNORECASE (seqs (parts ++ [Grp 1 (In_ [IRng 65 70])])) s = Some m ->
  letter_any_case (group 1 m).
Proof.
  intros Hg H. apply search_from_inv in H as (_ & _ & _ & Hc & Hm).
  unfold group. generalize dependent (m_from m). generalize (m_to m). clear m.
  induction Hg as [|p ps Hp Hps IH]; intros res st Hc Hm.
  - cbn [app seqs] in Hm. apply grp_set_inv in Hm as (d & tl & _ & Hd & [= <-]).
    exists d. cbn [caps assoc_nat Nat.eqb]. split; [reflexivity | now apply letter_set_inv].
  - assert (E : seqs ((p :: ps) ++ [Grp 1 (In_ [IRng 65 70])])
                = Seq p (seqs (ps ++ [Grp 1 (In_ [IRng 65 70])])))
      by (cbn [app seqs]; now destruct ps).
    rewrite E in Hm. apply seq_skip in Hm as (st1 & Hc1 & Hm); [|exact Hp].
    apply (IH res st1); [congruence | exact Hm].
Qed.

Lemma community_answers_keep_fields (q : RobustQuestionParser.CleanQuestion)
    (community_text : list N) :
  let q' := RobustQuestionParser._extract_community_answers_from_text q community_text in
  RobustQuestionParser.id q' = RobustQuestionParser.id q
  /\ RobustQuestionParser.number q' = RobustQuestionParser.number q
  /\ RobustQuestionParser.description q' = RobustQuestionParser.description q
  /\ RobustQuestionParser.options q' = RobustQuestionParser.options q
  /\ RobustQuestionParser.page_number q' = RobustQuestionParser.page_number q
  /\ RobustQuestionParser.source_file q' = RobustQuestionParser.source_file q
  /\ RobustQuestionParser.confidence_score q' = RobustQuestionParser.confidence_score q
  /\ RobustQuestionParser.raw_pdf_text q' = RobustQuestionParser.raw_pdf_text q
  /\ RobustQuestionParser.all_community_comments q' = strip community_text.
Proof.
  unfold RobustQuestionParser._extract_community_answers_from_text.
  destruct (re_search IGNORECASE _ community_text);
    destruct (re_search IGNORECASE _ community_text);
    destruct (re_search IGNORECASE _ community_text);
    cbn; repeat match goal with |- context [if ?b then _ else _] => destruct b end;
    cbn; repeat split.
Qed.

(** X18: a question accepted by [_parse_single_question].  Its text
    holds a newline; its identifier is [Q<page>_<number>] for the page
    and number passed in; its confidence score is the constant 0.8; it
    has at least two options and a stripped description of at least
    ten characters; and its raw text is the first 1000 characters of
    the question text. *)
Theorem accepted_clean_question (question_text question_number : list N) (page_num : Z)
    (source_file : list N) (q : RobustQuestionParser.CleanQuestion) :
  RobustQuestionParser._parse_single_question question_text question_number page_num source_file
  = Some q ->
  In NL question_text
  /\ RobustQuestionParser.id q = str "Q" ++ str_of_Z page_num ++ str "_" ++ question_number
  /\ RobustQuestionParser.number q = question_number
  /\ RobustQuestionParser.page_number q = page_num
  /\ RobustQuestionParser.source_file q = source_file
  /\ RobustQuestionParser.confidence_score q = 0.8%float
  /\ (2 <= size (RobustQuestionParser.options q))%nat
  /\ (10 <= length (RobustQuestionParser.description q))%nat
  /\ strip (RobustQuestionParser.description q) = RobustQuestionParser.description q
  /\ RobustQuestionParser.raw_pdf_text q = firstn 1000 question_text.
Proof.
  unfold RobustQuestionParser._parse_single_question.
  destruct (re_search DOTALL RobustQuestionParser.description_pattern question_text)
    as [m|] eqn:E; [|discriminate].
  apply description_needs_newline in E.
  destruct (size (RobustQuestionParser.options_of question_text) <? 2)%nat eqn:Hsize;
    [discriminate|].
  destruct (length (strip (strip (group 1 m))) <? 10)%nat eqn:Hlen; [discriminate|].
  cbn [orb]. intros [= <-].
  match goal with
  | |- context [RobustQuestionParser._extract_community_answers_from_text ?q0 ?c] =>
      destruct (community_answers_keep_fields q0 c)
        as (H1 & H2 & H3 & H4 & H5 & H6 & H7 & H8 & _)
  end.
  rewrite H1, H2, H3, H4, H5, H6, H7, H8.
  cbn [RobustQuestionParser.id RobustQuestionParser.number RobustQuestionParser.description
       RobustQuestionParser.options RobustQuestionParser.page_number
       RobustQuestionParser.source_file RobustQuestionParser.confidence_score
       RobustQuestionParser.raw_pdf_text].
  apply Nat.ltb_ge in Hsize, Hlen. rewrite strip_idem in Hlen.
  repeat split; try assumption. apply strip_idem.
Qed.

Lemma accepted_clean_question_witness :
  let result :=
    RobustQuestionParser._parse_single_question sample_question_text (str "5") 3
      (str "Questions_1.pdf") in
  option_map RobustQuestionParser.id result = Some (str "Q3_5")
  /\ option_map RobustQuestionParser.description result
     = Some (str "Which storage class is cheapest?")
  /\ option_map (fun q => size (RobustQuestionParser.options q)) result = Some 3%nat
  /\ In NL sample_question_text.
Proof.
  intros result.
  destruct result as [q|] eqn:Eq; [|vm_compute in Eq; discriminate Eq].
  destruct (accepted_clean_question _ _ _ _ q Eq) as (Hnl & Hid & _).
  cbn [option_map]. rewrite Hid.
  split; [vm_compute; reflexivity|].
  assert (Hq : Some q = result) by (symmetry; exact Eq).
  split; [|split; [|exact Hnl]].
  - change (option_map RobustQuestionParser.description (Some q)
            = Some (str "Which storage class is cheapest?")).
    rewrite Hq. vm_compute. reflexivity.
  - change (option_map (fun q => size (RobustQuestionParser.options q)) (Some q) = Some 3%nat).
    rewrite Hq. vm_compute. reflexivity.
Defined.

Lemma community_answers_from_empty (q : RobustQuestionParser.CleanQuestion)
    (community_text : list N) :
  RobustQuestionParser.community_answer q = [] ->
  RobustQuestionParser.highly_voted_answer q = [] ->
  RobustQuestionParser.most_recent_answer q = [] ->
  let q' := RobustQuestionParser._extract_community_answers_from_text q community_text in
  (RobustQuestionParser.community_answer q' = []
   \/ letter_any_case (RobustQuestionParser.community_answer q'))
  /\ (RobustQuestionParser.highly_voted_answer q' = []
      \/ letter_any_case (RobustQuestionParser.highly_voted_answer q'))
  /\ (RobustQuestionParser.most_recent_answer q' = []
      \/ letter_any_case (RobustQuestionParser.most_recent_answer q'))
  /\ (RobustQuestionParser.community_answer q' = [] ->
      RobustQuestionParser.highly_voted_answer q' = []
      /\ RobustQuestionParser.most_recent_answer q' = []).
Proof.
  intros Hc Hh Hr. unfold RobustQuestionParser._extract_community_answers_from_text, pat.
  assert (Hletter : forall a, letter_any_case a -> nonempty a = true /\ a <> [])
    by (intros a (d & -> & _); split; [reflexivity | discriminate]).
  assert (Hparts : forall (a b : string) (x : regex),
             groups x = [] ->
             Forall (fun r => groups r = []) [lit a; Plus SpaceC; lit b; x]).
  { intros a b x Hx. repeat constructor; try exact Hx.
    - unfold lit, lit_text. induction (str a) as [|c l IH]; [reflexivity|].
      cbn [List.map seqs]. destruct (List.map Chr l) eqn:E; [reflexivity|].
      cbn [groups app]. exact IH.
    - unfold lit, lit_text. induction (str b) as [|c l IH]; [reflexivity|].
      cbn [List.map seqs]. destruct (List.map Chr l) eqn:E; [reflexivity|].
      cbn [groups app]. exact IH. }
  destruct (re_search IGNORECASE
              (seqs [lit "Highly"; Plus SpaceC; lit "Voted"; Star (NotIn [IRng 65 70]);
                     Grp 1 (In_ [IRng 65 70])]) community_text) as [mh|] eqn:Eh;
    [apply (trailing_letter_capture
              [lit "Highly"; Plus SpaceC; lit "Voted"; Star (NotIn [IRng 65 70])]) in Eh;
     [destruct (Hletter _ Eh) as [Eh1 Eh2] | now apply Hparts]|];
    (destruct (re_search IGNORECASE
                 (seqs [lit "Most"; Plus SpaceC; lit "Recent"; Star (NotIn [IRng 65 70]);
                        Grp 1 (In_ [IRng 65 70])]) community_text) as [mr|] eqn:Er;
     [apply (trailing_letter_capture
               [lit "Most"; Plus SpaceC; lit "Recent"; Star (NotIn [IRng 65 70])]) in Er;
      [destruct (Hletter _ Er) as [Er1 Er2] | now apply Hparts]|]);
    (destruct (re_search IGNORECASE
                 (seqs [lit "Selected"; Plus SpaceC; lit "Answer:"; Star SpaceC;
                        Grp 1 (In_ [IRng 65 70])]) community_text) as [ma|] eqn:Ea;
     [apply (trailing_letter_capture
               [lit "Selected"; Plus SpaceC; lit "Answer:"; Star SpaceC]) in Ea;
      [destruct (Hletter _ Ea) as [Ea1 Ea2] | now apply Hparts]|]);
    cbn [RobustQuestionParser.set_all_community_comments
         RobustQuestionParser.set_highly_voted_answer
         RobustQuestionParser.set_most_recent_answer
         RobustQuestionParser.set_community_answer
         RobustQuestionParser.community_answer RobustQuestionParser.highly_voted_answer
         RobustQuestionParser.most_recent_answer];
    rewrite ?Hc, ?Hh, ?Hr, ?Eh1, ?Er1;
    cbn [nonempty is_empty negb
         RobustQuestionParser.set_community_answer
         RobustQuestionParser.community_answer RobustQuestionParser.highly_voted_answer
         RobustQuestionParser.most_recent_answer];
    rewrite ?Hc, ?Hh, ?Hr;
    repeat split; auto;
    cbn [RobustQuestionParser.set_all_community_comments
         RobustQuestionParser.set_highly_voted_answer
         RobustQuestionParser.set_most_recent_answer
         RobustQuestionParser.set_community_answer
         RobustQuestionParser.community_answer RobustQuestionParser.highly_voted_answer
         RobustQuestionParser.most_recent_answer] in *;
    congruence.
Qed.

(** X19: the community answers of a question accepted by
    [_parse_single_question].  Each of the three answers is empty or a
    single letter from A to F in either case (the patterns are matched
    ignoring case, so a lower-case letter of an ordinary word can be
    taken for an answer); and the community answer is empty only when
    the highly voted and the most recent answers are empty too. *)
Theorem accepted_question_answers (question_text question_number : list N) (page_num : Z)
    (source_file : list N) (q : RobustQuestionParser.CleanQuestion) :
  RobustQuestionParser._parse_single_question question_text question_number page_num source_file
  = Some q ->
  (RobustQuestionParser.community_answer q = []
   \/ letter_any_case (RobustQuestionParser.community_answer q))
  /\ (RobustQuestionParser.highly_voted_answer q = []
      \/ letter_any_case (RobustQuestionParser.highly_voted_answer q))
  /\ (RobustQuestionParser.most_recent_answer q = []
      \/ letter_any_case (RobustQuestionParser.most_recent_answer q))
  /\ (RobustQuestionParser.community_answer q = [] ->
      RobustQuestionParser.highly_voted_answer q = []
      /\ RobustQuestionParser.most_recent_answer q = []).
Proof.
  unfold RobustQuestionParser._parse_single_question.
  destruct (re_search DOTALL RobustQuestionParser.description_pattern question_text)
    as [m|]; [|discriminate].
  destruct (_ || _); [discriminate|].
  intros [= <-]. now apply community_answers_from_empty.
Qed.

Lemma accepted_question_answers_witness :
  let result :=
    RobustQuestionParser._parse_single_question sample_question_text (str "5") 3
      (str "Questions_1.pdf") in
  option_map RobustQuestionParser.highly_voted_answer result = Some (str "e")
  /\ option_map RobustQuestionParser.community_answer result = Some (str "e")
  /\ match result with
     | Some q => letter_any_case (RobustQuestionParser.community_answer q)
     | None => False
     end.
Proof.
  intros result.
  split; [vm_compute; reflexivity|]. split; [vm_compute; reflexivity|].
  destruct result as [q|] eqn:Eq; [|vm_compute in Eq; discriminate Eq].
  destruct (accepted_question_answers _ _ _ _ q Eq) as ([Hempty|Hletter] & _); [|exact Hletter].
  exfalso. assert (Hq : option_map RobustQuestionParser.community_answer result = Some [])
    by (rewrite Eq; cbn [option_map]; now rewrite Hempty).
  vm_compute in Hq. discriminate Hq.
Defined.

(** ** The description of a question *)

Lemma collapse_only_plain_spaces (b : bool) (s : list N) :
  only_plain_spaces (collapse_aux b s) = true.
Proof.
  revert b. induction s as [|c s IH]; intros b; [reflexivity|]. cbn [collapse_aux].
  destruct (is_space c) eqn:Hc.
  - destruct b; [apply IH|]. unfold only_plain_spaces. cbn [List.forallb]. apply IH.
  - unfold only_plain_spaces. cbn [List.forallb]. rewrite Hc. apply IH.
Qed.

Lemma apply_fixes_forall (P : N -> bool) (fixes : list (regex * list N)) (s : list N) :
  Forall (fun fix_ => List.forallb P (snd fix_) = true) fixes ->
  List.forallb P s = true -> List.forallb P (apply_fixes fixes s) = true.
Proof.
  unfold apply_fixes. intros Hf. revert s.
  induction Hf as [|fix_ fixes Hfix Hfixes IH]; intros s Hs; [exact Hs|].
  cbn [fold_left]. apply IH. now apply re_sub_forall.
Qed.

Lemma only_plain_spaces_no_newline (s : list N) :
  only_plain_spaces s = true -> no_newline s = true.
Proof.
  unfold only_plain_spaces, no_newline. rewrite !List.forallb_forall. intros H c Hc.
  specialize (H c Hc). destruct (N.eqb_spec c NL) as [->|_]; [discriminate H | reflexivity].
Qed.

Lemma description_only_plain_spaces (txt : list N) :
  only_plain_spaces (_extract_question_description txt) = true.
Proof.
  unfold _extract_question_description.
  destruct (description_loop _ false [] []) as [question_lines intro_lines].
  apply apply_fixes_forall.
  - unfold description_ocr_fixes. repeat (constructor; [reflexivity|]). constructor.
  - rewrite sub_spaces_collapse. apply collapse_only_plain_spaces.
Qed.

(** X20: the description [_extract_question_description] returns is a
    single line: whatever the block, it holds no newline, tab or other
    whitespace character than the plain space. *)
Theorem description_is_a_single_line (txt : list N) :
  only_plain_spaces (_extract_question_description txt) = true
  /\ no_newline (_extract_question_description txt) = true
  /\ split_on NL (_extract_question_description txt) = [_extract_question_description txt].
Proof.
  pose proof (description_only_plain_spaces txt) as H.
  pose proof (only_plain_spaces_no_newline _ H) as Hnl.
  split; [exact H|]. split; [exact Hnl | now apply split_on_no_sep].
Qed.

(** ** Community lines *)

(** X21: a block none of whose lines is a community comment passes
    through [_separate_community_comments] unchanged, character for
    character, and yields no comment. *)
Theorem block_without_comments_is_unchanged (txt question_id : list N) (page_number : Z)
    (source_file : list N) :
  List.forallb (fun l => negb (_is_community_comment l)) (split_on NL txt) = true ->
  _separate_community_comments txt question_id page_number source_file = (txt, []).
Proof.
  intros Hnone. unfold _separate_community_comments. rewrite separate_fold.
  rewrite (filter_id _ _ Hnone). cbn [app]. rewrite join_split. f_equal.
  induction (split_on NL txt) as [|l ls IH]; [reflexivity|].
  cbn [List.forallb] in Hnone. apply andb_prop in Hnone as [Hl Hls].
  apply negb_true_iff in Hl. cbn [List.filter]. rewrite Hl. now apply IH.
Qed.

Lemma block_without_comments_is_unchanged_witness :
  let block := join [NL] [str "Question #1"; []; str "  Which service stores objects?  ";
                          str "A. Compute Engine"; str "B. Cloud Storage"] in
  _separate_community_comments block (str "Q1_1") 1 (str "exam.pdf") = (block, []).
Proof.
  intros block. apply block_without_comments_is_unchanged. vm_compute. reflexivity.
Defined.

Lemma contains_single (g : N) (s : list N) : contains [g] s = true <-> In g s.
Proof.
  induction s as [|c s IH]; [split; [discriminate | contradiction]|].
  cbn [contains starts_with In]. rewrite andb_true_r, orb_true_iff, IH, N.eqb_eq.
  split; intros [H|H]; auto.
Qed.

Lemma in_strip (g : N) (s : list N) : is_space g = false -> In g s -> In g (strip s).
Proof.
  intros Hg Hin.
  assert (H : In g (List.filter (N.eqb g) (strip s))).
  { rewrite filter_strip.
    - apply List.filter_In. split; [exact Hin | apply N.eqb_refl].
    - intros c Hc. apply N.eqb_eq in Hc. now subst c. }
  now apply List.filter_In in H as [H _].
Qed.

(** X22: how [_is_community_comment] classifies a line.  Surrounding
    whitespace plays no part; a blank line is never a comment; and a
    line that holds one of the two icon glyphs U+F147 and U+F007 is
    always one. *)
Theorem community_line_classification (line : list N) :
  _is_community_comment (strip line) = _is_community_comment line
  /\ (strip line = [] -> _is_community_comment line = false)
  /\ (In 0xf147 line \/ In 0xf007 line -> _is_community_comment line = true).
Proof.
  split; [|split].
  - unfold _is_community_comment. now rewrite strip_idem.
  - intros H. unfold _is_community_comment. now rewrite H.
  - intros H. unfold _is_community_comment.
    assert (Hin : In 0xf147 (strip line) \/ In 0xf007 (strip line))
      by (destruct H as [H|H]; [left | right]; now apply in_strip).
    destruct (strip line) as [|c s] eqn:E; [destruct Hin as [[]|[]]|].
    cbn [is_empty].
    replace (contains [0xf147] (c :: s) || contains [0xf007] (c :: s)) with true; [reflexivity|].
    symmetry. apply orb_true_iff.
    destruct Hin as [Hin|Hin]; [left | right]; now apply contains_single.
Qed.


(** ** A whole file through the robust parser *)

Lemma pages_loop_no_questions (raw_texts : list (list N)) (source_file : list N) :
  forall (page_num : Z) (all_pages_text : list N),
    fst (RobustQuestionParser.pages_loop raw_texts page_num source_file ([], all_pages_text))
    = [].
Proof.
  induction raw_texts as [|raw_text raw_texts IH]; intros page_num all_pages_text;
    [reflexivity|].
  cbn [RobustQuestionParser.pages_loop fst snd].
  destruct (is_empty raw_text); [apply IH|].
  rewrite page_questions_empty. cbn [app]. apply IH.
Qed.

Lemma pages_loop_no_text (raw_texts : list (list N)) (source_file : list N) :
  List.forallb is_empty raw_texts = true ->
  forall (page_num : Z) (questions : list RobustQuestionParser.CleanQuestion),
    snd (RobustQuestionParser.pages_loop raw_texts page_num source_file (questions, [])) = [].
Proof.
  induction raw_texts as [|raw_text raw_texts IH]; intros Hall page_num questions;
    [reflexivity|].
  cbn [List.forallb] in Hall. apply andb_prop in Hall as [Hraw Hall].
  cbn [RobustQuestionParser.pages_loop]. rewrite Hraw. now apply IH.
Qed.

Lemma full_text_questions (full_text source_file : list N) :
  RobustQuestionParser._extract_questions_from_full_pdf_text full_text source_file = []
  \/ exists q,
       RobustQuestionParser._extract_questions_from_full_pdf_text full_text source_file = [q]
       /\ RobustQuestionParser.number q = str "1"
       /\ RobustQuestionParser.page_number q = 1%Z
       /\ RobustQuestionParser.source_file q = source_file
       /\ RobustQuestionParser.confidence_score q = 0.85%float
       /\ (2 <= size (RobustQuestionParser.options q))%nat
       /\ (exists name rest_,
             RobustQuestionParser.id q = str "case_study_" ++ name ++ str "_1"
             /\ RobustQuestionParser.description q
                = str "For this question, refer to the " ++ rest_).
Proof.
  unfold RobustQuestionParser._extract_questions_from_full_pdf_text.
  destruct (re_search _ RobustQuestionParser.case_study_reference _) as [m|]; [|now left].
  destruct (match re_search IGNORECASE RobustQuestionParser.community_start _ with
            | Some _ => _ | None => _ end) as [options_section community_section].
  destruct (2 <=? length _)%nat; [|now left].
  destruct ((10 <? length _)%nat && (2 <=? size _)%nat) eqn:E; [|now left].
  apply andb_prop in E as [_ Hsize]. apply Nat.leb_le in Hsize.
  right. eexists. split; [reflexivity|].
  match goal with
  | |- context [RobustQuestionParser._extract_community_answers_from_text ?q0 ?c] =>
      destruct (community_answers_keep_fields q0 c)
        as (H1 & H2 & H3 & H4 & H5 & H6 & H7 & _)
  end.
  rewrite H1, H2, H3, H4, H5, H6, H7.
  cbn [RobustQuestionParser.id RobustQuestionParser.number RobustQuestionParser.description
       RobustQuestionParser.options RobustQuestionParser.page_number
       RobustQuestionParser.source_file RobustQuestionParser.confidence_score].
  repeat split; try assumption. eexists. eexists. split; reflexivity.
Qed.

(** X23: [extract_questions_from_pdf], on the page texts of any file,
    returns at most one question.  The page loop never finds any, so
    the result is what [_extract_questions_from_full_pdf_text] makes
    of the accumulated text (nothing when no page has text): either
    no question, or a single case-study question numbered 1 on page 1,
    with confidence 0.85, at least two options, an identifier of the
    form [case_study_<name>_1] and a description that begins with the
    reference to the case study. *)
Theorem robust_parser_returns_at_most_one_question (raw_texts : list (list N))
    (source_file : list N) :
  let questions := RobustQuestionParser.extract_questions_from_pdf raw_texts source_file in
  (length questions <= 1)%nat
  /\ (List.forallb is_empty raw_texts = true -> questions = [])
  /\ Forall (fun q =>
               RobustQuestionParser.number q = str "1"
               /\ RobustQuestionParser.page_number q = 1%Z
               /\ RobustQuestionParser.source_file q = source_file
               /\ RobustQuestionParser.confidence_score q = 0.85%float
               /\ (2 <= size (RobustQuestionParser.options q))%nat
               /\ (exists name rest_,
                     RobustQuestionParser.id q = str "case_study_" ++ name ++ str "_1"
                     /\ RobustQuestionParser.description q
                        = str "For this question, refer to the " ++ rest_))
       questions.
Proof.
  cbv zeta. unfold RobustQuestionParser.extract_questions_from_pdf.
  pose proof (pages_loop_no_questions raw_texts source_file 1 []) as Hnone.
  assert (Htext : List.forallb is_empty raw_texts = true ->
                  snd (RobustQuestionParser.pages_loop raw_texts 1 source_file ([], [])) = [])
    by (intros Hall; now apply pages_loop_no_text).
  destruct (RobustQuestionParser.pages_loop raw_texts 1 source_file ([], []))
    as [questions all_pages_text].
  cbn [fst snd] in Hnone, Htext. subst questions. cbn [length Nat.eqb andb app].
  destruct (nonempty all_pages_text) eqn:Hne.
  - destruct (full_text_questions all_pages_text source_file) as [-> | (q & -> & Hq)].
    + repeat split; auto.
    + split; [reflexivity|]. split.
      * intros Hall. rewrite (Htext Hall) in Hne. discriminate Hne.
      * constructor; [exact Hq | constructor].
  - repeat split; auto.
Qed.

Lemma robust_parser_returns_at_most_one_question_witness :
  let questions :=
    RobustQuestionParser.extract_questions_from_pdf case_study_pages (str "Questions_40.pdf") in
  List.map RobustQuestionParser.id questions = [str "case_study_dress4win_1"]
  /\ List.map (fun q => size (RobustQuestionParser.options q)) questions = [4%nat]
  /\ (length questions <= 1)%nat
  /\ Forall (fun q => RobustQuestionParser.number q = str "1"
                      /\ RobustQuestionParser.page_number q = 1%Z) questions.
Proof.
  intros questions.
  split; [vm_compute; reflexivity|]. split; [vm_compute; reflexivity|].
  destruct (robust_parser_returns_at_most_one_question case_study_pages (str "Questions_40.pdf"))
    as (Hlen & _ & Hall).
  split; [exact Hlen|].
  eapply List.Forall_impl; [|exact Hall]. intros q (H1 & H2 & _). auto.
Defined.

(** ** Options that are kept *)

Lemma options_step_monotone (options : gmap (list N) (list N)) (raw key : list N) (n : nat) :
  holds_at_least options key n -> holds_at_least (options_step options raw) key n.
Proof.
  intros (value & Hv & Hn). unfold options_step.
  destruct (is_empty (strip raw)); [now exists value|].
  destruct (re_match IGNORECASE option_line (strip raw)) as [m|]; [|now exists value].
  destruct (found IGNORECASE vote_phrases _); [now exists value|].
  destruct (_ || _); [now exists value|].
  set (k := upper (group 1 m)). set (v := apply_fixes option_ocr_fixes (strip (group 2 m))).
  destruct (decide (k = key)) as [->|Hk].
  - rewrite Hv. destruct (length value <? length v)%nat eqn:E; [|now exists value].
    apply Nat.ltb_lt in E. exists v. rewrite lookup_insert_eq. split; [reflexivity | lia].
  - destruct (options !! k) as [current|].
    + destruct (length current <? length v)%nat; [|now exists value].
      exists value. now rewrite lookup_insert_ne.
    + exists value. now rewrite lookup_insert_ne.
Qed.

Lemma options_fold_monotone (lines : list (list N)) (options : gmap (list N) (list N))
    (key : list N) (n : nat) :
  holds_at_least options key n -> holds_at_least (fold_left options_step lines options) key n.
Proof.
  revert options. induction lines as [|l ls IH]; intros options H; [exact H|].
  cbn [fold_left]. apply IH. now apply options_step_monotone.
Qed.

Lemma options_step_accepts (options : gmap (list N) (list N)) (raw : list N)
    (letter sep : N) (ws body : list N) :
  strip raw = letter :: sep :: ws ++ body ->
  between 65 70 letter || between 97 102 letter = true ->
  sep = 46 \/ sep = 41 ->
  List.forallb is_space ws = true ->
  strip body = body -> no_newline body = true ->
  (5 <= length body)%nat ->
  found IGNORECASE vote_phrases body = false ->
  holds_at_least (options_step options raw) (upper [letter])
    (length (apply_fixes option_ocr_fixes body)).
Proof.
  intros Hline Hletter Hsep Hws Hstrip Hnl Hlen Hvote.
  assert (Hne : body <> []) by (destruct body; [cbn in Hlen; lia | discriminate]).
  destruct (strip_fixed_parts body Hstrip) as [Hl _].
  destruct (option_line_match letter sep ws body Hletter Hsep Hws Hne Hl Hnl)
    as (m & Hm & Hg1 & Hg2).
  unfold options_step. rewrite Hline. cbn [is_empty]. rewrite Hm, Hg1, Hg2, Hstrip, Hvote.
  replace (length body <? 2)%nat with false by (symmetry; apply Nat.ltb_ge; lia).
  replace (length body <? 5)%nat with false by (symmetry; apply Nat.ltb_ge; lia).
  cbn [orb andb].
  destruct (options !! upper [letter]) as [current|] eqn:Ecur.
  - destruct (length current <? length (apply_fixes option_ocr_fixes body))%nat eqn:E.
    + eexists. rewrite lookup_insert_eq. split; [reflexivity | lia].
    + apply Nat.ltb_ge in E. exists current. auto.
  - eexists. rewrite lookup_insert_eq. split; [reflexivity | lia].
Qed.

(** X25: [_extract_answer_options] never loses an accepted option.
    If some line of the text, once stripped, is an option letter (A to
    F, either case), a dot or closing parenthesis, optional
    whitespace and a body of at least five characters that holds no
    vote phrase, then the dictionary has an entry under the upper-case
    letter, and that entry is at least as long as the body after the
    OCR fixes: a later line can only replace it by a longer text. *)
Theorem accepted_option_is_stored (txt line : list N) (letter sep : N) (ws body : list N) :
  In line (split_on NL txt) ->
  strip line = letter :: sep :: ws ++ body ->
  between 65 70 letter || between 97 102 letter = true ->
  sep = 46 \/ sep = 41 ->
  List.forallb is_space ws = true ->
  strip body = body ->
  (5 <= length body)%nat ->
  found IGNORECASE vote_phrases body = false ->
  holds_at_least (_extract_answer_options txt) (upper [letter])
    (length (apply_fixes option_ocr_fixes body)).
Proof.
  intros Hin Hline Hletter Hsep Hws Hstrip Hlen Hvote.
  assert (Hnl : no_newline body = true).
  { assert (H : no_newline (strip line) = true)
      by (apply (stripped_lines_no_newline txt); now apply List.in_map).
    rewrite Hline in H. unfold no_newline in *.
    change (letter :: sep :: ws ++ body) with ([letter; sep] ++ ws ++ body) in H.
    rewrite !forallb_app in H. apply andb_prop in H as [_ H]. now apply andb_prop in H as [_ H]. }
  unfold _extract_answer_options.
  apply List.in_split in Hin as (before_ & after_ & ->).
  rewrite fold_left_app. cbn [fold_left].
  apply options_fold_monotone.
  now apply (options_step_accepts _ line letter sep ws body).
Qed.

Lemma accepted_option_is_stored_witness :
  let txt := join [NL] [str "Which service stores objects?"; str "  b) Cloud Storage";
                        str "B. GCS"] in
  holds_at_least (_extract_answer_options txt) (str "B") 13
  /\ _extract_answer_options txt !! str "B" = Some (str "Cloud Storage").
Proof.
  intros txt. split; [|vm_compute; reflexivity].
  apply (accepted_option_is_stored txt (str "  b) Cloud Storage") 98 41 [SP]
           (str "Cloud Storage")); try reflexivity.
  - right. left. reflexivity.
  - now right.
  - cbn. lia.
Defined.

(** ** Introductory information *)

Lemma forallb_firstn (p : N -> bool) (n : nat) (s : list N) :
  List.forallb p s = true -> List.forallb p (firstn n s) = true.
Proof.
  rewrite !List.forallb_forall. intros H c Hc. apply H. eapply in_firstn. exact Hc.
Qed.

(** X24: the introductory information [_extract_introductory_info]
    returns has at most 2000 characters and is a single line: its only
    whitespace is the plain space, whatever newlines and tabs the
    matched section of the text held. *)
Theorem introductory_info_is_short_and_flat (txt : list N) :
  (length (RobustQuestionParser._extract_introductory_info txt) <= 2000)%nat
  /\ only_plain_spaces (RobustQuestionParser._extract_introductory_info txt) = true.
Proof.
  unfold RobustQuestionParser._extract_introductory_info. split.
  - rewrite length_firstn. lia.
  - apply forallb_firstn.
    destruct (nonempty (RobustQuestionParser.first_intro _ txt)) eqn:Hne.
    + apply forallb_strip. unfold pat.
      apply re_sub_forall; [reflexivity|]. apply re_sub_forall; [reflexivity|].
      rewrite sub_spaces_collapse. apply collapse_only_plain_spaces.
    + destruct (RobustQuestionParser.first_intro _ txt); [reflexivity | discriminate Hne].
Qed.

(** ** Cleaning never adds characters *)

Lemma rep_loop_min_len (body : mstate -> cont -> option mstate) (n lo : nat)
    (hi : option nat) (greedy : bool) :
  (forall st k res, body st k = Some res ->
     exists st', k st' = Some res /\ (length (rest st') + n <= length (rest st))%nat) ->
  forall (fuel count : nat) (st : mstate) (k : cont) (res : mstate),
    rep_loop body lo hi greedy fuel count st k = Some res ->
    exists st', k st' = Some res
                /\ (length (rest st') + (lo - count) * n <= length (rest st))%nat.
Proof.
  intros Hbody. induction fuel as [|fuel IH]; intros count st k res H.
  - cbn [rep_loop] in H. destruct (lo <=? count)%nat eqn:Hlo; [|discriminate].
    apply Nat.leb_le in Hlo. exists st. split; [exact H|].
    replace (lo - count)%nat with 0%nat by lia. lia.
  - cbn [rep_loop] in H.
    assert (Hstop : (if (lo <=? count)%nat then k st else None) = Some res ->
              exists st', k st' = Some res
                          /\ (length (rest st') + (lo - count) * n <= length (rest st))%nat).
    { destruct (lo <=? count)%nat eqn:Hlo; [|discriminate]. intros E.
      apply Nat.leb_le in Hlo. exists st. split; [exact E|].
      replace (lo - count)%nat with 0%nat by lia. lia. }
    assert (Hagain :
      (if below hi count
       then body st (fun st' => if (length (rest st') <? length (rest st))%nat
                                then rep_loop body lo hi greedy fuel (S count) st' k
                                else None)
       else None) = Some res ->
      exists st', k st' = Some res
                  /\ (length (rest st') + (lo - count) * n <= length (rest st))%nat).
    { destruct (below hi count); [|discriminate]. intros E.
      apply Hbody in E as (st1 & E1 & Hlen1).
      destruct (length (rest st1) <? length (rest st))%nat; [|discriminate].
      apply IH in E1 as (st2 & E2 & Hlen2). exists st2. split; [exact E2|].
      destruct (Nat.le_gt_cases lo count) as [Hle|Hgt].
      - replace (lo - count)%nat with 0%nat by lia. lia.
      - replace (lo - count)%nat with (S (lo - S count)) by lia. cbn [Nat.mul]. lia. }
    destruct greedy.
    + destruct (if below hi count then _ else None) eqn:E.
      * injection H as ->. now apply Hagain.
      * now apply Hstop.
    + destruct (if (lo <=? count)%nat then k st else None) eqn:E.
      * injection H as ->. now apply Hstop.
      * now apply Hagain.
Qed.

(** A match consumes at least [min_len] characters. *)
Lemma rmatch_min_len (fl : flags) (r : regex) :
  forall (st : mstate) (k : cont) (res : mstate),
    rmatch fl r st k = Some res ->
    exists st', k st' = Some res /\ (length (rest st') + min_len r <= length (rest st))%nat.
Proof.
  assert (Hone : forall p st k res, one_char p st k = Some res ->
            exists st', k st' = Some res /\ (length (rest st') + 1 <= length (rest st))%nat).
  { intros p st k res. unfold one_char. destruct (rest st) as [|d tl] eqn:E; [discriminate|].
    destruct (p d); [|discriminate]. intros H. exists (advance st d tl).
    split; [exact H|]. cbn [advance rest length]. lia. }
  induction r as [ | c | | its | its | r1 IH1 r2 IH2 | r1 IH1 r2 IH2 | r' IH lo hi greedy
                 | n r' IH | | | | r' IH ]; intros st k res H; cbn [rmatch min_len] in *.
  - exists st. split; [exact H | lia].
  - eapply Hone. exact H.
  - eapply Hone. exact H.
  - eapply Hone. exact H.
  - eapply Hone. exact H.
  - apply IH1 in H as (st1 & H & L1). apply IH2 in H as (st2 & H & L2).
    exists st2. split; [exact H | lia].
  - destruct (rmatch fl r1 st k) eqn:E.
    + injection H as ->. apply IH1 in E as (st1 & E & L1). exists st1. split; [exact E | lia].
    + apply IH2 in H as (st2 & H & L2). exists st2. split; [exact H | lia].
  - apply (rep_loop_min_len _ (min_len r') lo hi greedy IH) in H as (st' & H & L).
    exists st'. split; [exact H|]. rewrite Nat.sub_0_r in L. exact L.
  - apply IH in H as (st1 & H & L). exists (set_cap n st st1). split; [exact H|].
    cbn [set_cap rest]. exact L.
  - destruct (at_bol fl st); [|discriminate]. exists st. split; [exact H | lia].
  - destruct (at_eol fl st); [|discriminate]. exists st. split; [exact H | lia].
  - destruct (at_wordb st); [|discriminate]. exists st. split; [exact H | lia].
  - destruct (rmatch fl r' st Some); [|discriminate]. exists st. split; [exact H | lia].
Qed.

Lemma match_min_len (fl : flags) (r : regex) (s bef : list N) (m : rmatch_result) :
  search_from fl r bef s = Some m -> (min_len r <= length (group0 m))%nat.
Proof.
  intros H. pose proof (match_text fl r s bef m H) as (pre & _ & Hr & _).
  apply search_from_inv in H as (_ & _ & _ & _ & Hm).
  apply rmatch_min_len in Hm as (st' & [= ->] & L).
  rewrite Hr, length_app in L. lia.
Qed.

(** A substitution whose replacements are no longer than what they
    replace does not lengthen the text. *)
Lemma sub_from_length (fl : flags) (r : regex) (repl : rmatch_result -> list N) :
  (forall bef s m, search_from fl r bef s = Some m ->
                   (length (repl m) <= length (group0 m))%nat) ->
  forall (fuel : nat) (bef s : list N),
    (length (sub_from fl fuel r repl bef s) <= length s)%nat.
Proof.
  intros Hrepl. induction fuel as [|fuel IH]; intros bef s; [reflexivity|].
  cbn [sub_from]. destruct (search_from fl r bef s) as [m|] eqn:E; [|reflexivity].
  pose proof (Hrepl bef s m E) as Hm.
  apply match_text in E as (pre & Heq & Hr & Hstart).
  assert (Hpre : firstn (m_start m - length bef) s = pre)
    by (rewrite Hstart, Nat.add_comm, Nat.add_sub, Heq; apply firstn_length_app).
  assert (Hs : length s = (length pre + length (group0 m) + length (rest (m_to m)))%nat)
    by (rewrite Heq, !length_app; lia).
  rewrite Hpre, Hs.
  destruct (length (rest (m_to m)) <? length (rest (m_from m)))%nat eqn:Hlt.
  - rewrite !length_app. specialize (IH (before (m_to m)) (rest (m_to m))). lia.
  - apply Nat.ltb_ge in Hlt. rewrite Hr, length_app in Hlt.
    destruct (rest (m_to m)) as [|c tl] eqn:Hrest.
    + rewrite !length_app. cbn [length] in *. lia.
    + rewrite !length_app. cbn [length] in *. specialize (IH (c :: before (m_to m)) tl). lia.
Qed.

Lemma re_sub_shrinks (fl : flags) (r : regex) (repl s : list N) :
  (length repl <= min_len r)%nat -> (length (re_sub fl r repl s) <= length s)%nat.
Proof.
  intros H. unfold re_sub. apply sub_from_length. intros bef s' m Hm.
  apply match_min_len in Hm. lia.
Qed.

Lemma seq_skip_shorter (fl : flags) (a b : regex) (st : mstate) (k : cont) (res : mstate) :
  groups a = [] ->
  rmatch fl (Seq a b) st k = Some res ->
  exists st1, caps st1 = caps st /\ (length (rest st1) <= length (rest st))%nat
              /\ rmatch fl b st1 k = Some res.
Proof.
  intros Hg H. apply seq_reach in H as (st1 & Hr & H). rewrite Hg in Hr.
  exists st1. split; [now apply reach_nil_caps|]. split; [|exact H].
  destruct Hr as [(pre & Hrest & _) _]. rewrite Hrest, length_app. lia.
Qed.

(** Joining a word broken by a hyphen at a line end: the two captured
    halves are together shorter than the match. *)
Lemma hyphen_join_shrinks (s bef : list N) (m : rmatch_result) :
  search_from NOFLAGS
    (seqs [Grp 1 (Plus WordC); Chr 45; Star SpaceC; Chr NL; Star SpaceC; Grp 2 (Plus WordC)])
    bef s = Some m ->
  (length (group 1 m ++ group 2 m) <= length (group0 m))%nat.
Proof.
  intros H. pose proof (match_text _ _ s bef m H) as (pre & _ & Hr & _).
  apply search_from_inv in H as (_ & _ & _ & Hc & Hm). cbn [seqs] in Hm.
  apply seq_grp_rep_set_inv in Hm as (run1 & tl1 & Hrest1 & _ & _ & Hm).
  apply seq_skip_shorter in Hm as (st2 & Hc2 & L2 & Hm); [|reflexivity].
  apply seq_skip_shorter in Hm as (st3 & Hc3 & L3 & Hm); [|reflexivity].
  apply seq_skip_shorter in Hm as (st4 & Hc4 & L4 & Hm); [|reflexivity].
  apply seq_skip_shorter in Hm as (st5 & Hc5 & L5 & Hm); [|reflexivity].
  apply grp_rep_set_inv in Hm as (run2 & tl2 & Hrest5 & _ & _ & [= Hres]).
  cbn [rest caps] in L2, Hc2.
  unfold group. rewrite <- Hres. cbn [caps assoc_nat Nat.eqb].
  rewrite Hc5, Hc4, Hc3, Hc2, Hc. cbn [assoc_nat Nat.eqb].
  rewrite <- Hres in Hr. cbn [rest] in Hr.
  assert (Hlen : (length (rest (m_from m)) = length (group0 m) + length tl2)%nat)
    by (rewrite Hr at 1; now rewrite length_app).
  rewrite Hrest1, length_app in Hlen. rewrite Hrest5, length_app in L5.
  rewrite length_app. lia.
Qed.

(** X26: [clean_pdf_artifacts] never makes a text longer: each of its
    nine substitutions replaces a match by something no longer, and
    stripping only removes characters. *)
Theorem page_cleaning_never_lengthens (txt : list N) :
  (length (PDFProcessor.clean_pdf_artifacts txt) <= length txt)%nat.
Proof.
  unfold PDFProcessor.clean_pdf_artifacts. destruct (is_empty txt); [cbn; lia|].
  unfold pat.
  etransitivity; [apply strip_length|].
  etransitivity; [apply re_sub_shrinks; cbn; lia|].
  etransitivity; [apply re_sub_shrinks; cbn; lia|].
  etransitivity; [apply re_sub_shrinks; cbn; lia|].
  etransitivity; [unfold re_sub_with; apply sub_from_length; intros bef s m; apply hyphen_join_shrinks|].
  etransitivity; [apply re_sub_shrinks; cbn; lia|].
  etransitivity; [apply re_sub_shrinks; cbn; lia|].
  etransitivity; [apply re_sub_shrinks; cbn; lia|].
  etransitivity; [apply re_sub_shrinks; cbn; lia|].
  apply re_sub_shrinks. cbn. lia.
Qed.

(** ** Lines that begin with "Selected Answer" *)

Lemma starts_with_split (p s : list N) :
  starts_with p s = true -> exists post, s = p ++ post.
Proof.
  revert s. induction p as [|x p IH]; intros s; [now exists s|].
  destruct s as [|y s]; [discriminate|]. cbn [starts_with].
  intros H. apply andb_prop in H as [Hx Hp]. apply N.eqb_eq in Hx. subst y.
  apply IH in Hp as (post & ->). now exists post.
Qed.

(** In the upper-cased line the first letter from A to F that is
    followed by whitespace is the D of SELECTED. *)
Lemma find_answer_selected (post : list N) (next : option (list N)) :
  find_answer (str "selected answer" ++ post) next = Some (str "D").
Proof.
  unfold find_answer, upper. rewrite List.map_app.
  generalize (List.map upper_char post). intros tail_.
  assert (H : exists m,
             re_search NOFLAGS answer_letter (List.map upper_char (str "selected answer") ++ tail_)
             = Some m
             /\ rest (m_from m) = 68 :: rest (m_to m)).
  { eexists. split; [vm_compute; reflexivity | reflexivity]. }
  destruct H as (m & -> & Hm). unfold group0. rewrite Hm. now rewrite firstn_one.
Qed.

Lemma responses_step_selected (cd : community_data) (raw : list N) (next : option (list N)) :
  (if names_answer raw
   then begins_with_selected_answer raw = true
        -> cd_community_answer (responses_step cd raw next) = str "D"
   else cd_community_answer (responses_step cd raw next) = cd_community_answer cd).
Proof.
  unfold names_answer, begins_with_selected_answer, response_line, responses_step.
  set (line := lower (strip raw)).
  destruct (contains (str "selected answer") line || contains (str "correct answer") line).
  - intros Hstart. apply starts_with_split in Hstart as (post & Hline).
    rewrite Hline, find_answer_selected.
    destruct (first_group1 NOFLAGS date_patterns _); reflexivity.
  - destruct (contains (str "highly voted") line).
    + destruct (find_answer line next);
        destruct (first_group1 NOFLAGS date_patterns line); reflexivity.
    + destruct (contains (str "most recent") line).
      * destruct (find_answer line next);
          destruct (first_group1 NOFLAGS date_patterns line); reflexivity.
      * destruct (first_group1 NOFLAGS date_patterns line); reflexivity.
Qed.

(** X27: a line that begins with "Selected Answer" (case and
    surrounding whitespace aside) always yields the community answer
    D, whatever letter follows the colon: the answer is searched in
    the upper-cased line, where the D of SELECTED, followed by a
    space, is the first match.  Hence, for a block in which every line
    that names a selected or correct answer begins this way, and at
    least one does, [_parse_community_responses] returns D. *)
Theorem selected_answer_lines_read_as_D (txt : list N) :
  List.existsb names_answer (split_on NL txt) = true ->
  List.forallb (fun raw => negb (names_answer raw) || begins_with_selected_answer raw)
    (split_on NL txt) = true ->
  cd_community_answer (_parse_community_responses txt) = str "D".
Proof.
  unfold _parse_community_responses. generalize (split_on NL txt). intros lines Hsome Hall.
  assert (H : forall lines cd,
             List.forallb (fun raw => negb (names_answer raw) || begins_with_selected_answer raw)
               lines = true ->
             cd_community_answer (responses_loop cd lines)
             = if List.existsb names_answer lines then str "D" else cd_community_answer cd).
  { clear. induction lines as [|raw lines IH]; intros cd Hall; [reflexivity|].
    cbn [List.forallb] in Hall. apply andb_prop in Hall as [Hraw Hall].
    cbn [responses_loop List.existsb]. rewrite (IH _ Hall).
    pose proof (responses_step_selected cd raw (head lines)) as Hstep.
    destruct (names_answer raw); cbn [negb orb] in *.
    - destruct (List.existsb names_answer lines); [reflexivity | now apply Hstep].
    - now rewrite Hstep. }
  rewrite (H lines _ Hall), Hsome. reflexivity.
Qed.

Lemma selected_answer_lines_read_as_D_witness :
  cd_community_answer
    (_parse_community_responses
       (join [NL] [str "Which service stores objects?"; str "A. Compute Engine";
                   str "B. Cloud Storage"; str "  Selected Answer: B"]))
  = str "D".
Proof.
  apply selected_answer_lines_read_as_D; vm_compute; reflexivity.
Defined.


(** ** What every returned question looks like *)








(** ** The options of a question of the robust parser *)

Lemma finditer_from_in (fl : flags) (r : regex) (m : rmatch_result) :
  forall (fuel : nat) (bef s : list N),
    In m (finditer_from fl fuel r bef s) ->
    exists bef' s', search_from fl r bef' s' = Some m.
Proof.
  induction fuel as [|fuel IH]; intros bef s; [contradiction|].
  cbn [finditer_from]. destruct (search_from fl r bef s) as [m0|] eqn:E; [|contradiction].
  assert (Hhead : m0 = m -> exists bef' s', search_from fl r bef' s' = Some m)
    by (intros <-; now exists bef, s).
  destruct (length (rest (m_to m0)) <? length (rest (m_from m0)))%nat.
  - intros [H|H]; [now apply Hhead | now apply IH in H].
  - destruct (rest (m_to m0)) as [|c tl].
    + intros [H|[]]. now apply Hhead.
    + intros [H|H]; [now apply Hhead | now apply IH in H].
Qed.

Lemma option_pattern_letter (pattern : regex) (s bef : list N) (m : rmatch_result) :
  In pattern RobustQuestionParser.answer_option_patterns ->
  search_from (flag_or MULTILINE DOTALL) pattern bef s = Some m ->
  In (group 1 m) answer_letters.
Proof.
  intros Hin H. apply search_from_inv in H as (_ & _ & _ & Hc & Hm).
  assert (Hgen : forall body,
             groups body = [2%nat] ->
             rmatch (flag_or MULTILINE DOTALL) (Seq (Grp 1 (In_ [IRng 65 70])) body)
               (m_from m) Some = Some (m_to m) ->
             In (group 1 m) answer_letters).
  { intros body Hg Hb. apply seq_grp_set_inv in Hb as (d & tl & _ & Hd & Hb).
    apply rmatch_reach in Hb as (st' & [_ (new & Hcaps & Hf)] & [= ->]).
    rewrite Hg in Hf. unfold group. rewrite Hcaps. cbn [caps].
    rewrite (assoc_nat_after [2%nat] 1 [d] new _ _ Hf); [|cbn [In]; lia].
    apply one_letter_A_to_F. exact Hd. }
  unfold RobustQuestionParser.answer_option_patterns, pat in Hin. cbn [In seqs] in Hin.
  destruct Hin as [<-|[<-|[<-|[]]]]; (eapply Hgen; [|exact Hm]); reflexivity.
Qed.

Lemma options_of_keyed (question_text : list N) :
  map_Forall (fun key _ => In key answer_letters)
    (RobustQuestionParser.options_of question_text).
Proof.
  unfold RobustQuestionParser.options_of.
  assert (Hinner : forall pattern,
             In pattern RobustQuestionParser.answer_option_patterns ->
             forall matches options,
               (forall m, In m matches ->
                          exists bef s, search_from (flag_or MULTILINE DOTALL) pattern bef s
                                        = Some m) ->
               map_Forall (fun key (_ : list N) => In key answer_letters) options ->
               map_Forall (fun key (_ : list N) => In key answer_letters)
                 (fold_left RobustQuestionParser.record_option matches options)).
  { intros pattern Hp. induction matches as [|m ms IH]; intros options Hms Ho; [exact Ho|].
    cbn [fold_left]. apply IH; [intros m' Hm'; apply Hms; now right|].
    unfold RobustQuestionParser.record_option.
    destruct (nonempty (group 1 m) && nonempty (group 2 m)); [|exact Ho].
    apply map_Forall_insert_2; [|exact Ho].
    destruct (Hms m) as (bef & s & Hs); [now left|].
    now apply (option_pattern_letter pattern s bef m). }
  assert (Houter : forall patterns options,
             (forall pattern, In pattern patterns ->
                              In pattern RobustQuestionParser.answer_option_patterns) ->
             map_Forall (fun key (_ : list N) => In key answer_letters) options ->
             map_Forall (fun key (_ : list N) => In key answer_letters)
               (fold_left
                  (fun options pattern =>
                     fold_left RobustQuestionParser.record_option
                       (finditer (flag_or MULTILINE DOTALL) pattern question_text) options)
                  patterns options)).
  { induction patterns as [|pattern ps IH]; intros options Hps Ho; [exact Ho|].
    cbn [fold_left]. apply IH; [intros p Hp; apply Hps; now right|].
    apply (Hinner pattern); [apply Hps; now left| |exact Ho].
    intros m Hm. unfold finditer in Hm. now apply finditer_from_in in Hm. }
  apply Houter; [auto | apply map_Forall_empty].
Qed.

(** X29: the options of a question accepted by
    [_parse_single_question] are stored under upper-case letters from
    A to F only (the option patterns are matched without ignoring
    case), so there are between two and six of them. *)
Theorem accepted_question_options (question_text question_number : list N) (page_num : Z)
    (source_file : list N) (q : RobustQuestionParser.CleanQuestion) :
  RobustQuestionParser._parse_single_question question_text question_number page_num source_file
  = Some q ->
  map_Forall (fun key _ => In key answer_letters) (RobustQuestionParser.options q)
  /\ (2 <= size (RobustQuestionParser.options q) <= 6)%nat.
Proof.
  unfold RobustQuestionParser._parse_single_question.
  destruct (re_search DOTALL RobustQuestionParser.description_pattern question_text)
    as [m|]; [|discriminate].
  destruct (size (RobustQuestionParser.options_of question_text) <? 2)%nat eqn:Hsize;
    [discriminate|].
  destruct (length _ <? 10)%nat; [discriminate|]. cbn [orb]. intros [= <-].
  match goal with
  | |- context [RobustQuestionParser._extract_community_answers_from_text ?q0 ?c] =>
      destruct (community_answers_keep_fields q0 c) as (_ & _ & _ & H4 & _)
  end.
  rewrite H4. cbn [RobustQuestionParser.options].
  pose proof (options_of_keyed question_text) as Hkeys.
  apply Nat.ltb_ge in Hsize. split; [exact Hkeys|]. split; [exact Hsize|].
  rewrite <- size_dom.
  change 6%nat with (size (list_to_set answer_letters : gset (list N))).
  apply subseteq_size. intros key Hkey. apply elem_of_dom in Hkey as [value Hv].
  apply elem_of_list_to_set, list_elem_of_In. exact (Hkeys key value Hv).
Qed.

Lemma accepted_question_options_witness :
  let result :=
    RobustQuestionParser._parse_single_question sample_question_text (str "5") 3
      (str "Questions_1.pdf") in
  option_map (fun q => List.map fst (map_to_list (RobustQuestionParser.options q))) result
  = Some [str "C"; str "B"; str "A"]
  /\ match result with
     | Some q => (2 <= size (RobustQuestionParser.options q) <= 6)%nat
     | None => False
     end.
Proof.
  intros result. split; [vm_compute; reflexivity|].
  destruct result as [q|] eqn:Eq; [|vm_compute in Eq; discriminate Eq].
  exact (proj2 (accepted_question_options _ _ _ _ q Eq)).
Defined.
